(** * Stock analysis agent: indicator engine and decision pipeline

    A shallow embedding of [components/indicators.py], [components/nodes.py]
    and [graph.py], with the properties of the specification proved (or
    refuted) on it.

    Conventions of the embedding.
    - The stages of the pipeline run on an exact engine: a Python [float]
      that holds a number is the rational [Q] it denotes, arithmetic on
      series is exact and comparisons are those of [Q].  The properties
      proved on it are those that do not depend on rounding: which rows
      are defined, which branch a stage takes, what the report contains.
    - Where a property depends on the rounding of binary64 the same
      functions are given again with that arithmetic ([sma_binary64],
      [rsi_binary64]): every operation rounds to nearest, ties to even,
      with infinities and NaN, and the rolling mean is the running sum of
      pandas with its compensation.  The two zeros of binary64 are one
      number here; the sign bit of a zero matters in one place, the sign
      count of the rolling mean, and is given to it by the caller.  The
      integer quotient [market_cap / thresh] is rounded the same way.
    - [None] and [NaN] in a pandas Series are both [None : option Q]; the
      source itself folds the two ([_to_float_or_none]).
    - A Python [dict] built by one stage with a fixed key set is a record;
      an absent dict (or [{}] after [x or {}]) is [None].
    - A call that can raise returns [pyresult]. *)

From Stdlib Require Import ZArith QArith Qabs Qround Qpower String Ascii Bool Lia Lqa Arith List.
From Stdlib Require Import Numbers.DecimalString.
From Stdlib Require DecimalN DecimalPos.
Import ListNotations.

Set Implicit Arguments.

(** ** components/config.py *)

Module config.
Definition SMA_SHORT : nat := 10.
Definition SMA_LONG : nat := 20.
Definition RSI_PERIOD : nat := 14.
Definition HISTORY_DAYS : nat := 60.
Definition DATA_INTERVAL : string := "1d".
Definition CURRENCY_FALLBACK : string := "USD".
End config.

(** ** components/indicators.py *)

(** A pandas Series of floats over a fixed index. *)
Definition series := list (option Q).

Definition of_prices (xs : list Q) : series := map (@Some Q) xs.

Definition Qsum (xs : list Q) : Q := fold_right Qplus 0 xs.

(** The observations (non-NaN entries) of a window. *)
Fixpoint observations (win : series) : list Q :=
  match win with
  | [] => []
  | Some x :: tl => x :: observations tl
  | None :: tl => observations tl
  end.

(** The rows a rolling window of size [window] covers at position [i]:
    rows [i - window + 1 .. i], cut at the start of the series. *)
Definition window_at (window i : nat) (xs : series) : series :=
  firstn (S i - (S i - window)) (skipn (S i - window) xs).

(** [Series.rolling(window, min_periods).mean()]: the mean of the
    observations in the window when there are at least [min_periods] of
    them (and at least one), NaN otherwise. *)
Definition rolling_mean (window min_periods : nat) (xs : series) : series :=
  map (fun i =>
         let obs := observations (window_at window i xs) in
         if (min_periods <=? length obs)%nat && (0 <? length obs)%nat
         then Some (Qsum obs / inject_Z (Z.of_nat (length obs)))
         else None)
      (seq 0 (length xs)).

Definition sma (s : series) (window : nat) : series :=
  rolling_mean window window s.

(** [Series.diff()]: first row NaN, then current minus previous. *)
Definition diff (xs : series) : series :=
  match xs with
  | [] => []
  | _ :: tl =>
      None :: map (fun cp : option Q * option Q =>
                     match cp with
                     | (Some cur, Some prev) => Some (cur - prev)
                     | _ => None
                     end)
                  (combine tl xs)
  end.

(** [Series.clip(lower=lo)] and [Series.clip(upper=hi)]; NaN stays NaN. *)
Definition clip_lower (lo : Q) (xs : series) : series :=
  map (option_map (fun x => if Qle_bool lo x then x else lo)) xs.

Definition clip_upper (hi : Q) (xs : series) : series :=
  map (option_map (fun x => if Qle_bool x hi then x else hi)) xs.

Definition series_neg (xs : series) : series := map (option_map Qopp) xs.

(** [Series.replace(0, np.nan)]. *)
Definition replace_zero_nan (xs : series) : series :=
  map (fun o => match o with
                | Some x => if Qeq_bool x 0 then None else Some x
                | None => None
                end) xs.

(** Row-wise quotient of two series on the same index.  In [rsi] the
    divisor has had its zeros replaced by NaN, so no row divides by 0. *)
Definition series_div (xs ys : series) : series :=
  map (fun ab : option Q * option Q =>
         match ab with
         | (Some a, Some b) => Some (a / b)
         | _ => None
         end)
      (combine xs ys).

(** [Series.bfill()]: every NaN takes the next defined value below it. *)
Fixpoint bfill (xs : series) : series :=
  match xs with
  | [] => []
  | x :: tl =>
      let tl' := bfill tl in
      match x with
      | Some _ => x :: tl'
      | None => hd None tl' :: tl'
      end
  end.

Definition rsi_gains (close : series) : series := clip_lower 0 (diff close).
Definition rsi_losses (close : series) : series :=
  series_neg (clip_upper 0 (diff close)).

Definition rsi_avg_gain (close : series) (period : nat) : series :=
  rolling_mean period period (rsi_gains close).
Definition rsi_avg_loss (close : series) (period : nat) : series :=
  rolling_mean period period (rsi_losses close).

(** [rsi_vals] of the source, before the final back-fill. *)
Definition rsi_vals (close : series) (period : nat) : series :=
  let rs := series_div (rsi_avg_gain close period)
                       (replace_zero_nan (rsi_avg_loss close period)) in
  map (option_map (fun r => 100 - 100 / (1 + r))) rs.

Definition rsi (close : series) (period : nat) : series :=
  bfill (rsi_vals close period).

(** ** Python values used by components/nodes.py *)

(** The outcome of a call that may raise. *)
Inductive pyresult (A : Type) : Type :=
| Ok (a : A)
| Raise (exn : string).
Arguments Raise {A} exn.

Definition bind {A B : Type} (r : pyresult A) (k : A -> pyresult B) : pyresult B :=
  match r with
  | Ok a => k a
  | Raise e => Raise e
  end.

Notation "x <- r ;; k" := (bind r (fun x => k))
  (at level 61, r at next level, right associativity).

(** A number handed to a formatter: [int] or [float]. *)
Inductive pynum : Type :=
| PyInt (z : Z)
| PyFloat (q : Q).

(** [str.join]. *)
Definition join (sep : string) (parts : list string) : string :=
  String.concat sep parts.

(** [c * n] for a one-character string. *)
Fixpoint repeat_char (c : ascii) (n : nat) : string :=
  match n with
  | O => EmptyString
  | S k => String c (repeat_char c k)
  end.

(** Decimal digits of a natural number, ["0"] for zero. *)
Definition digits_of_N (n : N) : string :=
  NilZero.string_of_uint (N.to_uint n).

(** Thousands separators, on the digits in reverse order; [k] counts the
    digits already emitted in the current group. *)
Fixpoint commas_rev (ds : list ascii) (k : nat) : list ascii :=
  match ds with
  | [] => []
  | d :: tl =>
      if (k =? 3)%nat then ","%char :: d :: commas_rev tl 1
      else d :: commas_rev tl (S k)
  end.

Definition group_thousands (digits : string) : string :=
  string_of_list_ascii
    (rev (commas_rev (rev (list_ascii_of_string digits)) 0)).

Definition sign_prefix (negative : bool) : string :=
  if negative then "-"%string else ""%string.

(** [f"{z:,}"] for an [int]. *)
Definition format_int_grouped (z : Z) : string :=
  (sign_prefix (z <? 0)%Z ++ group_thousands (digits_of_N (Z.abs_N z)))%string.

(** Nearest integer, ties to the even one. *)
Definition round_half_even (q : Q) : Z :=
  let num := Qnum q in
  let den := Zpos (Qden q) in
  let fl := (num / den)%Z in
  let r := (num mod den)%Z in
  match (2 * r ?= den)%Z with
  | Lt => fl
  | Gt => (fl + 1)%Z
  | Eq => if Z.even fl then fl else (fl + 1)%Z
  end.

Definition two_digits (n : Z) : string :=
  (digits_of_N (Z.to_N (n / 10)) ++ digits_of_N (Z.to_N (n mod 10)))%string.

(** [f"{q:.2f}"] and, with [grouped], [f"{q:,.2f}"] for a [float]: the
    value is rounded to hundredths, ties to even, and the sign is kept
    even when the digits round to zero. *)
Definition format_float_2f (grouped : bool) (q : Q) : string :=
  let n := round_half_even (Qabs q * 100) in
  let whole := digits_of_N (Z.to_N (n / 100)) in
  (sign_prefix (Qnum q <? 0)%Z
   ++ (if grouped then group_thousands whole else whole)
   ++ "." ++ two_digits (n mod 100))%string.

(** *** binary64 rounding of an integer quotient *)

Definition Qpow2 (s : Z) : Q :=
  if (0 <=? s)%Z then inject_Z (2 ^ s) else 1 # Z.to_pos (2 ^ (- s)).

(** [floor (log2 (n / d))] for positive [n] and [d]. *)
Definition log2_ratio (n d : Z) : Z :=
  let e0 := (Z.log2 n - Z.log2 d)%Z in
  let below :=
    if (0 <=? e0)%Z then (n <? d * 2 ^ e0)%Z else (n * 2 ^ (- e0) <? d)%Z in
  if below then (e0 - 1)%Z else e0.

(** The binary64 value nearest to the positive rational [n / d] (ties to
    even, gradual underflow); [None] when it exceeds the largest finite
    binary64. *)
Definition round_binary64 (n d : Z) : option Q :=
  let e := log2_ratio n d in
  let s := (Z.max e (-1022) - 52)%Z in
  let m := round_half_even ((n # Z.to_pos d) / Qpow2 s) in
  let v := inject_Z m * Qpow2 s in
  if Qle_bool (Qpow2 1024) v then None else Some v.

(** [a / b] on two [int]s: the correctly rounded binary64 quotient. *)
Definition int_truediv (a b : Z) : pyresult Q :=
  if (b =? 0)%Z then Raise "ZeroDivisionError: division by zero"
  else if (a =? 0)%Z then Ok 0
  else
    match round_binary64 (Z.abs a) (Z.abs b) with
    | None => Raise "OverflowError: integer division result too large for a float"
    | Some v => Ok (if (Z.sgn a * Z.sgn b <? 0)%Z then - v else v)
    end.

(** [str.upper] and [str.strip] on ASCII text (ticker symbols); bytes
    above 127 are left as they are. *)
Definition upper_char (c : ascii) : ascii :=
  let n := nat_of_ascii c in
  if (97 <=? n)%nat && (n <=? 122)%nat then ascii_of_nat (n - 32) else c.

Fixpoint upper (s : string) : string :=
  match s with
  | EmptyString => EmptyString
  | String c tl => String (upper_char c) (upper tl)
  end.

Definition is_space (c : ascii) : bool :=
  let n := nat_of_ascii c in
  ((9 <=? n)%nat && (n <=? 13)%nat)
  || ((28 <=? n)%nat && (n <=? 32)%nat).

Fixpoint lstrip (s : string) : string :=
  match s with
  | EmptyString => EmptyString
  | String c tl => if is_space c then lstrip tl else s
  end.

Definition string_rev (s : string) : string :=
  string_of_list_ascii (rev (list_ascii_of_string s)).

Definition strip (s : string) : string :=
  string_rev (lstrip (string_rev (lstrip s))).

(** Truth value of a [str] and of a [float]. *)
Definition str_truthy (s : string) : bool :=
  match s with EmptyString => false | _ => true end.

Definition float_truthy (q : Q) : bool := negb (Qeq_bool q 0).

(** [a > b], [a >= b] and [a < b] on floats. *)
Definition Qgt_bool (a b : Q) : bool := negb (Qle_bool a b).
Definition Qge_bool (a b : Q) : bool := Qle_bool b a.
Definition Qlt_bool (a b : Q) : bool := negb (Qle_bool b a).

(** ** components/state.py *)

(** [state['stock_info']] as [fetch_stock_data] builds it. *)
Record StockInfo : Type := {
  symbol : string;
  long_name : string;
  current_price : option Q;
  market_cap : option Z;
  currency : string;
  last_volume : option Z;
  analysis_time : string
}.

(** [state['technical_indicators']]. *)
Record IndicatorSet : Type := {
  sma_short : option Q;
  sma_long : option Q;
  rsi_value : option Q;
  last_close : option Q;
  prev_close : option Q
}.

(** [state['trend']]. *)
Record TrendAssessment : Type := {
  short_term : string;
  price_vs_sma : string;
  momentum : string;
  notes : string
}.

(** One row of the price history. *)
Record PriceBar : Type := {
  bar_date : string;
  bar_open : Q;
  bar_high : Q;
  bar_low : Q;
  bar_close : Q;
  bar_volume : option Z
}.

(** [state['historical_data']]: the rows and, once the Indicator stage has
    run, the three columns it attaches. *)
Record DataFrame : Type := {
  rows : list PriceBar;
  col_SMA_SHORT : option series;
  col_SMA_LONG : option series;
  col_RSI : option series
}.

(** [StockAgentState]: a [TypedDict] with every key optional.  [None]
    stands for a key that is absent or holds [None]; [is_valid] keeps the
    two apart because [state.get('is_valid', True)] does. *)
Record StockAgentState : Type := {
  ticker : option string;
  stock_info : option StockInfo;
  historical_data : option DataFrame;
  technical_indicators : option IndicatorSet;
  trend : option TrendAssessment;
  report : option string;
  is_valid : option (option bool);
  errors : option (list string)
}.

(** The state [run_agent] starts from: [{'ticker': ticker}]. *)
Definition initial_state (t : string) : StockAgentState :=
  {| ticker := Some t; stock_info := None; historical_data := None;
     technical_indicators := None; trend := None; report := None;
     is_valid := None; errors := None |}.

Definition set_errors (es : list string) (s : StockAgentState) : StockAgentState :=
  {| ticker := ticker s; stock_info := stock_info s;
     historical_data := historical_data s;
     technical_indicators := technical_indicators s; trend := trend s;
     report := report s; is_valid := is_valid s; errors := Some es |}.

Definition set_is_valid (b : bool) (s : StockAgentState) : StockAgentState :=
  {| ticker := ticker s; stock_info := stock_info s;
     historical_data := historical_data s;
     technical_indicators := technical_indicators s; trend := trend s;
     report := report s; is_valid := Some (Some b); errors := errors s |}.

Definition set_stock_info (i : StockInfo) (s : StockAgentState) : StockAgentState :=
  {| ticker := ticker s; stock_info := Some i;
     historical_data := historical_data s;
     technical_indicators := technical_indicators s; trend := trend s;
     report := report s; is_valid := is_valid s; errors := errors s |}.

Definition set_historical_data (d : DataFrame) (s : StockAgentState) : StockAgentState :=
  {| ticker := ticker s; stock_info := stock_info s;
     historical_data := Some d;
     technical_indicators := technical_indicators s; trend := trend s;
     report := report s; is_valid := is_valid s; errors := errors s |}.

Definition set_technical_indicators (t : IndicatorSet) (s : StockAgentState) : StockAgentState :=
  {| ticker := ticker s; stock_info := stock_info s;
     historical_data := historical_data s;
     technical_indicators := Some t; trend := trend s;
     report := report s; is_valid := is_valid s; errors := errors s |}.

Definition set_trend (t : TrendAssessment) (s : StockAgentState) : StockAgentState :=
  {| ticker := ticker s; stock_info := stock_info s;
     historical_data := historical_data s;
     technical_indicators := technical_indicators s; trend := Some t;
     report := report s; is_valid := is_valid s; errors := errors s |}.

Definition set_report (r : string) (s : StockAgentState) : StockAgentState :=
  {| ticker := ticker s; stock_info := stock_info s;
     historical_data := historical_data s;
     technical_indicators := technical_indicators s; trend := trend s;
     report := Some r; is_valid := is_valid s; errors := errors s |}.

(** The error list once [_ensure_errors] has run. *)
Definition errors_of (s : StockAgentState) : list string :=
  match errors s with
  | Some es => es
  | None => []
  end.

Definition _ensure_errors (s : StockAgentState) : StockAgentState :=
  set_errors (errors_of s) s.

(** [state['errors'].append(msg)]. *)
Definition append_error (msg : string) (s : StockAgentState) : StockAgentState :=
  set_errors (errors_of s ++ [msg]) s.

(** ** The market-data provider *)

(** [t.fast_info]: each field is read on demand and a read may raise.  A
    field holds a value or [None]; a price that is NaN is not represented. *)
Record FastInfo : Type := {
  fi_last_price : pyresult (option Q);
  fi_market_cap : pyresult (option pynum);
  fi_currency : pyresult (option string)
}.

(** [t.info]. *)
Record CompanyInfo : Type := {
  ci_marketCap : option pynum;
  ci_currency : option string;
  ci_longName : option string;
  ci_shortName : option string
}.

(** What the provider and the clock answer during one run. *)
Record Gateway : Type := {
  gw_history_1d : string -> pyresult nat;
  gw_fast_info : string -> pyresult FastInfo;
  gw_info : string -> pyresult CompanyInfo;
  gw_download : string -> pyresult (list PriceBar);
  gw_now : string
}.

(** ** components/nodes.py *)

Local Open Scope string_scope.

Definition _is_missing {A : Type} (x : option A) : bool :=
  match x with None => true | Some _ => false end.

Definition _to_float_or_none (x : option Q) : option Q := x.

(** [int(x)]: truncation toward zero on a float. *)
Definition int_of_pynum (x : pynum) : Z :=
  match x with
  | PyInt z => z
  | PyFloat q => Z.quot (Qnum q) (Zpos (Qden q))
  end.

Definition validate_ticker (gw : Gateway) (state : StockAgentState) : StockAgentState :=
  let ticker := upper (strip (match ticker state with Some t => t | None => "" end)) in
  let state := _ensure_errors state in
  if negb (str_truthy ticker) then
    append_error "Ticker is empty." (set_is_valid false state)
  else
    match gw_history_1d gw ticker with
    | Ok n =>
        let valid :=
          if (0 <? n)%nat then true
          else
            match gw_fast_info gw ticker with
            | Ok fi =>
                match fi_last_price fi with
                | Ok (Some price) => Qgt_bool price 0
                | _ => false
                end
            | Raise _ => false
            end in
        let state := set_is_valid valid state in
        if valid then state
        else append_error ("Không tìm thấy mã cổ phiếu: " ++ ticker) state
    | Raise e =>
        append_error ("Lỗi khi xác minh mã " ++ ticker ++ ": " ++ e)
                     (set_is_valid false state)
    end.

(** The three reads of [fast_info] in order; a raise keeps what was read. *)
Definition read_fast_info (r : pyresult FastInfo)
  : option Q * option pynum * option string :=
  match r with
  | Raise _ => (None, None, None)
  | Ok fi =>
      match fi_last_price fi with
      | Raise _ => (None, None, None)
      | Ok p =>
          match fi_market_cap fi with
          | Raise _ => (p, None, None)
          | Ok m =>
              match fi_currency fi with
              | Raise _ => (p, m, None)
              | Ok c => (p, m, c)
              end
          end
      end
  end.

Definition or_str (x : option string) (default : string) : string :=
  match x with
  | Some s => if str_truthy s then s else default
  | None => default
  end.

Definition fetch_stock_data (gw : Gateway) (state : StockAgentState)
  : pyresult StockAgentState :=
  match ticker state with
  | None => Raise "KeyError: 'ticker'"
  | Some t =>
      let ticker := upper t in
      let state := _ensure_errors state in
      match gw_download gw ticker with
      | Raise e =>
          Ok (append_error ("Lỗi khi lấy dữ liệu cho " ++ ticker ++ ": " ++ e) state)
      | Ok [] => Ok (append_error "Không lấy được dữ liệu lịch sử." state)
      | Ok (b :: bs) =>
          let hist := b :: bs in
          let '(current_price, market_cap, currency) :=
            read_fast_info (gw_fast_info gw ticker) in
          let current_price :=
            match current_price with
            | None => Some (bar_close (last hist b))
            | Some p => Some p
            end in
          let '(market_cap, currency, long_name) :=
            match gw_info gw ticker with
            | Raise _ => (market_cap, currency, None)
            | Ok info =>
                (if _is_missing market_cap then ci_marketCap info else market_cap,
                 if _is_missing currency then ci_currency info else currency,
                 if _is_missing (ci_longName info) then ci_shortName info
                 else ci_longName info)
            end in
          let volume := bar_volume (last hist b) in
          let currency := or_str currency config.CURRENCY_FALLBACK in
          let info :=
            {| symbol := ticker;
               long_name := or_str long_name ticker;
               current_price := current_price;
               market_cap := option_map int_of_pynum market_cap;
               currency := currency;
               last_volume := volume;
               analysis_time := gw_now gw |} in
          Ok (set_historical_data
                {| rows := hist; col_SMA_SHORT := None;
                   col_SMA_LONG := None; col_RSI := None |}
                (set_stock_info info state))
      end
  end.

Definition calculate_technical_indicators (state : StockAgentState) : StockAgentState :=
  let state := _ensure_errors state in
  match historical_data state with
  | None => append_error "Thiếu dữ liệu lịch sử để tính chỉ báo." state
  | Some hist =>
      match rows hist with
      | [] => append_error "Thiếu dữ liệu lịch sử để tính chỉ báo." state
      | _ :: _ =>
          let close := of_prices (map bar_close (rows hist)) in
          let sma_short_s := sma close config.SMA_SHORT in
          let sma_long_s := sma close config.SMA_LONG in
          let rsi_series := rsi close config.RSI_PERIOD in
          let df := {| rows := rows hist;
                       col_SMA_SHORT := Some sma_short_s;
                       col_SMA_LONG := Some sma_long_s;
                       col_RSI := Some rsi_series |} in
          let tech :=
            {| sma_short := _to_float_or_none (last sma_short_s None);
               sma_long := _to_float_or_none (last sma_long_s None);
               rsi_value := _to_float_or_none (last rsi_series None);
               last_close := _to_float_or_none (last close None);
               prev_close :=
                 if (2 <=? length close)%nat
                 then _to_float_or_none (nth (length close - 2) close None)
                 else None |} in
          set_technical_indicators tech (set_historical_data df state)
      end
  end.

(** [tech.get(key)] with [tech = state.get('technical_indicators') or {}]. *)
Definition tech_get (field : IndicatorSet -> option Q) (state : StockAgentState)
  : option Q :=
  match technical_indicators state with
  | Some tech => field tech
  | None => None
  end.

Definition analyze_market_trend (state : StockAgentState) : StockAgentState :=
  let state := _ensure_errors state in
  let price := tech_get last_close state in
  let sma_short_v := tech_get sma_short state in
  let sma_long_v := tech_get sma_long state in
  let rsi_v := tech_get rsi_value state in
  let '(short_term, price_vs) :=
    match price, sma_short_v, sma_long_v with
    | Some p, Some s, Some l =>
        (if Qgt_bool s l && Qgt_bool p s then "BULLISH ↗"
         else if Qlt_bool s l && Qlt_bool p s then "BEARISH ↘"
         else "NEUTRAL →",
         if Qgt_bool p s && Qgt_bool p l then "Above both moving averages"
         else if Qlt_bool p s && Qlt_bool p l then "Below both moving averages"
         else "center both moving averages")
    | _, _, _ => ("NEUTRAL", "Không xác định")
    end in
  let momentum :=
    match tech_get prev_close state, price with
    | Some pc, Some p => if Qge_bool p pc then "POSITIVE" else "NEGATIVE"
    | _, _ => "NEUTRAL"
    end in
  let notes :=
    match rsi_v with
    | Some r =>
        if Qgt_bool r 70 then ["RSI indicates overbought conditions"]
        else if Qlt_bool r 30 then ["RSI indicates oversale conditions"]
        else []
    | None => []
    end in
  set_trend {| short_term := short_term;
               price_vs_sma := price_vs;
               momentum := momentum;
               notes := match notes with [] => "" | _ => join "; " notes end |}
            state.

Definition _format_currency (value : option pynum) (currency : string) : string :=
  match value with
  | None => "N/A"
  | Some (PyFloat q) => currency ++ " " ++ format_float_2f true q
  | Some (PyInt z) => currency ++ " " ++ format_int_grouped z
  end.

Definition caps : list (Z * string) :=
  [(1000000000000%Z, "T"); (1000000000%Z, "B"); (1000000%Z, "M")].

(** The [for thresh, suffix in caps] loop of [_format_market_cap] with the
    fall-through return after it. *)
Fixpoint format_with_caps (cs : list (Z * string)) (market_cap : Z)
  (currency : string) : pyresult string :=
  match cs with
  | [] => Ok (currency ++ " " ++ format_int_grouped market_cap)
  | (thresh, suffix) :: rest =>
      if (market_cap >=? thresh)%Z then
        q <- int_truediv market_cap thresh ;;
        Ok (currency ++ " " ++ format_float_2f false q ++ suffix)
      else format_with_caps rest market_cap currency
  end.

Definition _format_market_cap (market_cap : option Z) (currency : string)
  : pyresult string :=
  match market_cap with
  | None => Ok "N/A"
  | Some mc => format_with_caps caps mc currency
  end.

Inductive Decision : Type := HOLD | BUY | SELL.

Definition decision_label (d : Decision) : string :=
  match d with
  | HOLD => "HOLD"
  | BUY => "BUY"
  | SELL => "SELL"
  end.

(** [info.get('current_price') or tech.get('last_close')]. *)
Definition effective_price (state : StockAgentState) : option Q :=
  match stock_info state with
  | Some info =>
      match current_price info with
      | Some p => if float_truthy p then Some p else tech_get last_close state
      | None => tech_get last_close state
      end
  | None => tech_get last_close state
  end.

Definition buy_condition (price sma10 sma20 rsi_v : Q) : bool :=
  (Qgt_bool price sma10 && Qgt_bool sma10 sma20)
  && (Qle_bool 30 rsi_v && Qle_bool rsi_v 70).

Definition sell_condition (price sma10 sma20 rsi_v : Q) : bool :=
  (Qlt_bool price sma20 && Qlt_bool sma20 sma10) && Qgt_bool rsi_v 70.

(** The texts appended to [reasons]. *)
Definition reason_buy : string := "price > SMA10 > SMA20 và RSI within 30-70 ".
Definition reason_sell : string := "price < SMA20 < SMA10 và RSI > 70 ".
Definition reason_not_qualified : string := "not qualifify to buy/sale".
Definition reason_insufficient_data : string :=
  "Lack of sufficient indicator data to make a decision".

(** The decision rule of [generate_recommendation]: the decision and the
    [reasons] list. *)
Definition decide (current_price sma10 sma20 rsi_v : option Q)
  : Decision * list string :=
  match current_price, sma10, sma20, rsi_v with
  | Some p, Some s10, Some s20, Some r =>
      if buy_condition p s10 s20 r then (BUY, [reason_buy])
      else if sell_condition p s10 s20 r then (SELL, [reason_sell])
      else (HOLD, [reason_not_qualified])
  | _, _, _, _ => (HOLD, [reason_insufficient_data])
  end.

Definition recommendation (state : StockAgentState) : Decision * list string :=
  decide (effective_price state) (tech_get sma_short state)
         (tech_get sma_long state) (tech_get rsi_value state).

(** [trend.get(key, 'N/A')] with [trend = state.get('trend') or {}]. *)
Definition trend_get (field : TrendAssessment -> string) (state : StockAgentState)
  : string :=
  match trend state with
  | Some t => field t
  | None => "N/A"
  end.

Definition float_arg (x : option Q) : option pynum := option_map PyFloat x.

(** [info.get(key)] and [info.get(key, default)] with
    [info = state.get('stock_info') or {}]. *)
Definition info_get {A : Type} (field : StockInfo -> A) (default : A)
  (state : StockAgentState) : A :=
  match stock_info state with
  | Some info => field info
  | None => default
  end.

(** The [lines] list of [generate_recommendation] on the valid branch, given
    the formatted market cap. *)
Definition render_lines (now : string) (state : StockAgentState)
  (market_cap_fmt : string) : list string :=
  let ticker_v := match ticker state with Some t => t | None => "" end in
  let symbol_v := or_str (info_get (fun i => Some (symbol i)) None state) ticker_v in
  let long_name_v := or_str (info_get (fun i => Some (long_name i)) None state) symbol_v in
  let current_price_v := effective_price state in
  let sma10 := tech_get sma_short state in
  let sma20 := tech_get sma_long state in
  let rsi_v := tech_get rsi_value state in
  let '(decision, reasons) := decide current_price_v sma10 sma20 rsi_v in
  let currency_v := info_get currency "USD" state in
  let current_price_fmt := _format_currency (float_arg current_price_v) currency_v in
  let analysis_time_v := info_get analysis_time now state in
  List.concat
    [ [ repeat_char "=" 48;
        "Stock Analysis Report";
        repeat_char "=" 48;
        "stock: " ++ long_name_v ++ " (" ++ symbol_v ++ ")";
        "current price: " ++ current_price_fmt;
        "maeket cap: " ++ market_cap_fmt;
        "analysis_time: " ++ analysis_time_v;
        "";
        "Technical Indicator";
        repeat_char "-" 20;
        "• SMA 10 days: " ++ _format_currency (float_arg sma10) currency_v;
        "• SMA 20 day: " ++ _format_currency (float_arg sma20) currency_v;
        match rsi_v with
        | Some r => "• RSI (14 days): " ++ format_float_2f false r
        | None => "• RSI (14 day): N/A"
        end;
        "";
        "trend analysiss";
        repeat_char "-" 20;
        "• short trend: " ++ trend_get short_term state;
        "• Price compared to SMA : " ++ trend_get price_vs_sma state;
        "• Momentum: " ++ trend_get momentum state ];
      (if str_truthy (match trend state with Some t => notes t | None => "" end)
       then ["• notes: " ++ trend_get notes state] else []);
      [ "";
        "Final Recommendation";
        repeat_char "-" 20;
        "• decision: " ++ decision_label decision ];
      (match reasons with
       | [] => []
       | _ => ["• reason: " ++ join ", " reasons]
       end);
      (match errors_of state with
       | [] => []
       | es => [""; "wraning: " ++ join "; " es]
       end) ].

Definition report_lines (now : string) (state : StockAgentState)
  : pyresult (list string) :=
  market_cap_fmt <-
    _format_market_cap (info_get market_cap None state)
                       (info_get currency "USD" state) ;;
  Ok (render_lines now state market_cap_fmt).

(** [not state.get('is_valid', True)]. *)
Definition is_invalid (state : StockAgentState) : bool :=
  match is_valid state with
  | None => false
  | Some None => true
  | Some (Some b) => negb b
  end.

Definition generate_recommendation (now : string) (state : StockAgentState)
  : pyresult StockAgentState :=
  let state := _ensure_errors state in
  if is_invalid state then
    let ticker_v := match ticker state with Some t => t | None => "UNKNOWN" end in
    let err := join "; " (errors_of state) in
    Ok (set_report ("Mã cổ phiếu không hợp lệ: " ++ ticker_v ++ ". Lỗi: " ++ err) state)
  else
    lines <- report_lines now state ;;
    Ok (set_report (join "" lines) state).

(** ** graph.py *)

Inductive Node : Type :=
| n_validate_ticker
| n_fetch_stock_data
| n_calculate_technical_indicators
| n_analyze_market_trend
| n_generate_recommendation
| END.

Definition route_after_validate (state : StockAgentState) : Node :=
  match is_valid state with
  | Some (Some true) => n_fetch_stock_data
  | _ => n_generate_recommendation
  end.

(** The edges added by [build_graph]. *)
Definition next_node (n : Node) (state : StockAgentState) : Node :=
  match n with
  | n_validate_ticker => route_after_validate state
  | n_fetch_stock_data => n_calculate_technical_indicators
  | n_calculate_technical_indicators => n_analyze_market_trend
  | n_analyze_market_trend => n_generate_recommendation
  | n_generate_recommendation => END
  | END => END
  end.

Definition run_node (gw : Gateway) (n : Node) (state : StockAgentState)
  : pyresult StockAgentState :=
  match n with
  | n_validate_ticker => Ok (validate_ticker gw state)
  | n_fetch_stock_data => fetch_stock_data gw state
  | n_calculate_technical_indicators => Ok (calculate_technical_indicators state)
  | n_analyze_market_trend => Ok (analyze_market_trend state)
  | n_generate_recommendation => generate_recommendation (gw_now gw) state
  | END => Ok state
  end.

(** The nodes run one after the other, from [n] until [END], within the
    engine's step limit. *)
Fixpoint run_from (limit : nat) (gw : Gateway) (n : Node) (state : StockAgentState)
  : pyresult StockAgentState :=
  match n with
  | END => Ok state
  | _ =>
      match limit with
      | O => Raise "GraphRecursionError"
      | S limit' =>
          state' <- run_node gw n state ;;
          run_from limit' gw (next_node n state') state'
      end
  end.

Definition recursion_limit : nat := 25.

(** [graph.invoke(state)] on the compiled graph. *)
Definition invoke (gw : Gateway) (state : StockAgentState)
  : pyresult StockAgentState :=
  run_from recursion_limit gw n_validate_ticker state.

(** ** main.py *)

Definition run_agent (gw : Gateway) (ticker : string) : pyresult string :=
  final_state <- invoke gw (initial_state ticker) ;;
  Ok (match report final_state with
      | Some r => r
      | None => "No report generated."
      end).

(** ** Reference formulations and sample inputs *)

(** The decision rule with the SELL test placed before the BUY test. *)
Definition decide_sell_first (current_price sma10 sma20 rsi_v : option Q)
  : Decision * list string :=
  match current_price, sma10, sma20, rsi_v with
  | Some p, Some s10, Some s20, Some r =>
      if sell_condition p s10 s20 r then (SELL, [reason_sell])
      else if buy_condition p s10 s20 r then (BUY, [reason_buy])
      else (HOLD, [reason_not_qualified])
  | _, _, _, _ => (HOLD, [reason_insufficient_data])
  end.

(** [state['trend'].get('momentum')]: [None] when nothing is stored. *)
Definition stored_momentum (state : StockAgentState) : option string :=
  option_map momentum (trend state).

Definition sample_indicators (close prev : option Q) : IndicatorSet :=
  {| sma_short := Some 21.1; sma_long := Some 17.75; rsi_value := Some 55;
     last_close := close; prev_close := prev |}.

Definition sample_info (price : option Q) : StockInfo :=
  {| symbol := "ACME"; long_name := "Acme Corp"; current_price := price;
     market_cap := Some 2500000000%Z; currency := "USD";
     last_volume := Some 1000%Z; analysis_time := "2024-01-02 10:00:00" |}.

(** A valid state as it reaches the Trend and Recommendation stages. *)
Definition sample_state (price close prev : option Q) : StockAgentState :=
  {| ticker := Some "acme"; stock_info := Some (sample_info price);
     historical_data := None;
     technical_indicators := Some (sample_indicators close prev);
     trend := None; report := None; is_valid := Some (Some true);
     errors := Some [] |}.

(** The sum of the [n] values of [xs] at positions [start .. start+n-1]. *)
Fixpoint sum_from (xs : list Q) (start n : nat) : Q :=
  match n with
  | O => 0
  | S k => nth start xs 0 + sum_from xs (S start) k
  end.

(** The arithmetic mean of the [w] values of [xs] ending at position [i]. *)
Definition mean_ending_at (xs : list Q) (w i : nat) : Q :=
  sum_from xs (i + 1 - w) w / inject_Z (Z.of_nat w).

(** The first defined value of a series, if there is one. *)
Fixpoint first_defined (xs : series) : option Q :=
  match xs with
  | [] => None
  | Some v :: _ => Some v
  | None :: tl => first_defined tl
  end.

(** The closes of twenty rising sessions, 10 to 29, and of twenty falling
    ones, 29 to 10. *)
Definition ascending_prices : list Q :=
  [10; 11; 12; 13; 14; 15; 16; 17; 18; 19;
   20; 21; 22; 23; 24; 25; 26; 27; 28; 29].

Definition descending_prices : list Q := rev ascending_prices.

(** The market-cap formatter as the specification words it: thousand,
    million, billion and trillion thresholds. *)
Definition spec_caps : list (Z * string) :=
  [(1000000000000%Z, "T"); (1000000000%Z, "B"); (1000000%Z, "M"); (1000%Z, "K")].

Definition spec_format_market_cap (market_cap : option Z) (currency : string)
  : pyresult string :=
  match market_cap with
  | None => Ok "N/A"
  | Some mc => format_with_caps spec_caps mc currency
  end.

Definition newline : ascii := ascii_of_nat 10.

Definition has_line_break (s : string) : bool :=
  existsb (Ascii.eqb newline) (list_ascii_of_string s).

Definition flat_bar (day : string) (close : Q) : PriceBar :=
  {| bar_date := day; bar_open := close; bar_high := close;
     bar_low := close; bar_close := close; bar_volume := Some 1000%Z |}.

(** A provider that knows the symbol: 22 sessions, a live quote, a company
    profile. *)
Definition sample_gateway : Gateway :=
  {| gw_history_1d := fun _ => Ok 1%nat;
     gw_fast_info := fun _ =>
       Ok {| fi_last_price := Ok (Some 25.51);
             fi_market_cap := Ok (Some (PyInt 2500000000));
             fi_currency := Ok (Some "USD") |};
     gw_info := fun _ =>
       Ok {| ci_marketCap := None; ci_currency := None;
             ci_longName := Some "Acme Corp"; ci_shortName := Some "Acme" |};
     gw_download := fun _ =>
       Ok (map (flat_bar "2024-01-02")
               [10; 11; 12; 11; 13; 14; 13; 15; 16; 15; 17;
                18; 17; 19; 20; 19; 21; 22; 21; 23; 24; 25]);
     gw_now := "2024-01-02 10:00:00" |}.

(** A provider that does not know the symbol: no session, no quote. *)
Definition unknown_symbol_gateway : Gateway :=
  {| gw_history_1d := fun _ => Ok 0%nat;
     gw_fast_info := fun _ => Raise "no quote";
     gw_info := fun _ => Raise "no profile";
     gw_download := fun _ => Ok [];
     gw_now := "2024-01-02 10:00:00" |}.

Definition is_digit (c : ascii) : bool :=
  (48 <=? nat_of_ascii c)%nat && (nat_of_ascii c <=? 57)%nat.

(** The report of a run on [sample_gateway]. *)
Definition sample_report : string :=
  "================================================Stock Analysis Report================================================stock: Acme Corp (ACME)current price: USD 25.51maeket cap: USD 2.50Banalysis_time: 2024-01-02 10:00:00Technical Indicator--------------------• SMA 10 days: USD 21.10• SMA 20 day: USD 17.75• RSI (14 days): 77.78trend analysiss--------------------• short trend: BULLISH ↗• Price compared to SMA : Above both moving averages• Momentum: POSITIVE• notes: RSI indicates overbought conditionsFinal Recommendation--------------------• decision: HOLD• reason: not qualifify to buy/sale".

(** A provider that resolves the symbol but returns an empty history. *)
Definition empty_history_gateway : Gateway :=
  {| gw_history_1d := fun _ => Ok 1%nat;
     gw_fast_info := fun _ => Raise "no quote";
     gw_info := fun _ => Raise "no profile";
     gw_download := fun _ => Ok [];
     gw_now := "2024-01-02 10:00:00" |}.

(** The state the Indicator stage receives for twenty rising closes. *)
Definition ascending_state : StockAgentState :=
  set_historical_data
    {| rows := map (flat_bar "2024-01-02") ascending_prices;
       col_SMA_SHORT := None; col_SMA_LONG := None; col_RSI := None |}
    (set_is_valid true (initial_state "ACME")).

(** ** Definitions for the further properties *)
(** [state.get('ticker', '').strip().upper()], the symbol Validation asks
    the provider about. *)
Definition normalized_ticker (state : StockAgentState) : string :=
  upper (strip (match ticker state with Some t => t | None => "" end)).

(** Whether [is_valid] holds [True]. *)
Definition passed_validation (state : StockAgentState) : bool :=
  match is_valid state with
  | Some (Some true) => true
  | _ => false
  end.

(** The messages a stage adds to the error list. *)
Definition added_errors (before after : StockAgentState) (added : list string) : Prop :=
  errors_of after = (errors_of before ++ added)%list.

(** The live price [fetch_stock_data] reads from [fast_info], if any. *)
Definition quoted_price (gw : Gateway) (symbol : string) : option Q :=
  fst (fst (read_fast_info (gw_fast_info gw symbol))).

(** Every market capitalisation the provider reports, through either the
    live quote or the company profile, is below [bound] as an integer. *)
Definition provider_caps_below (gw : Gateway) (bound : Z) : Prop :=
  (forall (t : string) (fi : FastInfo) (m : pynum),
      gw_fast_info gw t = Ok fi -> fi_market_cap fi = Ok (Some m) ->
      (int_of_pynum m < bound)%Z)
  /\ (forall (t : string) (ci : CompanyInfo) (m : pynum),
        gw_info gw t = Ok ci -> ci_marketCap ci = Some m ->
        (int_of_pynum m < bound)%Z).

(** Reading a printed integer back: the thousands separators are dropped
    and the digits, after an optional minus sign, are read in base ten. *)
Definition not_comma (c : ascii) : bool := negb (Ascii.eqb c ",").

Definition remove_commas (s : string) : string :=
  string_of_list_ascii (filter not_comma (list_ascii_of_string s)).

Definition read_digits (s : string) : option Z :=
  option_map (fun u => Z.of_N (N.of_uint u))
             (NilZero.uint_of_string (remove_commas s)).

Definition read_grouped_int (s : string) : option Z :=
  match s with
  | String "-" rest => option_map Z.opp (read_digits rest)
  | _ => read_digits s
  end.

(** [lstrip] on the characters of a string. *)
Fixpoint drop_spaces (l : list ascii) : list ascii :=
  match l with
  | [] => []
  | c :: tl => if is_space c then drop_spaces tl else l
  end.

(** Whether each value of a series of numbers is above the one before. *)
Fixpoint strictly_rising (xs : list Q) : bool :=
  match xs with
  | x :: (y :: _) as tl => Qlt_bool x y && strictly_rising tl
  | _ => true
  end.

(** A valid state whose history has five rows only. *)
Definition short_history_state : StockAgentState :=
  set_historical_data
    {| rows := map (flat_bar "2024-01-02") [10; 11; 12; 11; 13];
       col_SMA_SHORT := None; col_SMA_LONG := None; col_RSI := None |}
    (set_is_valid true (initial_state "ACME")).

(** A valid state whose quote snapshot carries a market capitalisation of
    [2^1024] trillion. *)
Definition huge_cap_info : StockInfo :=
  {| symbol := "ACME"; long_name := "Acme Corp"; current_price := Some 25;
     market_cap := Some (2 ^ 1024 * 1000000000000)%Z; currency := "USD";
     last_volume := None; analysis_time := "2024-01-02 10:00:00" |}.

Definition huge_cap_state : StockAgentState :=
  set_stock_info huge_cap_info (set_is_valid true (initial_state "ACME")).

(** The final state of a run on [empty_history_gateway]. *)
Definition empty_history_final : StockAgentState :=
  match invoke empty_history_gateway (initial_state "acme") with
  | Ok final => final
  | Raise _ => initial_state "acme"
  end.

(** The last entries of [lines] on the valid branch: the decision, the
    reason and, when errors were accumulated, an empty entry and the
    warning. *)
Definition decision_lines (d : Decision) (reason : string) (errs : list string)
  : list string :=
  List.app
    ["• decision: " ++ decision_label d; "• reason: " ++ reason]
    match errs with
    | [] => []
    | es => [""; "wraning: " ++ join "; " es]
    end.

(** ** The indicators in binary64 arithmetic *)

(** A binary64 value: a finite number, an infinity or NaN.  The two zeros
    are not told apart. *)
Inductive f64 : Type :=
| Fin (q : Q)
| Inf (negative : bool)
| NaN.

(** The binary64 value nearest to a rational (ties to even); past the
    largest finite value, the infinity of its sign. *)
Definition f64_round (q : Q) : f64 :=
  match Qnum q with
  | Z0 => Fin 0
  | Zpos n =>
      match round_binary64 (Zpos n) (Zpos (Qden q)) with
      | Some v => Fin v
      | None => Inf false
      end
  | Zneg n =>
      match round_binary64 (Zpos n) (Zpos (Qden q)) with
      | Some v => Fin (- v)
      | None => Inf true
      end
  end.

Definition f64_neg (a : f64) : f64 :=
  match a with
  | Fin x => Fin (- x)
  | Inf s => Inf (negb s)
  | NaN => NaN
  end.

Definition f64_add (a b : f64) : f64 :=
  match a, b with
  | Fin x, Fin y => f64_round (x + y)
  | Fin _, Inf s => Inf s
  | Inf s, Fin _ => Inf s
  | Inf s, Inf t => if Bool.eqb s t then Inf s else NaN
  | _, _ => NaN
  end.

Definition f64_sub (a b : f64) : f64 := f64_add a (f64_neg b).

(** Division; a zero divisor counts as [+0]. *)
Definition f64_div (a b : f64) : f64 :=
  match a, b with
  | Fin x, Fin y =>
      if Qeq_bool y 0
      then (if Qeq_bool x 0 then NaN else Inf (Qlt_bool x 0))
      else f64_round (x / y)
  | Fin _, Inf _ => Fin 0
  | Inf s, Fin y => Inf (xorb s (Qlt_bool y 0))
  | _, _ => NaN
  end.

Definition f64_eqb (a b : f64) : bool :=
  match a, b with
  | Fin x, Fin y => Qeq_bool x y
  | Inf s, Inf t => Bool.eqb s t
  | _, _ => false
  end.

(** [a < b]; false as soon as one side is NaN. *)
Definition f64_ltb (a b : f64) : bool :=
  match a, b with
  | Fin x, Fin y => Qlt_bool x y
  | Inf true, Fin _ => true
  | Inf true, Inf false => true
  | Fin _, Inf false => true
  | _, _ => false
  end.

(** *** [Series.rolling(window, min_periods).mean()] as pandas computes it

    The running state of [roll_mean]: the number of observations in the
    window, the number of them with the sign bit set, the running sum with
    its two Kahan compensations (one for additions, one for removals), and
    the length of the current run of equal values with its value. *)
Record mean_state : Type := {
  nobs : nat;
  neg_ct : nat;
  sum_x : f64;
  compensation_add : f64;
  compensation_remove : f64;
  num_consecutive_same_value : nat;
  prev_value : f64
}.

(** The sign bit of an entry.  A series whose zeros are [+0.0] has it set
    on its negative entries only; a series obtained by negation, as
    [-delta.clip(upper=0)] in [rsi], has it set on its zeros as well, which
    are all [-0.0]. *)
Definition signbit (x : Q) : bool := Qlt_bool x 0.
Definition signbit_negated (x : Q) : bool := Qle_bool x 0.

(** [add_mean]: a NaN entry is skipped.  [sb] gives the sign bit of an
    entry. *)
Definition add_mean (sb : Q -> bool) (val : option Q) (st : mean_state)
  : mean_state :=
  match val with
  | None => st
  | Some v =>
      let y := f64_sub (Fin v) (compensation_add st) in
      let t := f64_add (sum_x st) y in
      {| nobs := S (nobs st);
         neg_ct := if sb v then S (neg_ct st) else neg_ct st;
         sum_x := t;
         compensation_add := f64_sub (f64_sub t (sum_x st)) y;
         compensation_remove := compensation_remove st;
         num_consecutive_same_value :=
           if f64_eqb (Fin v) (prev_value st)
           then S (num_consecutive_same_value st) else 1%nat;
         prev_value := Fin v |}
  end.

(** [remove_mean]. *)
Definition remove_mean (sb : Q -> bool) (val : option Q) (st : mean_state)
  : mean_state :=
  match val with
  | None => st
  | Some v =>
      let y := f64_sub (f64_neg (Fin v)) (compensation_remove st) in
      let t := f64_add (sum_x st) y in
      {| nobs := Nat.pred (nobs st);
         neg_ct := if sb v then Nat.pred (neg_ct st) else neg_ct st;
         sum_x := t;
         compensation_add := compensation_add st;
         compensation_remove := f64_sub (f64_sub t (sum_x st)) y;
         num_consecutive_same_value := num_consecutive_same_value st;
         prev_value := prev_value st |}
  end.

(** [calc_mean]: the sum over the number of observations, replaced by the
    repeated value when the whole window holds one value, and by 0 when its
    sign contradicts the signs of the observations. *)
Definition calc_mean (minp : nat) (st : mean_state) : f64 :=
  if (minp <=? nobs st)%nat && (0 <? nobs st)%nat then
    let result := f64_div (sum_x st) (Fin (inject_Z (Z.of_nat (nobs st)))) in
    if (nobs st <=? num_consecutive_same_value st)%nat then prev_value st
    else if (neg_ct st =? 0)%nat && f64_ltb result (Fin 0) then Fin 0
    else if (neg_ct st =? nobs st)%nat && f64_ltb (Fin 0) result then Fin 0
    else result
  else NaN.

(** The state at the set-up of a window that starts at [first]. *)
Definition setup_state (first : option Q) : mean_state :=
  {| nobs := 0; neg_ct := 0; sum_x := Fin 0;
     compensation_add := Fin 0; compensation_remove := Fin 0;
     num_consecutive_same_value := 0;
     prev_value := match first with Some v => Fin v | None => NaN end |}.

(** One turn of the loop of [roll_mean] for a fixed window: the window of
    row [i] covers rows [i + 1 - window .. i].  The first window, and any
    window that does not overlap the one before, is summed afresh; otherwise
    the rows that left are removed and the new row is added. *)
Definition roll_step (sb : Q -> bool) (values : series) (window i : nat)
  (st : mean_state) : mean_state :=
  let s := (S i - window)%nat in
  let e := S i in
  if (i =? 0)%nat || (i <=? s)%nat then
    fold_left (fun acc j => add_mean sb (nth j values None) acc)
              (seq s (e - s)) (setup_state (nth s values None))
  else
    let removed :=
      fold_left (fun acc j => remove_mean sb (nth j values None) acc)
                (seq (i - window) (s - (i - window))) st in
    fold_left (fun acc j => add_mean sb (nth j values None) acc)
              (seq i (e - i)) removed.

(** The state of the loop once row [i] has been processed. *)
Fixpoint state_after (sb : Q -> bool) (values : series) (window i : nat)
  : mean_state :=
  match i with
  | O => roll_step sb values window 0 (setup_state None)
  | S k => roll_step sb values window (S k) (state_after sb values window k)
  end.

(** [roll_mean]: row [i] of the result is computed from the state of the
    loop at that row. *)
Definition roll_mean (sb : Q -> bool) (values : series) (window minp : nat)
  : list f64 :=
  map (fun i => calc_mean minp (state_after sb values window i))
      (seq 0 (length values)).

(** [sma] of the source, with the arithmetic of pandas. *)
Definition sma_binary64 (s : series) (window : nat) : list f64 :=
  roll_mean signbit s window window.

(** A rational that is a finite binary64 value: rounding leaves it as it
    is. *)
Definition is_binary64 (q : Q) : Prop :=
  exists v : Q, f64_round q = Fin v /\ v == q.

(** [a] is the finite value [q]. *)
Definition f64_is (a : f64) (q : Q) : Prop :=
  exists v : Q, a = Fin v /\ v == q.

(** *** [rsi] in binary64 *)

(** [Series.diff()]: first row NaN, then current minus previous, rounded. *)
Definition diff_binary64 (xs : series) : list f64 :=
  match xs with
  | [] => []
  | _ :: tl =>
      NaN :: map (fun cp : option Q * option Q =>
                    match cp with
                    | (Some cur, Some prev) => f64_sub (Fin cur) (Fin prev)
                    | _ => NaN
                    end)
                 (combine tl xs)
  end.

(** [Series.clip(lower=0)] and [Series.clip(upper=0)] on one entry; NaN
    stays NaN. *)
Definition clip_lower_binary64 (x : f64) : f64 :=
  match x with
  | Fin q => if Qle_bool 0 q then Fin q else Fin 0
  | Inf false => Inf false
  | Inf true => Fin 0
  | NaN => NaN
  end.

Definition clip_upper_binary64 (x : f64) : f64 :=
  match x with
  | Fin q => if Qle_bool q 0 then Fin q else Fin 0
  | Inf false => Fin 0
  | Inf true => Inf true
  | NaN => NaN
  end.

Definition rsi_gains_binary64 (close : series) : list f64 :=
  map clip_lower_binary64 (diff_binary64 close).

Definition rsi_losses_binary64 (close : series) : list f64 :=
  map (fun x => f64_neg (clip_upper_binary64 x)) (diff_binary64 close).

(** The input of a rolling function: pandas turns an infinite entry into
    NaN before the loop runs. *)
Definition prep_values (xs : list f64) : series :=
  map (fun x => match x with Fin q => Some q | _ => None end) xs.

(** The zeros of the gains are [+0.0], those of the losses [-0.0]. *)
Definition rsi_avg_gain_binary64 (close : series) (period : nat) : list f64 :=
  roll_mean signbit (prep_values (rsi_gains_binary64 close)) period period.

Definition rsi_avg_loss_binary64 (close : series) (period : nat) : list f64 :=
  roll_mean signbit_negated (prep_values (rsi_losses_binary64 close))
            period period.

(** [Series.replace(0, np.nan)] on one entry. *)
Definition replace_zero_nan_binary64 (x : f64) : f64 :=
  match x with
  | Fin q => if Qeq_bool q 0 then NaN else Fin q
  | _ => x
  end.

(** One row of [rs = avg_gain / avg_loss.replace(0, np.nan)] and
    [100 - (100 / (1 + rs))]. *)
Definition rsi_row_binary64 (avg_gain avg_loss : f64) : f64 :=
  let rs := f64_div avg_gain (replace_zero_nan_binary64 avg_loss) in
  f64_sub (Fin 100) (f64_div (Fin 100) (f64_add (Fin 1) rs)).

(** [rsi_vals] of the source, before the final back-fill. *)
Definition rsi_vals_binary64 (close : series) (period : nat) : list f64 :=
  map (fun gl : f64 * f64 => rsi_row_binary64 (fst gl) (snd gl))
      (combine (rsi_avg_gain_binary64 close period)
               (rsi_avg_loss_binary64 close period)).

(** [Series.bfill()] on binary64 values: only NaN is filled. *)
Fixpoint bfill_binary64 (xs : list f64) : list f64 :=
  match xs with
  | [] => []
  | x :: tl =>
      let tl' := bfill_binary64 tl in
      match x with
      | NaN => hd NaN tl' :: tl'
      | _ => x :: tl'
      end
  end.

(** [rsi] of the source, with the arithmetic of pandas. *)
Definition rsi_binary64 (close : series) (period : nat) : list f64 :=
  bfill_binary64 (rsi_vals_binary64 close period).

(** Fifteen closes: a dip of one unit in the last place of 1, then
    thirteen rises of 1. *)
Definition dip_then_rise : list Q :=
  [4503599627370497 # 4503599627370496;
   1; 2; 3; 4; 5; 6; 7; 8; 9; 10; 11; 12; 13; 14].

(** Twenty closes that alternate between the binary64 values of 10.01 and
    10.02. *)
Definition close_10_01 : Q := 5635129033747333 # 562949953421312.
Definition close_10_02 : Q := 2820379266640773 # 281474976710656.

Definition alternating_closes : list Q :=
  [close_10_01; close_10_02; close_10_01; close_10_02; close_10_01;
   close_10_02; close_10_01; close_10_02; close_10_01; close_10_02;
   close_10_01; close_10_02; close_10_01; close_10_02; close_10_01;
   close_10_02; close_10_01; close_10_02; close_10_01; close_10_02].

(** The sum of the [n] integers of [zs] at positions [start .. start+n-1],
    and how many of them are negative. *)
Fixpoint zsum_from (zs : list Z) (start n : nat) : Z :=
  match n with
  | O => 0%Z
  | S k => (nth start zs 0 + zsum_from zs (S start) k)%Z
  end.

Fixpoint negatives_from (zs : list Z) (start n : nat) : nat :=
  match n with
  | O => 0%nat
  | S k =>
      ((if (nth start zs 0 <? 0)%Z then 1 else 0)
       + negatives_from zs (S start) k)%nat
  end.

(** The state of the loop at row [i] of a series of integers, when every
    sum so far was exact: the observations, sign count and sum are those of
    the window, both compensations are 0, and the run of equal values that
    ends at row [i] has the recorded length. *)
Definition exact_state (zs : list Z) (w i : nat) (st : mean_state) : Prop :=
  nobs st = Nat.min (S i) w
  /\ neg_ct st = negatives_from zs (S i - w) (Nat.min (S i) w)
  /\ f64_is (sum_x st) (inject_Z (zsum_from zs (S i - w) (Nat.min (S i) w)))
  /\ f64_is (compensation_add st) 0
  /\ f64_is (compensation_remove st) 0
  /\ f64_is (prev_value st) (inject_Z (nth i zs 0%Z))
  /\ (1 <= num_consecutive_same_value st)%nat
  /\ (forall j : nat,
        (j <= i)%nat -> (i - j < num_consecutive_same_value st)%nat ->
        nth j zs 0%Z = nth i zs 0%Z).

(** The integers behind a series of gains or losses: the differences of a
    list of integers (0 on the first row, which has none), and their
    positive and negative parts. *)
Definition zdiff (zs : list Z) : list Z :=
  match zs with
  | [] => []
  | _ :: tl => 0%Z :: map (fun cp : Z * Z => (fst cp - snd cp)%Z) (combine tl zs)
  end.

Definition zgains (zs : list Z) : list Z := map (Z.max 0) (zdiff zs).
Definition zlosses (zs : list Z) : list Z :=
  map (fun d => Z.max 0 (- d)) (zdiff zs).

(** An entry of a series stands for an integer: a number equal to it, or
    NaN for 0 (a NaN entry adds nothing to a running sum). *)
Definition stands_for (o : option Q) (z : Z) : Prop :=
  match o with
  | Some v => v == inject_Z z
  | None => z = 0%Z
  end.

(** The state of the loop at row [i] of a series that stands for
    non-negative integers, when every sum so far was exact. *)
Definition exact_sum_state (zs : list Z) (w i : nat) (st : mean_state) : Prop :=
  f64_is (sum_x st) (inject_Z (zsum_from zs (S i - w) (Nat.min (S i) w)))
  /\ f64_is (compensation_add st) 0
  /\ f64_is (compensation_remove st) 0
  /\ (prev_value st = NaN \/ exists p : Q, prev_value st = Fin p /\ 0 <= p).

(** A value that is undefined or a non-negative number. *)
Definition nan_or_nonneg (x : f64) : Prop :=
  x = NaN \/ exists v : Q, x = Fin v /\ 0 <= v.

(** A positive value, finite or not. *)
Definition f64_positive (x : f64) : Prop :=
  x = Inf false \/ exists b : Q, x = Fin b /\ 0 < b.

(** A value that is undefined, a non-negative number or [+inf]. *)
Definition f64_not_negative (x : f64) : Prop :=
  x = NaN \/ x = Inf false \/ exists a : Q, x = Fin a /\ 0 <= a.

(** An entry of a series that is NaN or a non-negative number. *)
Definition entry_nonneg (o : option Q) : Prop :=
  match o with
  | Some v => 0 <= v
  | None => True
  end.

(** The state of the loop over entries without a sign bit: none has been
    counted, and the last value seen is not negative. *)
Definition unsigned_state (st : mean_state) : Prop :=
  neg_ct st = 0%nat /\ nan_or_nonneg (prev_value st).

(** * Properties *)

(** ** Comparisons *)

Lemma Qgt_bool_iff (a b : Q) : Qgt_bool a b = true <-> b < a.
Proof.
  unfold Qgt_bool. rewrite negb_true_iff.
  destruct (Qle_bool a b) eqn:E.
  - apply Qle_bool_iff in E. split; [discriminate | intros H; lra].
  - split; [intros _ | reflexivity].
    apply Qnot_le_lt. intros H. apply Qle_bool_iff in H. congruence.
Qed.

Lemma Qlt_bool_iff (a b : Q) : Qlt_bool a b = true <-> a < b.
Proof. unfold Qlt_bool. apply (Qgt_bool_iff b a). Qed.

Lemma Qge_bool_iff (a b : Q) : Qge_bool a b = true <-> b <= a.
Proof. unfold Qge_bool. apply Qle_bool_iff. Qed.

Lemma buy_condition_iff (p s l r : Q) :
  buy_condition p s l r = true <-> (s < p /\ l < s) /\ (30 <= r /\ r <= 70).
Proof.
  unfold buy_condition.
  rewrite !andb_true_iff, !Qgt_bool_iff, !Qle_bool_iff. tauto.
Qed.

Lemma sell_condition_iff (p s l r : Q) :
  sell_condition p s l r = true <-> (p < l /\ l < s) /\ 70 < r.
Proof.
  unfold sell_condition.
  rewrite !andb_true_iff, !Qlt_bool_iff, Qgt_bool_iff. tauto.
Qed.

Lemma buy_excludes_sell (p s l r : Q) :
  buy_condition p s l r = true -> sell_condition p s l r = false.
Proof.
  intros B. apply buy_condition_iff in B.
  apply not_true_is_false. intros S. apply sell_condition_iff in S. lra.
Qed.

(** ** Recommendation stage: the decision rule *)

(** C6. No price, pair of averages and oscillator value satisfies the BUY
    condition and the SELL condition together, so testing SELL before BUY
    yields the same decision and reasons as the order of the source. *)
Theorem C6_buy_sell_exclusive (p s l r : Q) :
  buy_condition p s l r && sell_condition p s l r = false
  /\ forall cp s10 s20 rv : option Q,
       decide_sell_first cp s10 s20 rv = decide cp s10 s20 rv.
Proof.
  split.
  - destruct (buy_condition p s l r) eqn:B; [| reflexivity].
    now rewrite (buy_excludes_sell _ _ _ _ B).
  - intros [cp|] [s10|] [s20|] [rv|]; try reflexivity.
    cbn [decide decide_sell_first].
    destruct (buy_condition cp s10 s20 rv) eqn:B.
    + now rewrite (buy_excludes_sell _ _ _ _ B).
    + reflexivity.
Qed.

(** ** Trend classification stage *)

(** C9, as the source has it.  The stage always stores a trend; momentum is
    POSITIVE when last close >= previous close, NEGATIVE when it is below,
    and the default label NEUTRAL when either is missing; the short-term
    direction is NEUTRAL whenever price, short average or long average is
    missing. *)
Theorem C9_trend_momentum (state : StockAgentState) :
  exists t : TrendAssessment,
    trend (analyze_market_trend state) = Some t
    /\ (forall p pc : Q,
          tech_get last_close state = Some p ->
          tech_get prev_close state = Some pc ->
          (pc <= p -> momentum t = "POSITIVE")
          /\ (p < pc -> momentum t = "NEGATIVE"))
    /\ (tech_get last_close state = None \/ tech_get prev_close state = None ->
        momentum t = "NEUTRAL")
    /\ (tech_get last_close state = None \/ tech_get sma_short state = None
        \/ tech_get sma_long state = None ->
        short_term t = "NEUTRAL").
Proof.
  unfold analyze_market_trend.
  change (tech_get last_close (_ensure_errors state)) with (tech_get last_close state).
  change (tech_get prev_close (_ensure_errors state)) with (tech_get prev_close state).
  change (tech_get sma_short (_ensure_errors state)) with (tech_get sma_short state).
  change (tech_get sma_long (_ensure_errors state)) with (tech_get sma_long state).
  destruct (match tech_get last_close state, tech_get sma_short state,
                  tech_get sma_long state with
            | Some p, Some s, Some l => _
            | _, _, _ => _
            end) as [st pv] eqn:E.
  eexists. split; [reflexivity |]. cbn [momentum short_term].
  split; [| split].
  - intros p pc -> ->. split; intros H.
    + apply Qge_bool_iff in H. now rewrite H.
    + destruct (Qge_bool p pc) eqn:G; [| reflexivity].
      apply Qge_bool_iff in G. lra.
  - intros [-> | ->]; [| destruct (tech_get last_close state)];
      destruct (tech_get prev_close state); reflexivity.
  - intros H.
    destruct (tech_get last_close state) as [p|];
      [destruct (tech_get sma_short state) as [s|];
       [destruct (tech_get sma_long state) as [l|] |] |];
      try (inversion E; reflexivity).
    destruct H as [H | [H | H]]; discriminate.
Qed.

(** C9, as stated, fails: with no last close the stage does not leave
    momentum unset, it stores the label NEUTRAL. *)
Lemma C9_momentum_not_unset :
  stored_momentum (analyze_market_trend (sample_state None None (Some 10)))
  = Some "NEUTRAL"
  /\ stored_momentum (analyze_market_trend (sample_state None None (Some 10)))
     <> None.
Proof. split; [reflexivity | discriminate]. Qed.

(** ** Indicator engine: rolling windows *)

Lemma rolling_mean_length (w m : nat) (xs : series) :
  length (rolling_mean w m xs) = length xs.
Proof. unfold rolling_mean. now rewrite length_map, length_seq. Qed.

(** The entry of a rolling mean at a position inside the series. *)
Lemma rolling_mean_nth (w m : nat) (xs : series) (i : nat) :
  (i < length xs)%nat ->
  nth_error (rolling_mean w m xs) i =
  Some (let obs := observations (window_at w i xs) in
        if (m <=? length obs)%nat && (0 <? length obs)%nat
        then Some (Qsum obs / inject_Z (Z.of_nat (length obs)))
        else None).
Proof.
  intros H. unfold rolling_mean.
  rewrite nth_error_map, nth_error_seq.
  apply Nat.ltb_lt in H. now rewrite H.
Qed.

Lemma observations_of_prices (xs : list Q) : observations (of_prices xs) = xs.
Proof.
  unfold of_prices.
  induction xs as [| x tl IH]; cbn; [reflexivity | now rewrite IH].
Qed.

Lemma observations_length_le (win : series) :
  (length (observations win) <= length win)%nat.
Proof. induction win as [| [x|] tl IH]; cbn; lia. Qed.

Lemma window_at_of_prices (w i : nat) (xs : list Q) :
  window_at w i (of_prices xs)
  = of_prices (firstn (S i - (S i - w)) (skipn (S i - w) xs)).
Proof. unfold window_at, of_prices. now rewrite skipn_map, firstn_map. Qed.

Lemma window_at_length (w i : nat) (xs : series) :
  (i < length xs)%nat -> length (window_at w i xs) = Nat.min w (S i).
Proof.
  intros H. unfold window_at. rewrite length_firstn, length_skipn. lia.
Qed.

Lemma skipn_cons_nth (xs : list Q) (start : nat) :
  (start < length xs)%nat ->
  skipn start xs = nth start xs 0 :: skipn (S start) xs.
Proof.
  revert start. induction xs as [| x tl IH]; intros start H; cbn in H.
  - lia.
  - destruct start as [| k]; [reflexivity |].
    cbn [skipn nth]. apply IH. lia.
Qed.

(** The sum over a slice is the sum over its index range. *)
Lemma Qsum_slice (xs : list Q) (n start : nat) :
  (start + n <= length xs)%nat ->
  Qsum (firstn n (skipn start xs)) == sum_from xs start n.
Proof.
  revert start. induction n as [| k IH]; intros start H.
  - reflexivity.
  - rewrite skipn_cons_nth by lia. cbn [firstn Qsum fold_right sum_from].
    fold (Qsum (firstn k (skipn (S start) xs))).
    rewrite IH by lia. reflexivity.
Qed.

(** ** Indicator engine: back-fill *)

Lemma bfill_length (xs : series) : length (bfill xs) = length xs.
Proof.
  induction xs as [| [x|] tl IH]; cbn; [reflexivity | |]; now rewrite IH.
Qed.

Lemma hd_bfill (xs : series) : hd None (bfill xs) = first_defined xs.
Proof. induction xs as [| [x|] tl IH]; cbn; auto. Qed.

(** Each row of a back-filled series holds the first defined value at or
    below it in the input. *)
Lemma bfill_nth (xs : series) (i : nat) :
  (i < length xs)%nat ->
  nth_error (bfill xs) i = Some (first_defined (skipn i xs)).
Proof.
  revert i. induction xs as [| x tl IH]; intros i H; cbn in H; [lia |].
  destruct i as [| k].
  - cbn [skipn nth_error bfill].
    destruct x as [v|]; cbn; [reflexivity | now rewrite hd_bfill].
  - cbn [skipn]. rewrite <- IH by lia.
    destruct x as [v|]; reflexivity.
Qed.




(** ** Indicator engine: the oscillator row by row *)

Lemma series_div_nth (xs ys : series) (i : nat) :
  nth_error (series_div xs ys) i =
  match nth_error xs i, nth_error ys i with
  | Some (Some a), Some (Some b) => Some (Some (a / b))
  | Some _, Some _ => Some None
  | _, _ => None
  end.
Proof.
  unfold series_div. revert ys i.
  induction xs as [| x tl IH]; intros ys i.
  - destruct i; reflexivity.
  - destruct ys as [| y ys'].
    + destruct i as [| k]; cbn; [destruct x; reflexivity |].
      destruct (nth_error tl k) as [[a|]|]; reflexivity.
    + destruct i as [| k]; cbn [combine map nth_error].
      * destruct x, y; reflexivity.
      * apply IH.
Qed.

Lemma series_div_length (xs ys : series) :
  length xs = length ys -> length (series_div xs ys) = length xs.
Proof.
  intros H. unfold series_div. rewrite length_map, length_combine. lia.
Qed.

Lemma diff_length (xs : series) : length (diff xs) = length xs.
Proof.
  destruct xs as [| x tl]; cbn; [reflexivity |].
  rewrite length_map, length_combine. cbn. lia.
Qed.

Lemma rsi_gains_length (close : series) :
  length (rsi_gains close) = length close.
Proof. unfold rsi_gains, clip_lower. now rewrite length_map, diff_length. Qed.

Lemma rsi_losses_length (close : series) :
  length (rsi_losses close) = length close.
Proof.
  unfold rsi_losses, series_neg, clip_upper.
  now rewrite !length_map, diff_length.
Qed.

Lemma rsi_vals_length (close : series) (period : nat) :
  length (rsi_vals close period) = length close.
Proof.
  unfold rsi_vals, rsi_avg_gain, rsi_avg_loss, replace_zero_nan.
  rewrite length_map, series_div_length;
    rewrite ?length_map, !rolling_mean_length, ?rsi_gains_length,
      ?rsi_losses_length; reflexivity.
Qed.

Lemma rsi_length (close : series) (period : nat) :
  length (rsi close period) = length close.
Proof. unfold rsi. now rewrite bfill_length, rsi_vals_length. Qed.


(** A zero average loss leaves the row of [rsi_vals] undefined. *)
Lemma rsi_vals_zero_loss (close : series) (period i : nat) (l : Q) :
  nth_error (rsi_avg_loss close period) i = Some (Some l) -> l == 0 ->
  nth_error (rsi_vals close period) i = Some None.
Proof.
  intros Hl Hz.
  assert (Hi : (i < length close)%nat).
  { rewrite <- (rsi_losses_length close),
      <- (rolling_mean_length period period (rsi_losses close)).
    apply nth_error_Some. unfold rsi_avg_loss in Hl. congruence. }
  unfold rsi_vals. rewrite nth_error_map, series_div_nth.
  unfold replace_zero_nan. rewrite nth_error_map, Hl. cbn.
  apply Qeq_bool_iff in Hz. rewrite Hz.
  destruct (nth_error (rsi_avg_gain close period) i) as [[g|]|] eqn:G;
    try reflexivity.
  exfalso. apply nth_error_None in G.
  unfold rsi_avg_gain in G.
  rewrite rolling_mean_length, rsi_gains_length in G. lia.
Qed.

(** ** Indicator engine: rows without enough history *)

(** A window that still reaches the first row of a differenced series has
    fewer than [period] observations. *)
Lemma rolling_mean_leading (period : nat) (tl : series) (i : nat) :
  (i < period)%nat -> (i < S (length tl))%nat ->
  nth_error (rolling_mean period period (None :: tl)) i = Some None.
Proof.
  intros Hp Hi. rewrite rolling_mean_nth by (cbn; lia). cbv zeta.
  unfold window_at.
  replace (S i - period)%nat with 0%nat by lia.
  rewrite Nat.sub_0_r. cbn [skipn firstn observations].
  pose proof (observations_length_le (firstn i tl)) as Hobs.
  pose proof (firstn_le_length i tl) as Hfirst.
  replace (period <=? _)%nat with false; [reflexivity |].
  symmetry. apply Nat.leb_gt. lia.
Qed.

Lemma rsi_vals_leading (close : series) (period i : nat) :
  (i < length close)%nat -> (i < period)%nat ->
  nth_error (rsi_vals close period) i = Some None.
Proof.
  intros Hi Hp. unfold rsi_vals.
  rewrite nth_error_map, series_div_nth.
  assert (G : nth_error (rsi_avg_gain close period) i = Some None).
  { unfold rsi_avg_gain, rsi_gains. destruct close as [| c tl]; [cbn in Hi; lia |].
    cbn [diff clip_lower map option_map].
    apply rolling_mean_leading; [exact Hp |].
    rewrite !length_map, length_combine. cbn in *. lia. }
  rewrite G.
  destruct (nth_error (replace_zero_nan (rsi_avg_loss close period)) i) eqn:L;
    [reflexivity |].
  exfalso. apply nth_error_None in L.
  unfold replace_zero_nan, rsi_avg_loss in L.
  rewrite length_map, rolling_mean_length, rsi_losses_length in L. lia.
Qed.



(** ** Pipeline: the invalid branch *)

(** Validation writes [is_valid] and [errors] only. *)
Lemma validate_ticker_frame (gw : Gateway) (state : StockAgentState) :
  ticker (validate_ticker gw state) = ticker state
  /\ stock_info (validate_ticker gw state) = stock_info state
  /\ historical_data (validate_ticker gw state) = historical_data state
  /\ technical_indicators (validate_ticker gw state) = technical_indicators state
  /\ trend (validate_ticker gw state) = trend state.
Proof.
  unfold validate_ticker.
  destruct (negb (str_truthy _)); [repeat split |].
  destruct (gw_history_1d gw _) as [n | e]; [| repeat split].
  destruct (if (0 <? n)%nat then true else _); repeat split.
Qed.

(** Validation always leaves a boolean in [is_valid]. *)
Lemma validate_ticker_sets_flag (gw : Gateway) (state : StockAgentState) :
  exists b : bool, is_valid (validate_ticker gw state) = Some (Some b).
Proof.
  unfold validate_ticker.
  destruct (negb (str_truthy _)); [now exists false |].
  destruct (gw_history_1d gw _) as [n | e]; [| now exists false].
  destruct (if (0 <? n)%nat then true else _); eexists; reflexivity.
Qed.

Lemma run_from_step (limit : nat) (gw : Gateway) (n : Node)
  (state : StockAgentState) :
  n <> END ->
  run_from (S limit) gw n state
  = (state' <- run_node gw n state ;;
     run_from limit gw (next_node n state') state').
Proof. destruct n; intros H; [reflexivity .. | congruence]. Qed.

Lemma run_from_END (limit : nat) (gw : Gateway) (state : StockAgentState) :
  run_from limit gw END state = Ok state.
Proof. destruct limit; reflexivity. Qed.

(** C5. When Validation leaves [is_valid] false, the run ends after the
    Recommendation stage with the quote snapshot, price history, indicator
    set and trend exactly as they were before the run (absent, for a run
    started from a ticker alone), the errors of Validation untouched, and
    the report made of the invalid-ticker message, the ticker and the
    errors joined by a semicolon and a space. *)
Theorem C5_invalid_short_circuit (gw : Gateway) (state : StockAgentState) :
  is_valid (validate_ticker gw state) = Some (Some false) ->
  exists final : StockAgentState,
    invoke gw state = Ok final
    /\ stock_info final = stock_info state
    /\ historical_data final = historical_data state
    /\ technical_indicators final = technical_indicators state
    /\ trend final = trend state
    /\ errors_of final = errors_of (validate_ticker gw state)
    /\ report final
       = Some ("Mã cổ phiếu không hợp lệ: "
               ++ match ticker state with Some t => t | None => "UNKNOWN" end
               ++ ". Lỗi: " ++ join "; " (errors_of final)).
Proof.
  intros Hinvalid.
  destruct (validate_ticker_frame gw state) as [Ht [Hi [Hh [Hx Hr]]]].
  assert (Inv : is_invalid (_ensure_errors (validate_ticker gw state)) = true).
  { unfold is_invalid, _ensure_errors, set_errors. cbn [is_valid].
    now rewrite Hinvalid. }
  unfold invoke, recursion_limit.
  rewrite (@run_from_step 24) by discriminate.
  cbn [run_node bind next_node].
  unfold route_after_validate. rewrite Hinvalid.
  rewrite (@run_from_step 23) by discriminate.
  cbn [run_node]. unfold generate_recommendation. rewrite Inv.
  cbn [bind next_node]. rewrite run_from_END.
  eexists. split; [reflexivity |].
  unfold set_report, _ensure_errors, set_errors, errors_of.
  cbn [stock_info historical_data technical_indicators trend errors report ticker].
  rewrite Ht, Hi, Hh, Hx, Hr. repeat split.
Qed.

Lemma C5_invalid_short_circuit_witness :
  exists final : StockAgentState,
    invoke unknown_symbol_gateway (initial_state "zzz") = Ok final
    /\ stock_info final = None
    /\ historical_data final = None
    /\ technical_indicators final = None
    /\ trend final = None
    /\ report final
       = Some "Mã cổ phiếu không hợp lệ: zzz. Lỗi: Không tìm thấy mã cổ phiếu: ZZZ".
Proof.
  destruct (@C5_invalid_short_circuit unknown_symbol_gateway
              (initial_state "zzz") eq_refl)
    as [final [Hrun [Hi [Hh [Hx [Hr [He Hrep]]]]]]].
  exists final. repeat split; try assumption.
  rewrite Hrep, He. reflexivity.
Defined.

(** ** Number formatting *)

Lemma round_half_even_near (q : Q) :
  q - (1 # 2) <= inject_Z (round_half_even q)
  /\ inject_Z (round_half_even q) <= q + (1 # 2).
Proof.
  unfold round_half_even. destruct q as [n d]. cbn [Qnum Qden].
  pose proof (Z.div_mod n (Z.pos d) ltac:(lia)) as D.
  pose proof (Z.mod_pos_bound n (Z.pos d) ltac:(lia)) as B.
  set (fl := (n / Z.pos d)%Z) in *. set (r := (n mod Z.pos d)%Z) in *.
  clearbody fl r.
  assert (Near : forall z : Z,
             (2 * z * Z.pos d <= 2 * n + Z.pos d)%Z ->
             (2 * n - Z.pos d <= 2 * z * Z.pos d)%Z ->
             (n # d) - (1 # 2) <= inject_Z z /\ inject_Z z <= (n # d) + (1 # 2)).
  { intros z H1 H2. unfold Qle, Qminus, Qplus, Qopp, inject_Z. cbn.
    rewrite ?Pos2Z.inj_mul. change (Z.neg d) with (- Z.pos d)%Z.
    split; lia. }
  destruct (2 * r ?= Z.pos d)%Z eqn:C.
  - apply Z.compare_eq in C. destruct (Z.even fl); apply Near; lia.
  - change (2 * r < Z.pos d)%Z in C. apply Near; lia.
  - apply Z.compare_gt_iff in C. apply Near; lia.
Qed.

Lemma round_half_even_at_least (q : Q) (k : Z) :
  inject_Z k <= q -> (k <= round_half_even q)%Z.
Proof.
  intros H. destruct (round_half_even_near q) as [Lo _].
  assert (L : inject_Z (k - 1) < inject_Z (round_half_even q)).
  { replace (k - 1)%Z with (k + (-1))%Z by lia.
    rewrite inject_Z_plus. change (inject_Z (-1)) with (-1 # 1). lra. }
  rewrite <- Zlt_Qlt in L. lia.
Qed.

Lemma round_half_even_at_most (q : Q) (k : Z) :
  q <= inject_Z k -> (round_half_even q <= k)%Z.
Proof.
  intros H. destruct (round_half_even_near q) as [_ Hi].
  assert (L : inject_Z (round_half_even q) < inject_Z (k + 1)).
  { rewrite inject_Z_plus. change (inject_Z 1) with 1. lra. }
  rewrite <- Zlt_Qlt in L. lia.
Qed.

(** Strictly below a half-integer the result stays below; at a half-integer
    under an even integer it goes up to that integer. *)
Lemma round_half_even_below_half (q : Q) (k : Z) :
  q < inject_Z k - (1 # 2) -> (round_half_even q < k)%Z.
Proof.
  intros H. destruct (round_half_even_near q) as [_ Hi].
  assert (L : inject_Z (round_half_even q) < inject_Z k) by lra.
  now rewrite <- Zlt_Qlt in L.
Qed.

Lemma round_half_even_tie_up (q : Q) (k : Z) :
  Z.even k = true -> inject_Z k - (1 # 2) <= q -> (k <= round_half_even q)%Z.
Proof.
  intros Hk H. unfold round_half_even. destruct q as [n d]. cbn [Qnum Qden].
  assert (Hn : ((2 * k - 1) * Z.pos d <= 2 * n)%Z).
  { unfold Qle, Qminus, Qplus, Qopp, inject_Z in H. cbn in H.
    rewrite ?Pos2Z.inj_mul in H. lia. }
  pose proof (Z.div_mod n (Z.pos d) ltac:(lia)) as D.
  pose proof (Z.mod_pos_bound n (Z.pos d) ltac:(lia)) as B.
  set (fl := (n / Z.pos d)%Z) in *. set (r := (n mod Z.pos d)%Z) in *.
  clearbody fl r.
  assert (Lo : (k - 1 <= fl)%Z) by nia.
  destruct (2 * r ?= Z.pos d)%Z eqn:C.
  - apply Z.compare_eq in C.
    destruct (Z.eq_dec fl (k - 1)) as [-> | Hne].
    + replace (Z.even (k - 1)) with false; [lia |].
      symmetry. rewrite Z.even_sub, Hk. reflexivity.
    + destruct (Z.even fl); lia.
  - change (2 * r < Z.pos d)%Z in C. nia.
  - lia.
Qed.

Lemma digit_string (n : Z) :
  (0 <= n < 10)%Z ->
  exists c : ascii, digits_of_N (Z.to_N n) = String c "" /\ is_digit c = true.
Proof.
  intros H. rewrite <- (Z2Nat.id n) by lia.
  assert (K : (Z.to_nat n < 10)%nat) by lia.
  generalize dependent (Z.to_nat n). clear n H. intros k K.
  do 10 (destruct k as [| k]; [eexists; split; reflexivity |]).
  lia.
Qed.

Lemma two_digits_shape (n : Z) :
  (0 <= n < 100)%Z ->
  exists d1 d2 : ascii,
    two_digits n = String d1 (String d2 "")
    /\ is_digit d1 = true /\ is_digit d2 = true.
Proof.
  intros H. unfold two_digits.
  destruct (@digit_string (n / 10)%Z) as [d1 [E1 D1]].
  { split; [apply Z.div_pos; lia | apply Z.div_lt_upper_bound; lia]. }
  destruct (@digit_string (n mod 10)%Z) as [d2 [E2 D2]].
  { apply Z.mod_pos_bound. lia. }
  exists d1, d2. rewrite E1, E2. auto.
Qed.

Lemma format_float_2f_spec (grouped : bool) (q : Q) :
  exists (n : Z) (d1 d2 : ascii),
    Qabs q * 100 - (1 # 2) <= inject_Z n
    /\ inject_Z n <= Qabs q * 100 + (1 # 2)
    /\ is_digit d1 = true /\ is_digit d2 = true
    /\ format_float_2f grouped q
       = sign_prefix (Qnum q <? 0)%Z
         ++ (if grouped then group_thousands (digits_of_N (Z.to_N (n / 100)))
             else digits_of_N (Z.to_N (n / 100)))
         ++ "." ++ String d1 (String d2 "").
Proof.
  unfold format_float_2f.
  set (n := round_half_even (Qabs q * 100)).
  destruct (@two_digits_shape (n mod 100)%Z) as [d1 [d2 [E [D1 D2]]]].
  { apply Z.mod_pos_bound. lia. }
  exists n, d1, d2. rewrite E.
  destruct (round_half_even_near (Qabs q * 100)) as [L U].
  repeat split; assumption.
Qed.

(** ** binary64 quotients stay finite *)

Lemma round_half_even_le (q : Q) : inject_Z (round_half_even q) <= q + 1.
Proof. destruct (round_half_even_near q) as [_ U]. lra. Qed.

Lemma Qpow2_pos (s : Z) : 0 < Qpow2 s.
Proof.
  unfold Qpow2. destruct (0 <=? s)%Z eqn:E.
  - apply Z.leb_le in E. change 0 with (inject_Z 0). rewrite <- Zlt_Qlt.
    apply Z.pow_pos_nonneg; lia.
  - reflexivity.
Qed.

Lemma Qpow2_le (s t : Z) : (s <= t)%Z -> (0 <= t)%Z -> Qpow2 s <= inject_Z (2 ^ t).
Proof.
  intros Hst Ht. unfold Qpow2. destruct (0 <=? s)%Z eqn:E.
  - apply Z.leb_le in E. rewrite <- Zle_Qle. apply Z.pow_le_mono_r; lia.
  - assert (1 <= 2 ^ t)%Z by (apply Z.lt_pred_le, Z.pow_pos_nonneg; lia).
    unfold Qle. cbn. lia.
Qed.

Lemma log2_ratio_le (n d : Z) : (0 < d)%Z -> (log2_ratio n d <= Z.log2 n)%Z.
Proof.
  intros Hd. unfold log2_ratio.
  pose proof (Z.log2_nonneg d).
  destruct (if (0 <=? _)%Z then _ else _); lia.
Qed.

Lemma round_binary64_some (n d : Z) :
  (0 < n)%Z -> (0 < d)%Z -> (n < 2 ^ 1000)%Z ->
  exists v : Q, round_binary64 n d = Some v.
Proof.
  intros Hn Hd Hbound. unfold round_binary64.
  set (e := log2_ratio n d).
  set (s := (Z.max e (-1022) - 52)%Z).
  set (x := n # Z.to_pos d).
  set (m := round_half_even (x / Qpow2 s)).
  assert (He : (e <= 999)%Z).
  { pose proof (log2_ratio_le n Hd).
    assert (Z.log2 n < 1000)%Z by (apply Z.log2_lt_pow2; lia).
    subst e. lia. }
  assert (Hs : (s <= 947)%Z) by (subst s; lia).
  pose proof (Qpow2_pos s) as HP.
  assert (HPle : Qpow2 s <= inject_Z (2 ^ 947)) by (apply Qpow2_le; lia).
  assert (Hx : x <= inject_Z n).
  { subst x. unfold Qle. cbn. rewrite Z2Pos.id by lia. nia. }
  assert (Hm : inject_Z m <= x / Qpow2 s + 1) by apply round_half_even_le.
  assert (Hv : inject_Z m * Qpow2 s <= x + Qpow2 s).
  { setoid_replace (x + Qpow2 s) with ((x / Qpow2 s + 1) * Qpow2 s)
      by (field; lra).
    apply Qmult_le_compat_r; lra. }
  destruct (Qle_bool (Qpow2 1024) (inject_Z m * Qpow2 s)) eqn:O; [| eauto].
  exfalso. apply Qle_bool_iff in O.
  change (Qpow2 1024) with (inject_Z (2 ^ 1024)) in O.
  assert (inject_Z (2 ^ 1024) <= inject_Z n + inject_Z (2 ^ 947)) by lra.
  rewrite <- inject_Z_plus, <- Zle_Qle in H.
  assert (2 ^ 1000 + 2 ^ 947 < 2 ^ 1024)%Z by reflexivity.
  lia.
Qed.

(** The quotient of two integers is a float whenever the dividend is below
    [2^1000] in magnitude and the divisor is not 0. *)
Lemma int_truediv_total (a b : Z) :
  (b <> 0)%Z -> (Z.abs a < 2 ^ 1000)%Z -> exists q : Q, int_truediv a b = Ok q.
Proof.
  intros Hb Ha. unfold int_truediv.
  destruct (b =? 0)%Z eqn:Eb; [apply Z.eqb_eq in Eb; contradiction |].
  destruct (a =? 0)%Z eqn:Ea; [eauto |].
  apply Z.eqb_neq in Ea.
  destruct (@round_binary64_some (Z.abs a) (Z.abs b)) as [v Hv]; try lia.
  rewrite Hv. eauto.
Qed.

(** ** binary64 quotients are correctly rounded *)

Lemma Qpow2_nonneg_exp (e : Z) : (0 <= e)%Z -> Qpow2 e = inject_Z (2 ^ e).
Proof. intros H. unfold Qpow2. apply Z.leb_le in H. now rewrite H. Qed.

Lemma Qpow2_neg_exp (e : Z) : (e < 0)%Z -> Qpow2 e = 1 # Z.to_pos (2 ^ (- e)).
Proof. intros H. unfold Qpow2. apply Z.leb_gt in H. now rewrite H. Qed.

(** Comparing a positive fraction with a power of two, in integers. *)
Lemma Qpow2_le_frac (e n d : Z) :
  (0 < d)%Z ->
  (if (0 <=? e)%Z then (d * 2 ^ e <= n)%Z else (d <= n * 2 ^ (- e))%Z) ->
  Qpow2 e <= n # Z.to_pos d.
Proof.
  intros Hd H. destruct (0 <=? e)%Z eqn:E.
  - apply Z.leb_le in E. rewrite Qpow2_nonneg_exp by exact E.
    unfold Qle. cbn. rewrite Z2Pos.id by lia. lia.
  - apply Z.leb_gt in E. rewrite Qpow2_neg_exp by exact E.
    assert (0 < 2 ^ (- e))%Z by (apply Z.pow_pos_nonneg; lia).
    unfold Qle. cbn. rewrite !Z2Pos.id by lia. lia.
Qed.

Lemma frac_lt_Qpow2 (e n d : Z) :
  (0 < d)%Z ->
  (if (0 <=? e)%Z then (n < d * 2 ^ e)%Z else (n * 2 ^ (- e) < d)%Z) ->
  n # Z.to_pos d < Qpow2 e.
Proof.
  intros Hd H. destruct (0 <=? e)%Z eqn:E.
  - apply Z.leb_le in E. rewrite Qpow2_nonneg_exp by exact E.
    unfold Qlt. cbn. rewrite Z2Pos.id by lia. lia.
  - apply Z.leb_gt in E. rewrite Qpow2_neg_exp by exact E.
    assert (0 < 2 ^ (- e))%Z by (apply Z.pow_pos_nonneg; lia).
    unfold Qlt. cbn. rewrite !Z2Pos.id by lia. lia.
Qed.

Lemma pow2_succ (k : Z) : (0 <= k)%Z -> (2 ^ (k + 1) = 2 * 2 ^ k)%Z.
Proof. intros H. rewrite Z.pow_add_r by lia. lia. Qed.

(** [log2_ratio n d] is the exponent of the binade of [n / d]. *)
Lemma log2_ratio_spec (n d : Z) :
  (0 < n)%Z -> (0 < d)%Z ->
  Qpow2 (log2_ratio n d) <= n # Z.to_pos d
  /\ n # Z.to_pos d < Qpow2 (log2_ratio n d + 1).
Proof.
  intros Hn Hd.
  pose proof (Z.log2_spec n Hn) as [An An'].
  pose proof (Z.log2_spec d Hd) as [Bd Bd'].
  pose proof (Z.log2_nonneg n) as Ha. pose proof (Z.log2_nonneg d) as Hb.
  unfold Z.succ in *. rewrite pow2_succ in An', Bd' by lia.
  unfold log2_ratio.
  set (a := Z.log2 n) in *. set (b := Z.log2 d) in *.
  set (A := (2 ^ a)%Z) in *. set (B := (2 ^ b)%Z) in *.
  assert (HA : (0 < A)%Z) by (apply Z.pow_pos_nonneg; lia).
  assert (HB : (0 < B)%Z) by (apply Z.pow_pos_nonneg; lia).
  destruct (0 <=? a - b)%Z eqn:E0.
  - apply Z.leb_le in E0.
    assert (HP : (0 < 2 ^ (a - b))%Z) by (apply Z.pow_pos_nonneg; lia).
    assert (EA : (A = B * 2 ^ (a - b))%Z).
    { unfold A, B. rewrite <- Z.pow_add_r by lia. f_equal. lia. }
    destruct (n <? d * 2 ^ (a - b))%Z eqn:T.
    + apply Z.ltb_lt in T. split.
      * apply Qpow2_le_frac; [exact Hd |].
        destruct (0 <=? a - b - 1)%Z eqn:E1.
        -- apply Z.leb_le in E1.
           assert (EP : (2 ^ (a - b) = 2 * 2 ^ (a - b - 1))%Z).
           { rewrite <- pow2_succ by lia. f_equal. lia. }
           assert (0 < 2 ^ (a - b - 1))%Z by (apply Z.pow_pos_nonneg; lia).
           nia.
        -- apply Z.leb_gt in E1.
           replace (- (a - b - 1))%Z with 1%Z by lia.
           replace (a - b)%Z with 0%Z in * by lia.
           change (2 ^ 0)%Z with 1%Z in *. change (2 ^ 1)%Z with 2%Z. lia.
      * apply frac_lt_Qpow2; [exact Hd |].
        replace (a - b - 1 + 1)%Z with (a - b)%Z by lia.
        apply Z.leb_le in E0. rewrite E0. exact T.
    + apply Z.ltb_ge in T. split.
      * apply Qpow2_le_frac; [exact Hd |].
        apply Z.leb_le in E0. rewrite E0. exact T.
      * apply frac_lt_Qpow2; [exact Hd |].
        replace (0 <=? a - b + 1)%Z with true by (symmetry; apply Z.leb_le; lia).
        rewrite pow2_succ by lia. nia.
  - apply Z.leb_gt in E0.
    assert (HP : (0 < 2 ^ (- (a - b)))%Z) by (apply Z.pow_pos_nonneg; lia).
    assert (EB : (B = A * 2 ^ (- (a - b)))%Z).
    { unfold A, B. rewrite <- Z.pow_add_r by lia. f_equal. lia. }
    destruct (n * 2 ^ (- (a - b)) <? d)%Z eqn:T.
    + apply Z.ltb_lt in T. split.
      * apply Qpow2_le_frac; [exact Hd |].
        replace (0 <=? a - b - 1)%Z with false by (symmetry; apply Z.leb_gt; lia).
        replace (- (a - b - 1))%Z with (- (a - b) + 1)%Z by lia.
        rewrite pow2_succ by lia. nia.
      * apply frac_lt_Qpow2; [exact Hd |].
        replace (a - b - 1 + 1)%Z with (a - b)%Z by lia.
        apply Z.leb_gt in E0. rewrite E0. exact T.
    + apply Z.ltb_ge in T. split.
      * apply Qpow2_le_frac; [exact Hd |].
        apply Z.leb_gt in E0. rewrite E0. exact T.
      * apply frac_lt_Qpow2; [exact Hd |].
        destruct (0 <=? a - b + 1)%Z eqn:E1.
        -- apply Z.leb_le in E1.
           replace (a - b + 1)%Z with 0%Z by lia.
           replace (- (a - b))%Z with 1%Z in * by lia.
           change (2 ^ 0)%Z with 1%Z. change (2 ^ 1)%Z with 2%Z in *. lia.
        -- apply Z.leb_gt in E1.
           assert (EP : (2 ^ (- (a - b)) = 2 * 2 ^ (- (a - b + 1)))%Z).
           { rewrite <- pow2_succ by lia. f_equal. lia. }
           assert (0 < 2 ^ (- (a - b + 1)))%Z by (apply Z.pow_pos_nonneg; lia).
           nia.
Qed.

Lemma Qpow2_Qpower (s : Z) : Qpow2 s == 2 ^ s.
Proof.
  destruct (Z_le_gt_dec 0 s) as [H | H].
  - rewrite Qpow2_nonneg_exp by exact H. now rewrite Zpower_Qpower.
  - rewrite Qpow2_neg_exp by lia.
    replace s with (- (- s))%Z at 2 by lia.
    rewrite Qpower_opp, <- (Zpower_Qpower 2 (- s)) by lia.
    assert (P : (0 < 2 ^ (- s))%Z) by (apply Z.pow_pos_nonneg; lia).
    destruct (2 ^ (- s))%Z as [| p | p]; try lia. reflexivity.
Qed.

Lemma Qpow2_add (a b : Z) : Qpow2 (a + b) == Qpow2 a * Qpow2 b.
Proof. rewrite !Qpow2_Qpower. apply Qpower_plus. discriminate. Qed.

Lemma Qpow2_mono (a b : Z) : (a <= b)%Z -> Qpow2 a <= Qpow2 b.
Proof.
  intros H. replace b with (a + (b - a))%Z by lia. rewrite Qpow2_add.
  pose proof (Qpow2_pos a) as Pa.
  assert (1 <= Qpow2 (b - a)).
  { rewrite Qpow2_nonneg_exp by lia. change 1 with (inject_Z 1).
    rewrite <- Zle_Qle.
    assert (0 < 2 ^ (b - a))%Z by (apply Z.pow_pos_nonneg; lia). lia. }
  nra.
Qed.

(** The value returned by [round_binary64] has a significand of at most 53
    bits at the exponent of the binade of [n / d] (or the least exponent),
    and lies within half a unit in the last place of [n / d]. *)
Lemma round_binary64_spec (n d : Z) (v : Q) :
  (0 < n)%Z -> (0 < d)%Z -> round_binary64 n d = Some v ->
  exists m : Z,
    (0 <= m <= 2 ^ 53)%Z
    /\ v = inject_Z m * Qpow2 (Z.max (log2_ratio n d) (-1022) - 52)
    /\ Qabs (v - (n # Z.to_pos d))
       <= Qpow2 (Z.max (log2_ratio n d) (-1022) - 53).
Proof.
  intros Hn Hd. unfold round_binary64.
  destruct (log2_ratio_spec Hn Hd) as [_ Hup].
  set (e := log2_ratio n d) in *.
  set (s := (Z.max e (-1022) - 52)%Z).
  set (x := n # Z.to_pos d) in *.
  set (m := round_half_even (x / Qpow2 s)).
  destruct (Qle_bool _ _); [discriminate |].
  intros H. injection H as <-.
  pose proof (Qpow2_pos s) as HP.
  destruct (round_half_even_near (x / Qpow2 s)) as [Lo Hi]. fold m in Lo, Hi.
  assert (Hx : 0 < x).
  { subst x. unfold Qlt. cbn. lia. }
  assert (Hq : 0 < x / Qpow2 s).
  { apply Qlt_shift_div_l; [exact HP | lra]. }
  assert (Hq53 : x / Qpow2 s < inject_Z (2 ^ 53)).
  { apply Qlt_shift_div_r; [exact HP |].
    rewrite <- (Qpow2_nonneg_exp (e := 53)) by lia.
    rewrite <- Qpow2_add.
    eapply Qlt_le_trans; [exact Hup |]. apply Qpow2_mono. lia. }
  exists m. split; [| split].
  - split.
    + assert (inject_Z (-1) < inject_Z m) by (change (inject_Z (-1)) with (-1); lra).
      rewrite <- Zlt_Qlt in H. lia.
    + assert (inject_Z m < inject_Z (2 ^ 53 + 1)).
      { rewrite inject_Z_plus. change (inject_Z 1) with 1. lra. }
      rewrite <- Zlt_Qlt in H. lia.
  - reflexivity.
  - replace (Z.max e (-1022) - 53)%Z with (s + -1)%Z by (subst s; lia).
    rewrite Qpow2_add. change (Qpow2 (-1)) with (1 # 2).
    apply Qabs_Qle_condition.
    setoid_replace (inject_Z m * Qpow2 s - x)
      with ((inject_Z m - x / Qpow2 s) * Qpow2 s) by (field; lra).
    split.
    + setoid_replace (- (Qpow2 s * (1 # 2))) with ((- (1 # 2)) * Qpow2 s) by ring.
      apply Qmult_le_compat_r; lra.
    + setoid_replace (Qpow2 s * (1 # 2)) with ((1 # 2) * Qpow2 s) by ring.
      apply Qmult_le_compat_r; lra.
Qed.

(** For a quotient of at least 1 the relative error is at most [2^-53]. *)
Lemma int_truediv_accurate (a b : Z) (q : Q) :
  (0 < b <= a)%Z -> int_truediv a b = Ok q ->
  Qabs (q - (a # Z.to_pos b)) <= (a # Z.to_pos b) * Qpow2 (-53).
Proof.
  intros [Hb Hab] H. unfold int_truediv in H.
  replace (b =? 0)%Z with false in H by (symmetry; apply Z.eqb_neq; lia).
  replace (a =? 0)%Z with false in H by (symmetry; apply Z.eqb_neq; lia).
  rewrite !Z.abs_eq in H by lia.
  destruct (round_binary64 a b) as [v |] eqn:R; [| discriminate].
  replace (Z.sgn a * Z.sgn b <? 0)%Z with false in H
    by (symmetry; apply Z.ltb_ge; rewrite !Z.sgn_pos by lia; lia).
  injection H as <-.
  destruct (@round_binary64_spec a b v) as [m [_ [_ Hnear]]]; try lia; [exact R |].
  destruct (@log2_ratio_spec a b) as [Hlo Hup]; try lia.
  assert (He : (0 <= log2_ratio a b)%Z).
  { destruct (Z_le_gt_dec 0 (log2_ratio a b)) as [P | N]; [exact P | exfalso].
    assert (Hone : Qpow2 (log2_ratio a b + 1) <= 1).
    { change 1 with (Qpow2 0). apply Qpow2_mono. lia. }
    assert (1 <= a # Z.to_pos b).
    { unfold Qle. cbn. rewrite Z2Pos.id by lia. lia. }
    lra. }
  rewrite Z.max_l in Hnear by lia.
  eapply Qle_trans; [exact Hnear |].
  replace (log2_ratio a b - 53)%Z with (log2_ratio a b + -53)%Z by lia.
  rewrite Qpow2_add.
  apply Qmult_le_compat_r; [exact Hlo |]. apply Qlt_le_weak, Qpow2_pos.
Qed.

(** *** The largest quotient that is still a float *)

Lemma round_binary64_exponent_below (n d : Z) (t : Z) :
  (0 < n)%Z -> (0 < d)%Z -> n # Z.to_pos d < Qpow2 t -> (log2_ratio n d < t)%Z.
Proof.
  intros Hn Hd Hlt. destruct (log2_ratio_spec Hn Hd) as [Hlo _].
  destruct (Z_lt_le_dec (log2_ratio n d) t) as [L | G]; [exact L | exfalso].
  pose proof (Qpow2_mono G). lra.
Qed.

Lemma round_binary64_exponent_at_least (n d : Z) (t : Z) :
  (0 < n)%Z -> (0 < d)%Z -> Qpow2 t <= n # Z.to_pos d -> (t <= log2_ratio n d)%Z.
Proof.
  intros Hn Hd Hge. destruct (log2_ratio_spec Hn Hd) as [_ Hup].
  destruct (Z_le_gt_dec t (log2_ratio n d)) as [L | G]; [exact L | exfalso].
  assert (Qpow2 (log2_ratio n d + 1) <= Qpow2 t) by (apply Qpow2_mono; lia).
  lra.
Qed.

(** A quotient below [2^1024 - 2^970], the midpoint between the largest
    finite binary64 and [2^1024], rounds to a finite value. *)
Lemma round_binary64_finite (n d : Z) :
  (0 < n)%Z -> (0 < d)%Z ->
  n # Z.to_pos d < inject_Z (2 ^ 1024 - 2 ^ 970) ->
  exists v : Q, round_binary64 n d = Some v.
Proof.
  intros Hn Hd Hx. unfold round_binary64.
  destruct (log2_ratio_spec Hn Hd) as [Hlo Hup].
  assert (He : (log2_ratio n d < 1024)%Z).
  { apply round_binary64_exponent_below; try assumption.
    rewrite Qpow2_nonneg_exp by lia.
    eapply Qlt_trans; [exact Hx |]. rewrite <- Zlt_Qlt. reflexivity. }
  set (e := log2_ratio n d) in *. set (x := n # Z.to_pos d) in *.
  set (s := (Z.max e (-1022) - 52)%Z).
  set (m := round_half_even (x / Qpow2 s)).
  pose proof (Qpow2_pos s) as HP.
  assert (Hm : inject_Z m * Qpow2 s < Qpow2 1024).
  { destruct (Z_lt_le_dec e 1023) as [Small | Top].
    - assert (Hq : x / Qpow2 s <= inject_Z (2 ^ 53)).
      { apply Qle_shift_div_r; [exact HP |].
        rewrite <- (Qpow2_nonneg_exp (e := 53)) by lia.
        rewrite <- Qpow2_add.
        apply Qlt_le_weak. eapply Qlt_le_trans; [exact Hup |].
        apply Qpow2_mono. subst s. lia. }
      apply round_half_even_at_most in Hq. fold m in Hq.
      rewrite Zle_Qle in Hq.
      rewrite <- (Qpow2_nonneg_exp (e := 53)) in Hq by lia.
      assert (inject_Z m * Qpow2 s <= Qpow2 53 * Qpow2 s)
        by (apply Qmult_le_compat_r; lra).
      rewrite <- Qpow2_add in H.
      assert (Qpow2 (53 + s) <= Qpow2 1023) by (apply Qpow2_mono; subst s; lia).
      assert (Qpow2 1023 < Qpow2 1024).
      { rewrite !Qpow2_nonneg_exp by lia. rewrite <- Zlt_Qlt. reflexivity. }
      lra.
    - assert (Es : s = 971%Z) by (subst s; lia).
      assert (Hq : x / Qpow2 s < inject_Z (2 ^ 53) - (1 # 2)).
      { apply Qlt_shift_div_r; [exact HP |].
        rewrite Es. rewrite Qpow2_nonneg_exp by lia.
        eapply Qlt_le_trans; [exact Hx |].
        vm_compute. discriminate. }
      apply round_half_even_below_half in Hq. fold m in Hq.
      assert (Hm : (m <= 2 ^ 53 - 1)%Z) by lia.
      rewrite Zle_Qle in Hm.
      assert (inject_Z m * Qpow2 s <= inject_Z (2 ^ 53 - 1) * Qpow2 s)
        by (apply Qmult_le_compat_r; lra).
      eapply Qle_lt_trans; [exact H |].
      rewrite Es. vm_compute. reflexivity. }
  destruct (Qle_bool (Qpow2 1024) (inject_Z m * Qpow2 s)) eqn:O; [| eauto].
  exfalso. apply Qle_bool_iff in O. lra.
Qed.

(** From that midpoint on the quotient rounds to [2^1024] or beyond, which
    is not a float. *)
Lemma round_binary64_infinite (n d : Z) :
  (0 < n)%Z -> (0 < d)%Z ->
  inject_Z (2 ^ 1024 - 2 ^ 970) <= n # Z.to_pos d ->
  round_binary64 n d = None.
Proof.
  intros Hn Hd Hx. unfold round_binary64.
  destruct (log2_ratio_spec Hn Hd) as [Hlo Hup].
  assert (He : (1023 <= log2_ratio n d)%Z).
  { apply round_binary64_exponent_at_least; try assumption.
    rewrite Qpow2_nonneg_exp by lia.
    eapply Qle_trans; [| exact Hx]. rewrite <- Zle_Qle. vm_compute. discriminate. }
  set (e := log2_ratio n d) in *. set (x := n # Z.to_pos d) in *.
  replace (Z.max e (-1022)) with e by lia.
  set (m := round_half_even (x / Qpow2 (e - 52))).
  pose proof (Qpow2_pos (e - 52)) as HP.
  assert (Hm : Qpow2 1024 <= inject_Z m * Qpow2 (e - 52)).
  { destruct (Z_lt_le_dec e 1024) as [Top | Beyond].
    - assert (Ee : e = 1023%Z) by lia.
      assert (Hq : inject_Z (2 ^ 53) - (1 # 2) <= x / Qpow2 (e - 52)).
      { apply Qle_shift_div_l; [exact HP |].
        rewrite Ee. change (1023 - 52)%Z with 971%Z.
        rewrite Qpow2_nonneg_exp by lia.
        eapply Qle_trans; [| exact Hx].
        vm_compute. discriminate. }
      apply round_half_even_tie_up in Hq; [| reflexivity]. fold m in Hq.
      rewrite Zle_Qle in Hq.
      assert (inject_Z (2 ^ 53) * Qpow2 (e - 52) <= inject_Z m * Qpow2 (e - 52))
        by (apply Qmult_le_compat_r; lra).
      eapply Qle_trans; [| exact H].
      rewrite Ee. vm_compute. discriminate.
    - assert (Hq : inject_Z (2 ^ 52) <= x / Qpow2 (e - 52)).
      { apply Qle_shift_div_l; [exact HP |].
        rewrite <- (Qpow2_nonneg_exp (e := 52)) by lia.
        rewrite <- Qpow2_add. now replace (52 + (e - 52))%Z with e by lia. }
      apply round_half_even_at_least in Hq. fold m in Hq.
      rewrite Zle_Qle in Hq.
      rewrite <- (Qpow2_nonneg_exp (e := 52)) in Hq by lia.
      assert (Qpow2 52 * Qpow2 (e - 52) <= inject_Z m * Qpow2 (e - 52))
        by (apply Qmult_le_compat_r; lra).
      rewrite <- Qpow2_add in H. replace (52 + (e - 52))%Z with e in H by lia.
      assert (Qpow2 1024 <= Qpow2 e) by (apply Qpow2_mono; lia).
      lra. }
  apply Qle_bool_iff in Hm. now rewrite Hm.
Qed.

(** ** Recommendation stage: market capitalisation *)

Lemma format_cap_branch (mc thresh : Z) (suffix currency : string)
  (rest : list (Z * string)) :
  (thresh <= mc)%Z -> (0 < thresh)%Z -> (mc < 2 ^ 1000)%Z ->
  exists q : Q,
    int_truediv mc thresh = Ok q
    /\ Qabs (q - (mc # Z.to_pos thresh)) <= (mc # Z.to_pos thresh) * Qpow2 (-53)
    /\ format_with_caps ((thresh, suffix) :: rest) mc currency
       = Ok (currency ++ " " ++ format_float_2f false q ++ suffix).
Proof.
  intros Hge Hpos Hlt.
  destruct (@int_truediv_total mc thresh) as [q Hq]; try lia.
  exists q. split; [exact Hq |]. split.
  - apply int_truediv_accurate; [lia | exact Hq].
  - cbn [format_with_caps].
    replace (mc >=? thresh)%Z with true
      by (symmetry; rewrite Z.geb_leb; now apply Z.leb_le).
    now rewrite Hq.
Qed.

Lemma format_cap_skip (mc thresh : Z) (suffix currency : string)
  (rest : list (Z * string)) :
  (mc < thresh)%Z ->
  format_with_caps ((thresh, suffix) :: rest) mc currency
  = format_with_caps rest mc currency.
Proof.
  intros Hlt. cbn [format_with_caps].
  replace (mc >=? thresh)%Z with false
    by (symmetry; rewrite Z.geb_leb; now apply Z.leb_gt).
  reflexivity.
Qed.

(** Twice the dividend against [2^1025 - 2^971] times the divisor: the
    quotient against the midpoint [2^1024 - 2^970]. *)
Lemma below_midpoint_iff (a b : Z) :
  (0 < b)%Z ->
  (2 * a < (2 ^ 1025 - 2 ^ 971) * b)%Z
  <-> a # Z.to_pos b < inject_Z (2 ^ 1024 - 2 ^ 970).
Proof.
  intros Hb. unfold Qlt, inject_Z. cbn [Qnum Qden].
  rewrite Z2Pos.id by exact Hb.
  assert (E : (2 ^ 1025 - 2 ^ 971 = 2 * (2 ^ 1024 - 2 ^ 970))%Z) by reflexivity.
  rewrite E. set (c := (2 ^ 1024 - 2 ^ 970)%Z). lia.
Qed.

Lemma int_truediv_finite (a b : Z) :
  (0 < b)%Z -> (0 < a)%Z -> (2 * a < (2 ^ 1025 - 2 ^ 971) * b)%Z ->
  exists q : Q, int_truediv a b = Ok q.
Proof.
  intros Hb Ha Hlt. unfold int_truediv.
  replace (b =? 0)%Z with false by (symmetry; apply Z.eqb_neq; lia).
  replace (a =? 0)%Z with false by (symmetry; apply Z.eqb_neq; lia).
  rewrite !Z.abs_eq by lia.
  destruct (@round_binary64_finite a b Ha Hb) as [v Hv];
    [now apply below_midpoint_iff |].
  rewrite Hv. eauto.
Qed.

Lemma int_truediv_overflow (a b : Z) :
  (0 < b)%Z -> (0 < a)%Z -> ((2 ^ 1025 - 2 ^ 971) * b <= 2 * a)%Z ->
  int_truediv a b
  = Raise "OverflowError: integer division result too large for a float".
Proof.
  intros Hb Ha Hge. unfold int_truediv.
  replace (b =? 0)%Z with false by (symmetry; apply Z.eqb_neq; lia).
  replace (a =? 0)%Z with false by (symmetry; apply Z.eqb_neq; lia).
  rewrite !Z.abs_eq by lia.
  rewrite round_binary64_infinite; [reflexivity | exact Ha | exact Hb |].
  apply Qnot_lt_le. intros C. apply below_midpoint_iff in C; [lia | exact Hb].
Qed.

(** A value that reaches a threshold is divided by it; the quotient is a
    float as long as it stays below the midpoint. *)
Lemma format_cap_quotient (mc thresh : Z) (suffix currency : string)
  (rest : list (Z * string)) :
  (thresh <= mc)%Z -> (0 < thresh)%Z ->
  (2 * mc < (2 ^ 1025 - 2 ^ 971) * thresh)%Z ->
  exists q : Q,
    int_truediv mc thresh = Ok q
    /\ Qabs (q - (mc # Z.to_pos thresh)) <= (mc # Z.to_pos thresh) * Qpow2 (-53)
    /\ format_with_caps ((thresh, suffix) :: rest) mc currency
       = Ok (currency ++ " " ++ format_float_2f false q ++ suffix).
Proof.
  intros Hge Hpos Hlt.
  destruct (@int_truediv_finite mc thresh) as [q Hq]; try lia.
  exists q. split; [exact Hq |]. split.
  - apply int_truediv_accurate; [lia | exact Hq].
  - cbn [format_with_caps].
    replace (mc >=? thresh)%Z with true
      by (symmetry; rewrite Z.geb_leb; now apply Z.leb_le).
    now rewrite Hq.
Qed.

(** C8, as the source has it.  A missing market cap prints as N/A; a value
    below one million prints the currency code and the whole number with
    thousands separators, without a letter; a value of at least one million
    prints the currency code, the value divided by the largest of trillion,
    billion and million it reaches, with two decimals, and the letter T, B
    or M (2,500,000,000 in USD prints as USD 2.50B).  The quotient is the
    float nearest to the exact one (relative error at most 2^-53) and the
    two decimals are its nearest hundredths.  This holds as long as the
    quotient is a float, that is for every value below [2^1024 - 2^970]
    trillion; from that value on the division raises OverflowError and
    nothing is printed. *)
Theorem C8_market_cap_format (currency : string) :
  _format_market_cap None currency = Ok "N/A"
  /\ _format_market_cap (Some 2500000000%Z) "USD" = Ok "USD 2.50B"
  /\ (forall mc : Z, (mc < 1000000)%Z ->
        _format_market_cap (Some mc) currency
        = Ok (currency ++ " " ++ format_int_grouped mc))
  /\ (forall mc : Z, (1000000 <= mc < 1000000000)%Z ->
        exists q : Q,
          int_truediv mc 1000000 = Ok q
          /\ Qabs (q - (mc # 1000000)) <= (mc # 1000000) * Qpow2 (-53)
          /\ _format_market_cap (Some mc) currency
             = Ok (currency ++ " " ++ format_float_2f false q ++ "M"))
  /\ (forall mc : Z, (1000000000 <= mc < 1000000000000)%Z ->
        exists q : Q,
          int_truediv mc 1000000000 = Ok q
          /\ Qabs (q - (mc # 1000000000)) <= (mc # 1000000000) * Qpow2 (-53)
          /\ _format_market_cap (Some mc) currency
             = Ok (currency ++ " " ++ format_float_2f false q ++ "B"))
  /\ (forall mc : Z, (1000000000000 <= mc)%Z ->
        (2 * mc < (2 ^ 1025 - 2 ^ 971) * 1000000000000)%Z ->
        exists q : Q,
          int_truediv mc 1000000000000 = Ok q
          /\ Qabs (q - (mc # 1000000000000))
             <= (mc # 1000000000000) * Qpow2 (-53)
          /\ _format_market_cap (Some mc) currency
             = Ok (currency ++ " " ++ format_float_2f false q ++ "T"))
  /\ (forall mc : Z,
        ((2 ^ 1025 - 2 ^ 971) * 1000000000000 <= 2 * mc)%Z ->
        _format_market_cap (Some mc) currency
        = Raise "OverflowError: integer division result too large for a float")
  /\ (forall q : Q,
        exists (hundredths : Z) (d1 d2 : ascii),
          Qabs q * 100 - (1 # 2) <= inject_Z hundredths
          /\ inject_Z hundredths <= Qabs q * 100 + (1 # 2)
          /\ is_digit d1 = true /\ is_digit d2 = true
          /\ format_float_2f false q
             = sign_prefix (Qnum q <? 0)%Z
               ++ digits_of_N (Z.to_N (hundredths / 100))
               ++ "." ++ String d1 (String d2 "")).
Proof.
  split; [reflexivity |]. split; [vm_compute; reflexivity |].
  unfold _format_market_cap, caps.
  split; [| split; [| split; [| split; [| split]]]].
  - intros mc H. rewrite !format_cap_skip by lia. reflexivity.
  - intros mc H. rewrite !format_cap_skip by lia.
    apply (@format_cap_quotient mc 1000000); lia.
  - intros mc H. rewrite format_cap_skip by lia.
    apply (@format_cap_quotient mc 1000000000); lia.
  - intros mc H Hfin. apply (@format_cap_quotient mc 1000000000000); lia.
  - intros mc Hbig.
    assert (Hmc : (1000000000000 <= mc)%Z) by lia.
    cbn [format_with_caps].
    replace (mc >=? 1000000000000)%Z with true
      by (symmetry; rewrite Z.geb_leb; apply Z.leb_le; lia).
    rewrite int_truediv_overflow by lia. reflexivity.
  - intros q. apply (format_float_2f_spec false q).
Qed.

(** The quotient is rounded to binary64 before it is printed: 1,015,000
    gives 1.01M, the digits of the float nearest to 1.015. *)
Example market_cap_rounds_the_float :
  _format_market_cap (Some 1015000%Z) "USD" = Ok "USD 1.01M"
  /\ _format_market_cap (Some 1125000%Z) "USD" = Ok "USD 1.12M"
  /\ _format_market_cap (Some 999999%Z) "USD" = Ok "USD 999,999".
Proof. repeat split; vm_compute; reflexivity. Qed.

(** C8, as stated, fails below one million: 1,500 in USD prints in full,
    where the four-threshold formatter of the specification would print
    USD 1.50K. *)
Lemma C8_no_thousand_suffix :
  _format_market_cap (Some 1500%Z) "USD" = Ok "USD 1,500"
  /\ spec_format_market_cap (Some 1500%Z) "USD" = Ok "USD 1.50K"
  /\ _format_market_cap (Some 1500%Z) "USD"
     <> spec_format_market_cap (Some 1500%Z) "USD".
Proof.
  assert (A : _format_market_cap (Some 1500%Z) "USD" = Ok "USD 1,500")
    by (vm_compute; reflexivity).
  assert (B : spec_format_market_cap (Some 1500%Z) "USD" = Ok "USD 1.50K")
    by (vm_compute; reflexivity).
  split; [exact A |]. split; [exact B |].
  rewrite A, B. discriminate.
Qed.

(** ** Pipeline: the valid branch *)

(** A run whose ticker validates goes through all five stages. *)
Lemma invoke_valid (gw : Gateway) (state : StockAgentState) :
  is_valid (validate_ticker gw state) = Some (Some true) ->
  invoke gw state
  = (fetched <- fetch_stock_data gw (validate_ticker gw state) ;;
     generate_recommendation (gw_now gw)
       (analyze_market_trend (calculate_technical_indicators fetched))).
Proof.
  intros Hvalid. unfold invoke, recursion_limit.
  rewrite (@run_from_step 24) by discriminate.
  cbn [run_node bind next_node].
  unfold route_after_validate. rewrite Hvalid.
  rewrite (@run_from_step 23) by discriminate. cbn [run_node].
  destruct (fetch_stock_data gw (validate_ticker gw state)) as [s2 | e];
    [| reflexivity].
  cbn [bind next_node].
  rewrite (@run_from_step 22) by discriminate. cbn [run_node bind next_node].
  rewrite (@run_from_step 21) by discriminate. cbn [run_node bind next_node].
  rewrite (@run_from_step 20) by discriminate. cbn [run_node].
  destruct (generate_recommendation _ _) as [s5 | e]; [| reflexivity].
  cbn [bind next_node]. apply run_from_END.
Qed.

(** On the valid branch the report is the lines put end to end. *)
Lemma valid_report_is_concatenation (now cap : string) (state : StockAgentState) :
  is_invalid state = false ->
  _format_market_cap (info_get market_cap None state)
                     (info_get currency "USD" state) = Ok cap ->
  exists final : StockAgentState,
    generate_recommendation now state = Ok final
    /\ report final
       = Some (String.concat "" (render_lines now (_ensure_errors state) cap)).
Proof.
  intros Hvalid Hcap. unfold generate_recommendation.
  replace (is_invalid (_ensure_errors state)) with false.
  unfold report_lines.
  change (info_get market_cap None (_ensure_errors state))
    with (info_get market_cap None state).
  change (info_get currency "USD" (_ensure_errors state))
    with (info_get currency "USD" state).
  rewrite Hcap. cbn [bind]. eexists. split; reflexivity.
Qed.

Lemma format_market_cap_total (mc : Z) (currency : string) :
  (mc < 2 ^ 1000)%Z ->
  exists out : string, _format_market_cap (Some mc) currency = Ok out.
Proof.
  intros Hb. unfold _format_market_cap, caps.
  destruct (Z_lt_le_dec mc 1000000000000) as [T | T].
  - rewrite format_cap_skip by lia.
    destruct (Z_lt_le_dec mc 1000000000) as [B | B].
    + rewrite format_cap_skip by lia.
      destruct (Z_lt_le_dec mc 1000000) as [M | M].
      * rewrite format_cap_skip by lia. eexists. reflexivity.
      * destruct (@format_cap_branch mc 1000000 "M" currency []) as [q [_ [_ E]]];
          try lia. eauto.
    + destruct (@format_cap_branch mc 1000000000 "B" currency
                  [(1000000%Z, "M")]) as [q [_ [_ E]]]; try lia. eauto.
  - destruct (@format_cap_branch mc 1000000000000 "T" currency
                [(1000000000%Z, "B"); (1000000%Z, "M")]) as [q [_ [_ E]]];
      try lia. eauto.
Qed.

(** ** Recommendation stage: the decision and the price in the report *)







Lemma effective_price_fallback (state : StockAgentState) :
  (info_get current_price None state = None
   \/ exists p : Q, info_get current_price None state = Some p /\ p == 0) ->
  effective_price state = tech_get last_close state.
Proof.
  unfold info_get, effective_price. intros Hprice.
  destruct (stock_info state) as [info |]; [| reflexivity].
  destruct Hprice as [-> | [p [-> Hp]]]; [reflexivity |].
  unfold float_truthy. apply Qeq_bool_iff in Hp. now rewrite Hp.
Qed.



(** On the valid branch the stage returns as soon as the market cap can be
    printed, and only then. *)
Lemma valid_stage_returns (now : string) (state : StockAgentState) :
  is_invalid state = false ->
  (forall mc : Z, info_get market_cap None state = Some mc -> (mc < 2 ^ 1000)%Z) ->
  exists final : StockAgentState, generate_recommendation now state = Ok final.
Proof.
  intros Hvalid Hcap.
  assert (Cap : exists cap : string,
             _format_market_cap (info_get market_cap None state)
                                (info_get currency "USD" state) = Ok cap).
  { destruct (info_get market_cap None state) as [mc |] eqn:M.
    - apply format_market_cap_total. now apply Hcap.
    - eexists. reflexivity. }
  destruct Cap as [cap Hfmt].
  destruct (@valid_report_is_concatenation now cap state Hvalid Hfmt) as [final [G _]].
  exists final. exact G.
Qed.

Lemma valid_stage_printed_cap (now : string) (state final : StockAgentState) :
  is_invalid state = false ->
  generate_recommendation now state = Ok final ->
  exists cap : string,
    _format_market_cap (info_get market_cap None state)
                       (info_get currency "USD" state) = Ok cap.
Proof.
  intros Hvalid G. unfold generate_recommendation in G.
  replace (is_invalid (_ensure_errors state)) with false in G.
  unfold report_lines in G.
  change (info_get market_cap None (_ensure_errors state))
    with (info_get market_cap None state) in G.
  change (info_get currency "USD" (_ensure_errors state))
    with (info_get currency "USD" state) in G.
  destruct (_format_market_cap (info_get market_cap None state)
                               (info_get currency "USD" state)) as [cap | e].
  - exists cap. reflexivity.
  - cbn [bind] in G. discriminate.
Qed.

(** The report the stage returns on the valid branch: the entries of
    [lines] put end to end, the fifth being the price line and the last ones
    the decision lines of the rule applied to the price in use. *)
Lemma valid_report_lines (now : string) (state final : StockAgentState) :
  is_invalid state = false ->
  generate_recommendation now state = Ok final ->
  exists front : list string,
    nth_error front 4
    = Some ("current price: "
            ++ _format_currency (float_arg (effective_price state))
                                (info_get currency "USD" state))
    /\ forall (d : Decision) (reason : string),
         decide (effective_price state) (tech_get sma_short state)
                (tech_get sma_long state) (tech_get rsi_value state)
         = (d, [reason]) ->
         report final
         = Some (join "" (front ++ decision_lines d reason (errors_of state))).
Proof.
  intros Hvalid Hret.
  destruct (@valid_stage_printed_cap now state final Hvalid Hret) as [cap Hfmt].
  destruct (@valid_report_is_concatenation now cap state Hvalid Hfmt) as [final' [G R]].
  assert (final' = final) by congruence. subst final'.
  set (k := (22 + (if str_truthy (match trend state with
                                  | Some t => notes t
                                  | None => ""
                                  end) then 1 else 0))%nat).
  exists (firstn k (render_lines now (_ensure_errors state) cap)).
  split.
  - unfold render_lines, k.
    change (effective_price (_ensure_errors state)) with (effective_price state).
    change (trend (_ensure_errors state)) with (trend state).
    destruct (decide _ _ _ _) as [d rs].
    destruct (str_truthy _); reflexivity.
  - intros d reason D. rewrite R. fold (join "" (render_lines now (_ensure_errors state) cap)).
    f_equal. f_equal.
    rewrite <- (firstn_skipn k (render_lines now (_ensure_errors state) cap)) at 1.
    f_equal.
    unfold render_lines, k.
    change (effective_price (_ensure_errors state)) with (effective_price state).
    change (tech_get sma_short (_ensure_errors state)) with (tech_get sma_short state).
    change (tech_get sma_long (_ensure_errors state)) with (tech_get sma_long state).
    change (tech_get rsi_value (_ensure_errors state)) with (tech_get rsi_value state).
    change (trend (_ensure_errors state)) with (trend state).
    change (errors_of (_ensure_errors state)) with (errors_of state).
    rewrite D. unfold decision_lines.
    destruct (str_truthy _); destruct (errors_of state); reflexivity.
Qed.



(** C10. When the quoted price is missing or equal to 0, the stage works
    with the last close: on the valid branch it returns (whenever the market
    cap can be printed) a report whose fifth entry is the price line
    printing the last close, and whose decision and reason at the end are
    those of the rule applied to the last close. *)
Theorem C10_falsy_price_fallback (now : string) (state : StockAgentState) :
  is_invalid state = false ->
  (info_get current_price None state = None
   \/ exists p : Q, info_get current_price None state = Some p /\ p == 0) ->
  ((forall mc : Z, info_get market_cap None state = Some mc -> (mc < 2 ^ 1000)%Z) ->
   exists final : StockAgentState, generate_recommendation now state = Ok final)
  /\ forall final : StockAgentState,
       generate_recommendation now state = Ok final ->
       exists (front : list string) (d : Decision) (reason : string),
         nth_error front 4
         = Some ("current price: "
                 ++ _format_currency (float_arg (tech_get last_close state))
                                     (info_get currency "USD" state))
         /\ decide (tech_get last_close state) (tech_get sma_short state)
                   (tech_get sma_long state) (tech_get rsi_value state)
            = (d, [reason])
         /\ report final
            = Some (join "" (front ++ decision_lines d reason (errors_of state))).
Proof.
  intros Hvalid Hprice. split; [now apply valid_stage_returns |].
  intros final G.
  destruct (@valid_report_lines now state final Hvalid G) as [front [L R]].
  rewrite (effective_price_fallback _ Hprice) in L, R.
  destruct (decide (tech_get last_close state) (tech_get sma_short state)
                   (tech_get sma_long state) (tech_get rsi_value state))
    as [d rs] eqn:D.
  assert (One : exists reason : string, rs = [reason]).
  { destruct (tech_get last_close state) as [p |], (tech_get sma_short state) as [s |],
      (tech_get sma_long state) as [l |], (tech_get rsi_value state) as [r |];
      cbn [decide] in D; try (injection D as <- <-; eexists; reflexivity).
    destruct (buy_condition p s l r); [injection D as <- <-; eexists; reflexivity |].
    destruct (sell_condition p s l r); injection D as <- <-; eexists; reflexivity. }
  destruct One as [reason ->].
  exists front, d, reason.
  split; [exact L |]. split; [reflexivity |].
  now apply R.
Qed.


Lemma C10_falsy_price_fallback_witness :
  exists (final : StockAgentState) (front : list string),
    generate_recommendation "2024-01-02 10:00:00"
                            (sample_state (Some 0) (Some 25) (Some 24))
    = Ok final
    /\ nth_error front 4 = Some "current price: USD 25.00"
    /\ report final
       = Some (join "" (front ++ decision_lines BUY reason_buy [])).
Proof.
  destruct (@C10_falsy_price_fallback "2024-01-02 10:00:00"
              (sample_state (Some 0) (Some 25) (Some 24)) eq_refl)
    as [Returns Rule].
  { right. exists 0. split; reflexivity. }
  destruct Returns as [final G].
  { intros mc E. cbn in E. injection E as <-. reflexivity. }
  destruct (Rule final G) as [front [d [reason [L [D R]]]]].
  exists final, front. split; [exact G |]. split; [exact L |].
  vm_compute in D. injection D as <- <-. exact R.
Defined.

(** C7 on a run: with a known symbol, 22 sessions and a live quote, the
    pipeline returns the report below; its sections follow one another
    without any line break. *)
Lemma C7_report_has_no_line_break :
  run_agent sample_gateway "ACME" = Ok sample_report
  /\ has_line_break sample_report = false.
Proof. split; vm_compute; reflexivity. Qed.

(** ** Scenarios *)

(** Twenty rising closes 10..29: the short average is the mean of the last
    ten, the long average the mean of all twenty, no oscillator value is
    computed, and the trend is bullish with positive momentum. *)
Example ascending_scenario_bullish :
  let final := analyze_market_trend (calculate_technical_indicators ascending_state) in
  option_map Qred (tech_get sma_short final) = Some (49 # 2)
  /\ option_map Qred (tech_get sma_long final) = Some (39 # 2)
  /\ tech_get rsi_value final = None
  /\ option_map short_term (trend final) = Some "BULLISH ↗"
  /\ stored_momentum final = Some "POSITIVE".
Proof. vm_compute. repeat split. Qed.

(** A resolved ticker with an empty history: the run still returns a
    report, the decision is HOLD for lack of indicator data and the data
    errors are listed. *)
Example empty_history_scenario :
  match invoke empty_history_gateway (initial_state "acme") with
  | Ok final =>
      recommendation final = (HOLD, [reason_insufficient_data])
      /\ technical_indicators final = None
      /\ errors final
         = Some ["Không lấy được dữ liệu lịch sử.";
                 "Thiếu dữ liệu lịch sử để tính chỉ báo."]
  | Raise _ => False
  end.
Proof. vm_compute. repeat split. Qed.

(** * Further properties of the stages and of the indicator engine *)

(** ** Pipeline: the stages one after the other *)

Lemma invoke_invalid (gw : Gateway) (state : StockAgentState) :
  passed_validation (validate_ticker gw state) = false ->
  invoke gw state
  = generate_recommendation (gw_now gw) (validate_ticker gw state).
Proof.
  intros Hinvalid. unfold invoke, recursion_limit.
  rewrite (@run_from_step 24) by discriminate.
  cbn [run_node bind next_node].
  replace (route_after_validate (validate_ticker gw state))
    with n_generate_recommendation.
  2:{ unfold route_after_validate. unfold passed_validation in Hinvalid.
      destruct (is_valid (validate_ticker gw state)) as [[[|]|]|];
        try reflexivity; discriminate. }
  rewrite (@run_from_step 23) by discriminate. cbn [run_node].
  destruct (generate_recommendation _ _) as [s5 | e]; [| reflexivity].
  cbn [bind next_node]. apply run_from_END.
Qed.

(** X1. A run of the graph is Validation followed, when the ticker passed,
    by Acquisition, Indicators, Trend and Recommendation in that order, and
    otherwise by Recommendation alone; the step limit is never reached. *)
Theorem invoke_stages (gw : Gateway) (state : StockAgentState) :
  invoke gw state
  = if passed_validation (validate_ticker gw state)
    then (fetched <- fetch_stock_data gw (validate_ticker gw state) ;;
          generate_recommendation (gw_now gw)
            (analyze_market_trend (calculate_technical_indicators fetched)))
    else generate_recommendation (gw_now gw) (validate_ticker gw state).
Proof.
  destruct (passed_validation (validate_ticker gw state)) eqn:V.
  - apply invoke_valid. unfold passed_validation in V.
    destruct (is_valid (validate_ticker gw state)) as [[[|]|]|];
      try discriminate; reflexivity.
  - now apply invoke_invalid.
Qed.

(** ** Pipeline: the error list *)

Lemma errors_of_ensure (state : StockAgentState) :
  errors_of (_ensure_errors state) = errors_of state.
Proof. reflexivity. Qed.

Lemma errors_of_append (msg : string) (state : StockAgentState) :
  errors_of (append_error msg state) = (errors_of state ++ [msg])%list.
Proof. reflexivity. Qed.

Lemma validate_ticker_errors (gw : Gateway) (state : StockAgentState) :
  exists added : list string,
    added_errors state (validate_ticker gw state) added
    /\ (length added <= 1)%nat.
Proof.
  unfold validate_ticker, added_errors.
  destruct (negb (str_truthy _)).
  { eexists [_]. split; [reflexivity | cbn; lia]. }
  destruct (gw_history_1d gw _) as [n | e].
  - destruct (if (0 <? n)%nat then true else _).
    + exists []. split; [cbn; now rewrite app_nil_r | cbn; lia].
    + eexists [_]. split; [reflexivity | cbn; lia].
  - eexists [_]. split; [reflexivity | cbn; lia].
Qed.

Lemma fetch_stock_data_errors (gw : Gateway) (state fetched : StockAgentState) :
  fetch_stock_data gw state = Ok fetched ->
  exists added : list string,
    added_errors state fetched added /\ (length added <= 1)%nat.
Proof.
  unfold fetch_stock_data, added_errors.
  destruct (ticker state) as [t |]; [| discriminate].
  destruct (gw_download gw (upper t)) as [[| b bs] | e]; intros H.
  - injection H as <-. eexists [_]. split; [reflexivity | cbn; lia].
  - destruct (read_fast_info _) as [[p m] c].
    destruct (match gw_info gw (upper t) with Ok _ => _ | Raise _ => _ end)
      as [[m' c'] ln].
    injection H as <-. exists []. split; [cbn; now rewrite app_nil_r | cbn; lia].
  - injection H as <-. eexists [_]. split; [reflexivity | cbn; lia].
Qed.

Lemma calculate_technical_indicators_errors (state : StockAgentState) :
  exists added : list string,
    added_errors state (calculate_technical_indicators state) added
    /\ (length added <= 1)%nat.
Proof.
  unfold calculate_technical_indicators, added_errors.
  destruct (historical_data (_ensure_errors state)) as [hist |].
  - destruct (rows hist).
    + eexists [_]. split; [reflexivity | cbn; lia].
    + exists []. split; [cbn; now rewrite app_nil_r | cbn; lia].
  - eexists [_]. split; [reflexivity | cbn; lia].
Qed.

Lemma analyze_market_trend_errors (state : StockAgentState) :
  errors_of (analyze_market_trend state) = errors_of state.
Proof.
  unfold analyze_market_trend.
  destruct (match tech_get last_close _, tech_get sma_short _, tech_get sma_long _ with
            | Some p, Some s, Some l => _
            | _, _, _ => _
            end) as [st pv].
  reflexivity.
Qed.

Lemma generate_recommendation_errors (now : string) (state final : StockAgentState) :
  generate_recommendation now state = Ok final ->
  errors_of final = errors_of state.
Proof.
  unfold generate_recommendation.
  destruct (is_invalid _).
  - intros H. injection H as <-. reflexivity.
  - destruct (report_lines now _) as [lines | e]; [| discriminate].
    intros H. injection H as <-. reflexivity.
Qed.

(** ** Validation stage *)

(** X3. Validation accepts a ticker exactly when its normalised form is not
    empty, the one-day history request returns, and either that history has
    a row or the live quote carries a price above 0.  It always stores a
    boolean in [is_valid]; it adds no error when it accepts and exactly one
    when it rejects. *)
Theorem validate_ticker_outcome (gw : Gateway) (state : StockAgentState) :
  (exists b : bool, is_valid (validate_ticker gw state) = Some (Some b))
  /\ (passed_validation (validate_ticker gw state) = true
      <-> normalized_ticker state <> ""
          /\ exists n : nat,
               gw_history_1d gw (normalized_ticker state) = Ok n
               /\ ((0 < n)%nat
                   \/ exists (fi : FastInfo) (price : Q),
                        gw_fast_info gw (normalized_ticker state) = Ok fi
                        /\ fi_last_price fi = Ok (Some price)
                        /\ 0 < price))
  /\ (passed_validation (validate_ticker gw state) = true ->
      errors_of (validate_ticker gw state) = errors_of state)
  /\ (passed_validation (validate_ticker gw state) = false ->
      exists msg : string,
        errors_of (validate_ticker gw state) = (errors_of state ++ [msg])%list).
Proof.
  unfold validate_ticker, passed_validation.
  fold (normalized_ticker state).
  destruct (normalized_ticker state) as [| c tl] eqn:T; cbn [str_truthy negb].
  { split; [now exists false |]. split; [| split].
    - split; [discriminate | intros [H _]; now contradiction H].
    - discriminate.
    - intros _. eexists. reflexivity. }
  destruct (gw_history_1d gw (String c tl)) as [n | e] eqn:H1.
  2:{ split; [now exists false |]. split; [| split].
      - split; [discriminate | intros [_ [n [E _]]]; discriminate].
      - discriminate.
      - intros _. eexists. reflexivity. }
  destruct (0 <? n)%nat eqn:Pos.
  { apply Nat.ltb_lt in Pos. split; [now exists true |]. split; [| split].
    - split; [intros _ | reflexivity].
      split; [discriminate | exists n; split; [reflexivity | now left]].
    - intros _. reflexivity.
    - discriminate. }
  apply Nat.ltb_ge in Pos.
  assert (Quote :
    (match gw_fast_info gw (String c tl) with
     | Ok fi => match fi_last_price fi with
                | Ok (Some price) => Qgt_bool price 0
                | _ => false
                end
     | Raise _ => false
     end) = true
    <-> exists (fi : FastInfo) (price : Q),
          gw_fast_info gw (String c tl) = Ok fi
          /\ fi_last_price fi = Ok (Some price) /\ 0 < price).
  { destruct (gw_fast_info gw (String c tl)) as [fi | e].
    - destruct (fi_last_price fi) as [[p |] | e] eqn:P.
      + rewrite Qgt_bool_iff. split.
        * intros Hp. exists fi, p. auto.
        * intros [fi' [p' [E1 [E2 Hp]]]]. injection E1 as <-.
          rewrite P in E2. injection E2 as <-. exact Hp.
      + split; [discriminate |].
        intros [fi' [p' [E1 [E2 _]]]]. injection E1 as <-. congruence.
      + split; [discriminate |].
        intros [fi' [p' [E1 [E2 _]]]]. injection E1 as <-. congruence.
    - split; [discriminate | intros [fi' [p' [E1 _]]]; discriminate]. }
  destruct (match gw_fast_info gw (String c tl) with
            | Ok fi => _
            | Raise _ => false
            end) eqn:Q.
  - split; [now exists true |]. split; [| split].
    + split; [intros _ | reflexivity].
      split; [discriminate |]. exists n. split; [reflexivity |].
      right. now apply Quote.
    + intros _. reflexivity.
    + discriminate.
  - split; [now exists false |]. split; [| split].
    + split; [discriminate |].
      intros [_ [n' [E [Hn | Hq]]]]; injection E as <-; [lia |].
      apply Quote in Hq. discriminate.
    + discriminate.
    + intros _. eexists. reflexivity.
Qed.

Lemma validate_ticker_errors_when_accepted (gw : Gateway) (state : StockAgentState) :
  passed_validation (validate_ticker gw state) = true ->
  errors_of (validate_ticker gw state) = errors_of state.
Proof.
  unfold validate_ticker, passed_validation.
  destruct (negb (str_truthy _)); [discriminate |].
  destruct (gw_history_1d gw _) as [n | e]; [| discriminate].
  destruct (if (0 <? n)%nat then true else _); [reflexivity | discriminate].
Qed.

(** X2. Errors are only ever appended: when a run returns, the error list
    of the final state is the one of the initial state followed by at most
    two new messages (one from Validation, or one each from Acquisition and
    Indicators); Trend and Recommendation add none. *)
Theorem invoke_errors_append_only (gw : Gateway) (state final : StockAgentState) :
  invoke gw state = Ok final ->
  exists added : list string,
    added_errors state final added /\ (length added <= 2)%nat.
Proof.
  unfold added_errors.
  destruct (validate_ticker_errors gw state) as [av [Hv Lv]].
  unfold added_errors in Hv.
  destruct (passed_validation (validate_ticker gw state)) eqn:V.
  - rewrite invoke_valid.
    2:{ unfold passed_validation in V.
        destruct (is_valid (validate_ticker gw state)) as [[[|]|]|];
          try discriminate; reflexivity. }
    destruct (fetch_stock_data gw (validate_ticker gw state)) as [fetched | e] eqn:F;
      [| discriminate].
    cbn [bind]. intros G. apply generate_recommendation_errors in G.
    rewrite analyze_market_trend_errors in G.
    destruct (fetch_stock_data_errors _ _ F) as [af [Hf Lf]].
    destruct (calculate_technical_indicators_errors fetched) as [ac [Hc Lc]].
    unfold added_errors in Hf, Hc.
    exists (af ++ ac)%list. split.
    + rewrite G, Hc, Hf, (validate_ticker_errors_when_accepted _ _ V).
      now rewrite app_assoc.
    + rewrite length_app. lia.
  - rewrite invoke_invalid by exact V.
    intros G. apply generate_recommendation_errors in G.
    exists av. rewrite G, Hv. split; [reflexivity | lia].
Qed.

(** ** Acquisition stage *)

Lemma upper_empty (s : string) : upper s = "" -> s = "".
Proof. destruct s; [reflexivity | discriminate]. Qed.

Lemma or_str_nonempty (x : option string) (default : string) :
  default <> "" -> or_str x default <> "".
Proof.
  intros H. unfold or_str. destruct x as [[| c s] |]; cbn; try exact H.
  discriminate.
Qed.

(** X4. When the provider raises or returns no row, Acquisition returns the
    state with one message appended to the errors and nothing else changed:
    no quote snapshot and no price history are stored, and validity is
    kept. *)
Theorem fetch_stock_data_without_rows (gw : Gateway) (state : StockAgentState)
  (t : string) :
  ticker state = Some t ->
  (gw_download gw (upper t) = Ok []
   \/ exists e : string, gw_download gw (upper t) = Raise e) ->
  exists (fetched : StockAgentState) (msg : string),
    fetch_stock_data gw state = Ok fetched
    /\ errors_of fetched = (errors_of state ++ [msg])%list
    /\ stock_info fetched = stock_info state
    /\ historical_data fetched = historical_data state
    /\ technical_indicators fetched = technical_indicators state
    /\ trend fetched = trend state
    /\ is_valid fetched = is_valid state
    /\ ticker fetched = ticker state.
Proof.
  intros Ht Hd. unfold fetch_stock_data. rewrite Ht.
  destruct Hd as [-> | [e ->]]; do 2 eexists;
    (split; [reflexivity |]); (split; [reflexivity |]); repeat split; exact Ht.
Qed.

(** X5. When the provider returns at least one row, Acquisition stores the
    rows and a quote snapshot and adds no error.  The snapshot's symbol is
    the upper-cased ticker; its price is the live price when the provider
    gave a number, and the close of the last row when it gave none (a price
    of [None], or a read that raised); its currency is never empty, and its
    name is never empty for a non-empty ticker.  (A quote that is NaN is not
    a number and is not covered.) *)
Theorem fetch_stock_data_snapshot (gw : Gateway) (state : StockAgentState)
  (t : string) (b : PriceBar) (bs : list PriceBar) :
  ticker state = Some t ->
  gw_download gw (upper t) = Ok (b :: bs) ->
  exists (fetched : StockAgentState) (info : StockInfo),
    fetch_stock_data gw state = Ok fetched
    /\ stock_info fetched = Some info
    /\ option_map rows (historical_data fetched) = Some (b :: bs)
    /\ errors_of fetched = errors_of state
    /\ symbol info = upper t
    /\ (forall p : Q,
          quoted_price gw (upper t) = Some p -> current_price info = Some p)
    /\ (quoted_price gw (upper t) = None ->
        current_price info = Some (bar_close (last (b :: bs) b)))
    /\ currency info <> ""
    /\ (t <> "" -> long_name info <> "")
    /\ last_volume info = bar_volume (last (b :: bs) b)
    /\ analysis_time info = gw_now gw.
Proof.
  intros Ht Hd. unfold fetch_stock_data, quoted_price. rewrite Ht, Hd.
  destruct (read_fast_info (gw_fast_info gw (upper t))) as [[p m] c].
  destruct (match gw_info gw (upper t) with Ok _ => _ | Raise _ => _ end)
    as [[m' c'] ln].
  do 2 eexists. split; [reflexivity |].
  cbn [stock_info historical_data set_historical_data set_stock_info
       option_map rows symbol current_price currency long_name last_volume
       analysis_time fst].
  repeat split.
  - intros q ->. reflexivity.
  - intros ->. reflexivity.
  - apply or_str_nonempty. discriminate.
  - intros Hne. apply or_str_nonempty. intros E. apply upper_empty in E.
    contradiction.
Qed.

(** ** Indicator stage *)

Lemma nth_error_last {A : Type} (l : list A) (d : A) :
  l <> [] -> nth_error l (length l - 1) = Some (last l d).
Proof.
  induction l as [| x [| y tl] IH]; intros H.
  - contradiction.
  - reflexivity.
  - replace (length (x :: y :: tl) - 1)%nat with (S (length (y :: tl) - 1))
      by (cbn [length]; lia).
    cbn [nth_error]. change (last (x :: y :: tl) d) with (last (y :: tl) d).
    apply IH. discriminate.
Qed.

Lemma last_of_nth_error {A : Type} (l : list A) (d x : A) :
  l <> [] -> nth_error l (length l - 1) = Some x -> last l d = x.
Proof. intros H E. rewrite (nth_error_last d H) in E. congruence. Qed.

(** The rows of a moving average over a series of numbers. *)
Lemma sma_of_prices_nth (xs : list Q) (w i : nat) :
  (1 <= w)%nat -> (i < length xs)%nat ->
  nth_error (sma (of_prices xs) w) i
  = Some (if (w <=? S i)%nat
          then Some (Qsum (firstn w (skipn (S i - w) xs)) / inject_Z (Z.of_nat w))
          else None).
Proof.
  intros Hw Hi. unfold sma.
  rewrite rolling_mean_nth by (unfold of_prices; now rewrite length_map).
  cbv zeta. rewrite window_at_of_prices, observations_of_prices.
  rewrite length_firstn, length_skipn.
  destruct (w <=? S i)%nat eqn:E.
  - apply Nat.leb_le in E.
    replace (Nat.min (S i - (S i - w)) (length xs - (S i - w))) with w by lia.
    replace (S i - (S i - w))%nat with w by lia.
    rewrite Nat.leb_refl.
    replace (0 <? w)%nat with true by (symmetry; apply Nat.ltb_lt; lia).
    reflexivity.
  - apply Nat.leb_gt in E.
    replace (w <=? _)%nat with false; [reflexivity |].
    symmetry. apply Nat.leb_gt. lia.
Qed.

Lemma last_sma_of_prices (xs : list Q) (w : nat) :
  (1 <= w)%nat -> xs <> [] ->
  ((length xs < w)%nat -> last (sma (of_prices xs) w) None = None)
  /\ ((w <= length xs)%nat ->
      exists m : Q,
        last (sma (of_prices xs) w) None = Some m
        /\ m == mean_ending_at xs w (length xs - 1)).
Proof.
  intros Hw Hne.
  assert (Hlen : (0 < length xs)%nat) by (destruct xs; [contradiction | cbn; lia]).
  assert (Hs : length (sma (of_prices xs) w) = length xs).
  { unfold sma. rewrite rolling_mean_length. unfold of_prices. apply length_map. }
  assert (Hnn : sma (of_prices xs) w <> []).
  { intros E. rewrite E in Hs. cbn in Hs. lia. }
  pose proof (@sma_of_prices_nth xs w (length xs - 1) Hw ltac:(lia)) as Hn.
  rewrite <- Hs in Hn at 1.
  replace (S (length xs - 1)) with (length xs) in Hn by lia.
  split; intros H.
  - apply (last_of_nth_error None Hnn). rewrite Hn.
    replace (w <=? length xs)%nat with false; [reflexivity |].
    symmetry. apply Nat.leb_gt. lia.
  - eexists. split.
    + apply (last_of_nth_error None Hnn). rewrite Hn.
      replace (w <=? length xs)%nat with true; [reflexivity |].
      symmetry. apply Nat.leb_le. lia.
    + unfold mean_ending_at.
      replace (length xs - 1 + 1 - w)%nat with (length xs - w)%nat by lia.
      rewrite Qsum_slice by lia. reflexivity.
Qed.

Lemma last_of_prices (xs : list Q) (d : Q) :
  xs <> [] -> last (of_prices xs) None = Some (last xs d).
Proof.
  unfold of_prices. induction xs as [| x [| y tl] IH]; intros H.
  - contradiction.
  - reflexivity.
  - change (last (map (@Some Q) (x :: y :: tl)) None)
      with (last (map (@Some Q) (y :: tl)) None).
    change (last (x :: y :: tl) d) with (last (y :: tl) d).
    apply IH. discriminate.
Qed.

Lemma nth_of_prices (xs : list Q) (i : nat) (d : Q) :
  (i < length xs)%nat -> nth i (of_prices xs) None = Some (nth i xs d).
Proof.
  intros H. apply nth_error_nth. unfold of_prices.
  rewrite nth_error_map, (nth_error_nth' xs d H). reflexivity.
Qed.

(** Back-fill never changes the last row. *)
Lemma bfill_last (xs : series) : last (bfill xs) None = last xs None.
Proof.
  induction xs as [| x [| y tl] IH].
  - reflexivity.
  - destruct x; reflexivity.
  - remember (y :: tl) as rest eqn:R.
    assert (Hne : bfill rest <> []).
    { subst rest. cbn. destruct y; discriminate. }
    cbn [bfill].
    assert (Step : forall (h : option Q) (l : series),
               l <> [] -> last (h :: l) None = last l None).
    { intros h [| z l] Hl; [contradiction | reflexivity]. }
    destruct x as [v |]; rewrite Step by exact Hne; rewrite IH;
      subst rest; reflexivity.
Qed.

(** X6. With a non-empty price history the Indicator stage adds no error,
    attaches three columns with one entry per row to the history, and stores
    an indicator set read off the last row: the last close; the close
    before it when there are at least two rows, nothing otherwise; no short
    (long) average when there are fewer than 10 (20) rows; and no oscillator
    value when there are at most 14 rows. *)
Theorem calculate_technical_indicators_latest (state : StockAgentState)
  (hist : DataFrame) :
  historical_data state = Some hist ->
  rows hist <> [] ->
  exists (tech : IndicatorSet) (df : DataFrame),
    technical_indicators (calculate_technical_indicators state) = Some tech
    /\ historical_data (calculate_technical_indicators state) = Some df
    /\ rows df = rows hist
    /\ option_map (@length (option Q)) (col_SMA_SHORT df) = Some (length (rows hist))
    /\ option_map (@length (option Q)) (col_SMA_LONG df) = Some (length (rows hist))
    /\ option_map (@length (option Q)) (col_RSI df) = Some (length (rows hist))
    /\ errors_of (calculate_technical_indicators state) = errors_of state
    /\ last_close tech = Some (last (map bar_close (rows hist)) 0)
    /\ prev_close tech
       = (if (2 <=? length (rows hist))%nat
          then Some (nth (length (rows hist) - 2) (map bar_close (rows hist)) 0)
          else None)
    /\ ((length (rows hist) < config.SMA_SHORT)%nat -> sma_short tech = None)
    /\ ((length (rows hist) < config.SMA_LONG)%nat -> sma_long tech = None)
    /\ ((length (rows hist) <= config.RSI_PERIOD)%nat -> rsi_value tech = None).
Proof.
  intros Hh Hne. unfold calculate_technical_indicators.
  change (historical_data (_ensure_errors state)) with (historical_data state).
  rewrite Hh.
  destruct (rows hist) as [| b bs] eqn:R; [contradiction |].
  set (closes := map bar_close (b :: bs)).
  assert (Hc : closes <> []) by discriminate.
  assert (Hlen : length closes = length (b :: bs)) by apply length_map.
  assert (Hop : length (of_prices closes) = length closes)
    by (unfold of_prices; apply length_map).
  do 2 eexists. split; [reflexivity |]. split; [reflexivity |].
  cbn [technical_indicators set_technical_indicators sma_short sma_long
       rsi_value last_close prev_close rows col_SMA_SHORT col_SMA_LONG col_RSI
       option_map].
  unfold _to_float_or_none. rewrite Hop, Hlen.
  destruct (@last_sma_of_prices closes config.SMA_SHORT) as [S1 _];
    [unfold config.SMA_SHORT; lia | exact Hc |].
  destruct (@last_sma_of_prices closes config.SMA_LONG) as [L1 _];
    [unfold config.SMA_LONG; lia | exact Hc |].
  rewrite Hlen in S1, L1.
  split; [reflexivity |].
  split; [unfold sma; now rewrite rolling_mean_length, Hop, Hlen |].
  split; [unfold sma; now rewrite rolling_mean_length, Hop, Hlen |].
  split; [now rewrite rsi_length, Hop, Hlen |].
  split; [reflexivity |].
  split; [apply last_of_prices; exact Hc |].
  split.
  { destruct (2 <=? length (b :: bs))%nat eqn:E; [| reflexivity].
    apply Nat.leb_le in E. apply nth_of_prices. lia. }
  split; [exact S1 |]. split; [exact L1 |].
  intros Hshort. unfold rsi. rewrite bfill_last.
  assert (Hv : length (rsi_vals (of_prices closes) config.RSI_PERIOD) = length closes).
  { now rewrite rsi_vals_length. }
  apply last_of_nth_error.
  - intros E. rewrite E in Hv. cbn in Hv. cbn in Hlen. lia.
  - rewrite Hv. apply rsi_vals_leading; rewrite ?Hop, Hlen; cbn [length] in *; lia.
Qed.

(** ** Indicator engine: what back-fill can and cannot do *)

Lemma first_defined_skipn_none (xs : series) (k : nat) :
  first_defined xs = None -> first_defined (skipn k xs) = None.
Proof.
  revert xs. induction k as [| k IH]; intros xs H; [exact H |].
  destruct xs as [| [v |] tl]; cbn in *; [reflexivity | discriminate | auto].
Qed.

(** X7. Back-fill only fills upwards: the last row of the oscillator is the
    value computed on that row, and once a row is null every later row is
    null as well. *)
Theorem rsi_nulls_are_trailing (close : series) (period : nat) :
  last (rsi close period) None = last (rsi_vals close period) None
  /\ forall i j : nat,
       nth_error (rsi close period) i = Some None ->
       (i <= j)%nat -> (j < length close)%nat ->
       nth_error (rsi close period) j = Some None.
Proof.
  split; [unfold rsi; apply bfill_last |].
  intros i j Hi Hij Hj. unfold rsi in *.
  rewrite bfill_nth in Hi by (rewrite rsi_vals_length; lia).
  rewrite bfill_nth by (rewrite rsi_vals_length; lia).
  injection Hi as Hi. f_equal.
  replace j with ((j - i) + i)%nat by lia.
  rewrite <- skipn_skipn. now apply first_defined_skipn_none.
Qed.

(** ** Indicator engine: gains and losses *)

Lemma combine_nth_error {A B : Type} (l1 : list A) (l2 : list B) (k : nat)
  (a : A) (b : B) :
  nth_error l1 k = Some a -> nth_error l2 k = Some b ->
  nth_error (combine l1 l2) k = Some (a, b).
Proof.
  revert l2 k. induction l1 as [| x tl IH]; intros [| y l2] [| k] H1 H2;
    cbn in *; try discriminate.
  - congruence.
  - auto.
Qed.

Lemma diff_of_prices_nth (xs : list Q) (k : nat) :
  (S k < length xs)%nat ->
  nth_error (diff (of_prices xs)) (S k)
  = Some (Some (nth (S k) xs 0 - nth k xs 0)).
Proof.
  intros H. destruct xs as [| x tl]; [cbn in H; lia |].
  unfold of_prices. cbn [map diff nth_error].
  rewrite nth_error_map.
  rewrite (@combine_nth_error _ _ (map (@Some Q) tl) (Some x :: map (@Some Q) tl) k
             (Some (nth (S k) (x :: tl) 0)) (Some (nth k (x :: tl) 0))).
  - reflexivity.
  - rewrite nth_error_map. cbn [nth].
    rewrite (nth_error_nth' tl 0) by (cbn in H; lia). reflexivity.
  - change (Some x :: map (@Some Q) tl) with (map (@Some Q) (x :: tl)).
    rewrite nth_error_map.
    rewrite (nth_error_nth' (x :: tl) 0) by (cbn in *; lia). reflexivity.
Qed.


Lemma rsi_losses_nth (xs : list Q) (k : nat) :
  (S k < length xs)%nat ->
  nth_error (rsi_losses (of_prices xs)) (S k)
  = Some (Some (let d := nth (S k) xs 0 - nth k xs 0 in
                - (if Qle_bool d 0 then d else 0))).
Proof.
  intros Hk. unfold rsi_losses, clip_upper, series_neg.
  now rewrite !nth_error_map, (diff_of_prices_nth xs Hk).
Qed.

Lemma Qle_bool_cases (a b : Q) : if Qle_bool a b then a <= b else b < a.
Proof.
  destruct (Qle_bool a b) eqn:E; [now apply Qle_bool_iff |].
  apply Qnot_le_lt. rewrite <- Qle_bool_iff. congruence.
Qed.


(** ** Indicator engine: windows without a decline *)

Lemma window_at_rows (w i : nat) (xs : series) (e : option Q) :
  In e (window_at w i xs) ->
  exists k : nat, (S i - w <= k <= i)%nat /\ nth_error xs k = Some e.
Proof.
  unfold window_at. intros H.
  apply In_nth_error in H. destruct H as [j Hj].
  assert (Hlt : (j < S i - (S i - w))%nat).
  { destruct (le_lt_dec (S i - (S i - w)) j) as [G | L]; [| exact L].
    rewrite nth_error_firstn in Hj.
    apply Nat.ltb_ge in G. rewrite G in Hj. discriminate. }
  rewrite nth_error_firstn in Hj.
  replace (j <? S i - (S i - w))%nat with true in Hj
    by (symmetry; now apply Nat.ltb_lt).
  rewrite nth_error_skipn in Hj.
  exists (S i - w + j)%nat. split; [lia | exact Hj].
Qed.

Lemma observations_all_zero (win : series) :
  (forall e, In e win -> exists x : Q, e = Some x /\ x == 0) ->
  length (observations win) = length win /\ Qsum (observations win) == 0.
Proof.
  induction win as [| e tl IH]; intros H; [split; reflexivity |].
  destruct (H e (or_introl eq_refl)) as [x [-> Hx]].
  destruct IH as [L Hsum]; [intros e' He'; apply H; now right |].
  cbn [observations length Qsum fold_right]. split; [now rewrite L |].
  fold (Qsum (observations tl)). rewrite Hsum, Hx. reflexivity.
Qed.

(** A full window of zeros has mean zero. *)
Lemma rolling_mean_zero_window (w i : nat) (xs : series) :
  (1 <= w)%nat -> (w <= S i)%nat -> (i < length xs)%nat ->
  (forall k : nat, (S i - w <= k <= i)%nat ->
     exists x : Q, nth_error xs k = Some (Some x) /\ x == 0) ->
  exists m : Q,
    nth_error (rolling_mean w w xs) i = Some (Some m) /\ m == 0.
Proof.
  intros Hw Hi Hlen Hz. rewrite rolling_mean_nth by exact Hlen. cbv zeta.
  destruct (@observations_all_zero (window_at w i xs)) as [L Hsum].
  { intros e He. destruct (window_at_rows _ _ _ _ He) as [k [Hk Ek]].
    destruct (Hz k Hk) as [x [Ex Hx]]. exists x. split; [congruence | exact Hx]. }
  rewrite L, window_at_length by exact Hlen.
  replace (Nat.min w (S i)) with w by lia.
  rewrite Nat.leb_refl.
  replace (0 <? w)%nat with true by (symmetry; apply Nat.ltb_lt; lia).
  eexists. split; [reflexivity |]. rewrite Hsum. unfold Qdiv. ring.
Qed.

(** Without a decline among the last [period] changes the average loss of
    the last window is 0. *)
Lemma last_window_without_decline (xs : list Q) (period : nat) :
  (1 <= period)%nat ->
  (period + 1 <= length xs)%nat ->
  (forall k : nat, (length xs - period <= S k)%nat -> (S k < length xs)%nat ->
     nth k xs 0 <= nth (S k) xs 0) ->
  exists m : Q,
    nth_error (rsi_avg_loss (of_prices xs) period) (length xs - 1)
    = Some (Some m)
    /\ m == 0.
Proof.
  intros Hp Hlen Hup.
  assert (Hop : length (of_prices xs) = length xs)
    by (unfold of_prices; apply length_map).
  apply rolling_mean_zero_window; try lia.
  { rewrite rsi_losses_length, Hop. lia. }
  intros k Hk. destruct k as [| k]; [lia |].
  rewrite rsi_losses_nth by lia. cbv zeta.
  eexists. split; [reflexivity |].
  specialize (Hup k ltac:(lia) ltac:(lia)).
  pose proof (Qle_bool_cases (nth (S k) xs 0 - nth k xs 0) 0) as C.
  destruct (Qle_bool (nth (S k) xs 0 - nth k xs 0) 0); lra.
Qed.

Lemma last_rsi_of_zero_loss (close : series) (period : nat) (m : Q) :
  close <> [] ->
  nth_error (rsi_avg_loss close period) (length close - 1) = Some (Some m) ->
  m == 0 ->
  last (rsi close period) None = None.
Proof.
  intros Hne Hm Hz. unfold rsi. rewrite bfill_last.
  assert (Hv : length (rsi_vals close period) = length close)
    by apply rsi_vals_length.
  apply last_of_nth_error.
  - intros E. rewrite E in Hv. destruct close; [contradiction | discriminate].
  - rewrite Hv. exact (rsi_vals_zero_loss _ _ _ Hm Hz).
Qed.

(** X10. When none of the last [period] changes of the close is a decline,
    the average loss of the last window is 0 and the last row of the
    oscillator is undefined, whatever the length of the series and however
    far it fell before. *)
Theorem rsi_undefined_without_decline (xs : list Q) (period : nat) :
  (1 <= period)%nat ->
  (period + 1 <= length xs)%nat ->
  (forall k : nat, (length xs - period <= S k)%nat -> (S k < length xs)%nat ->
     nth k xs 0 <= nth (S k) xs 0) ->
  last (rsi (of_prices xs) period) None = None
  /\ last (rsi_vals (of_prices xs) period) None = None.
Proof.
  intros Hp Hlen Hup.
  destruct (last_window_without_decline xs Hp Hlen Hup) as [m [Hm Hz]].
  assert (Hop : length (of_prices xs) = length xs)
    by (unfold of_prices; apply length_map).
  assert (Hne : of_prices xs <> []).
  { intros E. rewrite E in Hop. cbn in Hop. lia. }
  rewrite <- Hop in Hm.
  pose proof (@last_rsi_of_zero_loss _ _ _ Hne Hm Hz) as L.
  split; [exact L |]. unfold rsi in L. now rewrite bfill_last in L.
Qed.

(** ** Trend stage and the decision *)

(** The Trend stage writes [trend] (and the error list it normalises) and
    nothing else. *)
Lemma analyze_market_trend_frame (state : StockAgentState) :
  technical_indicators (analyze_market_trend state) = technical_indicators state
  /\ stock_info (analyze_market_trend state) = stock_info state
  /\ historical_data (analyze_market_trend state) = historical_data state
  /\ is_valid (analyze_market_trend state) = is_valid state
  /\ ticker (analyze_market_trend state) = ticker state.
Proof.
  unfold analyze_market_trend.
  destruct (match tech_get last_close _, tech_get sma_short _, tech_get sma_long _ with
            | Some p, Some s, Some l => _
            | _, _, _ => _
            end) as [st pv].
  repeat split.
Qed.

Lemma recommendation_after_trend (state : StockAgentState) :
  recommendation (analyze_market_trend state) = recommendation state.
Proof.
  destruct (analyze_market_trend_frame state) as [Ht [Hi _]].
  unfold recommendation, effective_price, tech_get. now rewrite Ht, Hi.
Qed.

(** The labels the Trend stage stores, by cases on what it reads. *)
Lemma analyze_market_trend_labels (state : StockAgentState) :
  trend (analyze_market_trend state)
  = Some
      {| short_term :=
           match tech_get last_close state, tech_get sma_short state,
                 tech_get sma_long state with
           | Some p, Some s, Some l =>
               if Qgt_bool s l && Qgt_bool p s then "BULLISH ↗"
               else if Qlt_bool s l && Qlt_bool p s then "BEARISH ↘"
               else "NEUTRAL →"
           | _, _, _ => "NEUTRAL"
           end;
         price_vs_sma :=
           match tech_get last_close state, tech_get sma_short state,
                 tech_get sma_long state with
           | Some p, Some s, Some l =>
               if Qgt_bool p s && Qgt_bool p l then "Above both moving averages"
               else if Qlt_bool p s && Qlt_bool p l then "Below both moving averages"
               else "center both moving averages"
           | _, _, _ => "Không xác định"
           end;
         momentum :=
           match tech_get prev_close state, tech_get last_close state with
           | Some pc, Some p => if Qge_bool p pc then "POSITIVE" else "NEGATIVE"
           | _, _ => "NEUTRAL"
           end;
         notes :=
           match tech_get rsi_value state with
           | Some r =>
               if Qgt_bool r 70 then "RSI indicates overbought conditions"
               else if Qlt_bool r 30 then "RSI indicates oversale conditions"
               else ""
           | None => ""
           end |}.
Proof.
  unfold analyze_market_trend.
  change (tech_get last_close (_ensure_errors state)) with (tech_get last_close state).
  change (tech_get prev_close (_ensure_errors state)) with (tech_get prev_close state).
  change (tech_get sma_short (_ensure_errors state)) with (tech_get sma_short state).
  change (tech_get sma_long (_ensure_errors state)) with (tech_get sma_long state).
  change (tech_get rsi_value (_ensure_errors state)) with (tech_get rsi_value state).
  destruct (tech_get last_close state) as [p |];
    destruct (tech_get sma_short state) as [s |];
    destruct (tech_get sma_long state) as [l |];
    destruct (tech_get rsi_value state) as [r |];
    cbn [trend set_trend]; repeat f_equal;
    try (destruct (Qgt_bool r 70); [reflexivity |];
         destruct (Qlt_bool r 30); reflexivity).
Qed.

Lemma decide_buy_inv (cp s10 s20 rv : option Q) :
  fst (decide cp s10 s20 rv) = BUY ->
  exists p s l r : Q,
    cp = Some p /\ s10 = Some s /\ s20 = Some l /\ rv = Some r
    /\ buy_condition p s l r = true.
Proof.
  destruct cp as [p |], s10 as [s |], s20 as [l |], rv as [r |];
    cbn [decide fst]; try discriminate.
  destruct (buy_condition p s l r) eqn:B.
  - intros _. exists p, s, l, r. auto.
  - destruct (sell_condition p s l r); discriminate.
Qed.

Lemma decide_sell_inv (cp s10 s20 rv : option Q) :
  fst (decide cp s10 s20 rv) = SELL ->
  exists p s l r : Q,
    cp = Some p /\ s10 = Some s /\ s20 = Some l /\ rv = Some r
    /\ sell_condition p s l r = true.
Proof.
  destruct cp as [p |], s10 as [s |], s20 as [l |], rv as [r |];
    cbn [decide fst]; try discriminate.
  destruct (buy_condition p s l r); [discriminate |].
  destruct (sell_condition p s l r) eqn:S'; [| discriminate].
  intros _. exists p, s, l, r. auto.
Qed.

Ltac bool_to_Q :=
  unfold Qgt_bool, Qlt_bool, Qge_bool;
  repeat match goal with
    | |- context [Qle_bool ?a ?b] =>
        let H := fresh "C" in
        pose proof (Qle_bool_cases a b) as H;
        destruct (Qle_bool a b); cbn [negb andb]
    end.

(** X11. How the decision and the trend labels go together.  A BUY is
    never reported with an overbought or oversold note nor with a bearish
    direction, and when the price used is the last close it comes with a
    bullish direction above both averages.  A SELL always carries the
    overbought note and never a bearish direction: when the price used is
    the last close its direction is neutral, below both averages. *)
Theorem decision_and_trend_labels (state : StockAgentState) :
  exists t : TrendAssessment,
    trend (analyze_market_trend state) = Some t
    /\ (fst (recommendation (analyze_market_trend state)) = BUY ->
        notes t = ""
        /\ short_term t <> "BEARISH ↘"
        /\ (effective_price state = tech_get last_close state ->
            short_term t = "BULLISH ↗"
            /\ price_vs_sma t = "Above both moving averages"))
    /\ (fst (recommendation (analyze_market_trend state)) = SELL ->
        notes t = "RSI indicates overbought conditions"
        /\ short_term t <> "BEARISH ↘"
        /\ (effective_price state = tech_get last_close state ->
            short_term t = "NEUTRAL →"
            /\ price_vs_sma t = "Below both moving averages")).
Proof.
  eexists. split; [apply analyze_market_trend_labels |].
  rewrite recommendation_after_trend. unfold recommendation.
  cbn [notes short_term price_vs_sma].
  split; intros D.
  - apply decide_buy_inv in D.
    destruct D as [p [s [l [r [Ep [Es [El [Er B]]]]]]]].
    apply buy_condition_iff in B. destruct B as [[B1 B2] [B3 B4]].
    rewrite Es, El, Er.
    split; [| split].
    + bool_to_Q; try reflexivity; exfalso; lra.
    + destruct (tech_get last_close state) as [p' |]; [| discriminate].
      bool_to_Q; try discriminate; exfalso; lra.
    + intros E. rewrite <- E, Ep.
      split; bool_to_Q; try reflexivity; exfalso; lra.
  - apply decide_sell_inv in D.
    destruct D as [p [s [l [r [Ep [Es [El [Er S']]]]]]]].
    apply sell_condition_iff in S'. destruct S' as [[S1 S2] S3].
    rewrite Es, El, Er.
    split; [| split].
    + bool_to_Q; try reflexivity; exfalso; lra.
    + destruct (tech_get last_close state) as [p' |]; [| discriminate].
      bool_to_Q; try discriminate; exfalso; lra.
    + intros E. rewrite <- E, Ep.
      split; bool_to_Q; try reflexivity; exfalso; lra.
Qed.

(** X12. The labels of the Trend stage when price and both averages are
    present: bullish exactly when price > short average > long average,
    bearish exactly when price < short average < long average; above
    (below) both averages exactly when the price exceeds (is under) both.
    A bullish direction therefore always comes with a price above both
    averages and a bearish one with a price below both. *)
Theorem trend_direction_labels (state : StockAgentState) (p s l : Q) :
  tech_get last_close state = Some p ->
  tech_get sma_short state = Some s ->
  tech_get sma_long state = Some l ->
  exists t : TrendAssessment,
    trend (analyze_market_trend state) = Some t
    /\ (short_term t = "BULLISH ↗" <-> l < s /\ s < p)
    /\ (short_term t = "BEARISH ↘" <-> s < l /\ p < s)
    /\ (price_vs_sma t = "Above both moving averages" <-> s < p /\ l < p)
    /\ (price_vs_sma t = "Below both moving averages" <-> p < s /\ p < l)
    /\ (short_term t = "BULLISH ↗" ->
        price_vs_sma t = "Above both moving averages")
    /\ (short_term t = "BEARISH ↘" ->
        price_vs_sma t = "Below both moving averages").
Proof.
  intros Hp Hs Hl. eexists. split; [apply analyze_market_trend_labels |].
  rewrite Hp, Hs, Hl. cbn [short_term price_vs_sma].
  bool_to_Q;
    repeat split; intros; try discriminate; try reflexivity;
    try (exfalso; lra);
    repeat match goal with H : _ /\ _ |- _ => destruct H end;
    try lra; exfalso; lra.
Qed.

(** ** Too little history *)

Lemma calculate_without_rows (state : StockAgentState) :
  (forall hist, historical_data state = Some hist -> rows hist = []) ->
  technical_indicators (calculate_technical_indicators state)
  = technical_indicators state
  /\ stock_info (calculate_technical_indicators state) = stock_info state.
Proof.
  intros H. unfold calculate_technical_indicators.
  change (historical_data (_ensure_errors state)) with (historical_data state).
  destruct (historical_data state) as [hist |]; [| split; reflexivity].
  rewrite (H hist eq_refl). split; reflexivity.
Qed.

Lemma calculate_sma_long (state : StockAgentState) (hist : DataFrame) :
  historical_data state = Some hist -> rows hist <> [] ->
  tech_get sma_long (calculate_technical_indicators state)
  = last (sma (of_prices (map bar_close (rows hist))) config.SMA_LONG) None
  /\ stock_info (calculate_technical_indicators state) = stock_info state.
Proof.
  intros Hh Hne. unfold calculate_technical_indicators.
  change (historical_data (_ensure_errors state)) with (historical_data state).
  rewrite Hh. destruct (rows hist) as [| b bs]; [contradiction |].
  split; reflexivity.
Qed.

Lemma decide_without_long_average (cp s10 rv : option Q) :
  decide cp s10 None rv = (HOLD, [reason_insufficient_data]).
Proof. destruct cp, s10; reflexivity. Qed.

(** X13. With fewer than 20 rows of history (or none) and no indicator set
    stored earlier, the Indicator and Trend stages leave the long average
    missing, so the decision is HOLD for insufficient indicator data,
    whatever the quote says. *)
Theorem too_little_history_means_hold (state : StockAgentState) :
  technical_indicators state = None ->
  (forall hist, historical_data state = Some hist ->
                (length (rows hist) < config.SMA_LONG)%nat) ->
  recommendation (analyze_market_trend (calculate_technical_indicators state))
  = (HOLD, [reason_insufficient_data]).
Proof.
  intros Hfresh Hshort. rewrite recommendation_after_trend.
  unfold recommendation.
  assert (L : tech_get sma_long (calculate_technical_indicators state) = None).
  { destruct (historical_data state) as [hist |] eqn:Hh.
    - destruct (rows hist) as [| b bs] eqn:R.
      + destruct (calculate_without_rows state) as [E _].
        { intros h Eh. rewrite Hh in Eh. injection Eh as <-. exact R. }
        unfold tech_get. now rewrite E, Hfresh.
      + destruct (@calculate_sma_long state hist Hh) as [E _];
          [rewrite R; discriminate |].
        rewrite E.
        destruct (@last_sma_of_prices (map bar_close (rows hist)) config.SMA_LONG)
          as [S1 _]; [unfold config.SMA_LONG; lia | rewrite R; discriminate |].
        apply S1. rewrite length_map. now apply Hshort.
    - destruct (calculate_without_rows state) as [E _];
        [intros h Eh; rewrite Hh in Eh; discriminate |].
      unfold tech_get. now rewrite E, Hfresh. }
  rewrite L. apply decide_without_long_average.
Qed.

(** ** A report is always produced *)

Lemma generate_recommendation_total (now : string) (state : StockAgentState) :
  (forall mc : Z, info_get market_cap None state = Some mc -> (mc < 2 ^ 1000)%Z) ->
  exists (final : StockAgentState) (r : string),
    generate_recommendation now state = Ok final /\ report final = Some r.
Proof.
  intros Hcap. unfold generate_recommendation.
  destruct (is_invalid (_ensure_errors state)); [do 2 eexists; split; reflexivity |].
  unfold report_lines.
  change (info_get market_cap None (_ensure_errors state))
    with (info_get market_cap None state).
  destruct (info_get market_cap None state) as [mc |] eqn:M.
  - destruct (@format_market_cap_total mc
                (info_get currency "USD" (_ensure_errors state))) as [out E];
      [now apply Hcap |].
    rewrite E. do 2 eexists. split; reflexivity.
  - do 2 eexists. split; reflexivity.
Qed.

Lemma fetch_market_cap_bounded (gw : Gateway) (state fetched : StockAgentState)
  (bound : Z) :
  provider_caps_below gw bound ->
  fetch_stock_data gw state = Ok fetched ->
  (forall mc : Z, info_get market_cap None state = Some mc -> (mc < bound)%Z) ->
  forall mc : Z, info_get market_cap None fetched = Some mc -> (mc < bound)%Z.
Proof.
  intros [Hfast Hinfo] F Hold. unfold fetch_stock_data in F.
  destruct (ticker state) as [t |]; [| discriminate].
  destruct (gw_download gw (upper t)) as [[| b bs] | e];
    [injection F as <-; exact Hold | | injection F as <-; exact Hold].
  assert (Fast : forall m : pynum,
             snd (fst (read_fast_info (gw_fast_info gw (upper t)))) = Some m ->
             (int_of_pynum m < bound)%Z).
  { unfold read_fast_info.
    destruct (gw_fast_info gw (upper t)) as [fi | e] eqn:FI; [| discriminate].
    destruct (fi_last_price fi) as [p | e]; [| discriminate].
    destruct (fi_market_cap fi) as [m0 | e] eqn:FM; [| discriminate].
    destruct (fi_currency fi) as [c | e]; cbn [fst snd];
      intros m E; subst m0; eapply Hfast; eauto. }
  destruct (read_fast_info (gw_fast_info gw (upper t))) as [[p m0] c].
  cbn [fst snd] in Fast.
  destruct (gw_info gw (upper t)) as [ci | e] eqn:I;
    injection F as <-;
    cbn [info_get stock_info set_historical_data set_stock_info market_cap];
    intros mc E.
  - destruct m0 as [m |]; cbn [_is_missing option_map] in E.
    + injection E as <-. now apply Fast.
    + destruct (ci_marketCap ci) as [m |] eqn:C; [| discriminate].
      injection E as <-. eapply Hinfo; eauto.
  - destruct m0 as [m |]; [| discriminate].
    injection E as <-. now apply Fast.
Qed.

Lemma fetch_stock_data_returns (gw : Gateway) (state : StockAgentState) (t : string) :
  ticker state = Some t ->
  exists fetched : StockAgentState, fetch_stock_data gw state = Ok fetched.
Proof.
  intros Ht. unfold fetch_stock_data. rewrite Ht.
  destruct (gw_download gw (upper t)) as [[| b bs] | e]; eauto.
  destruct (read_fast_info _) as [[p m] c].
  destruct (match gw_info gw (upper t) with Ok _ => _ | Raise _ => _ end)
    as [[m' c'] ln].
  eauto.
Qed.

Lemma calculate_stock_info (state : StockAgentState) :
  stock_info (calculate_technical_indicators state) = stock_info state.
Proof.
  unfold calculate_technical_indicators.
  destruct (historical_data (_ensure_errors state)) as [hist |]; [| reflexivity].
  destruct (rows hist); reflexivity.
Qed.

(** X14. Started from a ticker alone, a run always returns a report, for
    every ticker and every behaviour of the provider (rows or none, quotes
    or none, exceptions), as long as the market capitalisations it reports
    are below [2^1000]: [run_agent] never falls back to its
    no-report-generated text and no stage raises. *)
Theorem report_always_produced (gw : Gateway) (t : string) :
  provider_caps_below gw (2 ^ 1000) ->
  exists (final : StockAgentState) (r : string),
    invoke gw (initial_state t) = Ok final
    /\ report final = Some r
    /\ run_agent gw t = Ok r.
Proof.
  intros Hcaps.
  assert (Run : exists (final : StockAgentState) (r : string),
             invoke gw (initial_state t) = Ok final /\ report final = Some r).
  { destruct (validate_ticker_frame gw (initial_state t)) as [Ht [Hi _]].
    destruct (passed_validation (validate_ticker gw (initial_state t))) eqn:V.
    - rewrite invoke_valid.
      2:{ unfold passed_validation in V.
          destruct (is_valid (validate_ticker gw (initial_state t))) as [[[|]|]|];
            try discriminate; reflexivity. }
      destruct (@fetch_stock_data_returns gw (validate_ticker gw (initial_state t)) t Ht)
        as [fetched F].
      rewrite F. cbn [bind].
      apply generate_recommendation_total. intros mc E.
      apply (@fetch_market_cap_bounded gw _ fetched _ Hcaps F).
      + unfold info_get. rewrite Hi. discriminate.
      + destruct (analyze_market_trend_frame (calculate_technical_indicators fetched))
          as [_ [Hs _]].
        unfold info_get in *. now rewrite Hs, calculate_stock_info in E.
    - rewrite invoke_invalid by exact V.
      apply generate_recommendation_total.
      unfold info_get. rewrite Hi. discriminate. }
  destruct Run as [final [r [E R]]]. exists final, r.
  split; [exact E |]. split; [exact R |].
  unfold run_agent. rewrite E. cbn [bind]. now rewrite R.
Qed.

(** ** Printing integers *)

Lemma commas_rev_filter (ds : list ascii) (k : nat) :
  filter not_comma (commas_rev ds k) = filter not_comma ds.
Proof.
  revert k. induction ds as [| d tl IH]; intros k; [reflexivity |].
  cbn [commas_rev]. destruct (k =? 3)%nat.
  - cbn [filter]. change (not_comma ",") with false. cbv iota.
    destruct (not_comma d); now rewrite IH.
  - cbn [filter]. destruct (not_comma d); now rewrite IH.
Qed.

Lemma filter_all {A : Type} (f : A -> bool) (l : list A) :
  forallb f l = true -> filter f l = l.
Proof.
  induction l as [| x tl IH]; cbn; [reflexivity |].
  intros H. apply andb_true_iff in H. destruct H as [Hx Ht].
  now rewrite Hx, IH.
Qed.

Lemma digits_are_digits (u : Decimal.uint) :
  forallb is_digit (list_ascii_of_string (NilEmpty.string_of_uint u)) = true.
Proof. induction u; cbn; auto. Qed.

Lemma digits_of_N_digits (n : N) :
  forallb is_digit (list_ascii_of_string (digits_of_N n)) = true.
Proof.
  unfold digits_of_N, NilZero.string_of_uint.
  destruct (N.to_uint n); try apply digits_are_digits. reflexivity.
Qed.

Lemma digit_not_comma (c : ascii) : is_digit c = true -> not_comma c = true.
Proof.
  unfold not_comma. destruct (Ascii.eqb c ",") eqn:E; [| reflexivity].
  apply Ascii.eqb_eq in E. subst c. discriminate.
Qed.

Lemma forallb_impl {A : Type} (f g : A -> bool) (l : list A) :
  (forall x, f x = true -> g x = true) ->
  forallb f l = true -> forallb g l = true.
Proof.
  intros H. induction l as [| x tl IH]; cbn; [reflexivity |].
  intros E. apply andb_true_iff in E. destruct E as [Hx Ht].
  now rewrite (H x Hx), IH.
Qed.

(** Dropping the separators of a grouped number gives its digits back. *)
Lemma remove_commas_group (n : N) :
  remove_commas (group_thousands (digits_of_N n)) = digits_of_N n.
Proof.
  unfold remove_commas, group_thousands.
  rewrite list_ascii_of_string_of_list_ascii.
  rewrite filter_rev, commas_rev_filter, <- filter_rev, rev_involutive.
  rewrite filter_all.
  - apply string_of_list_ascii_of_string.
  - eapply forallb_impl; [apply digit_not_comma | apply digits_of_N_digits].
Qed.

Lemma read_digits_group (n : N) :
  read_digits (group_thousands (digits_of_N n)) = Some (Z.of_N n).
Proof.
  unfold read_digits. rewrite remove_commas_group. unfold digits_of_N.
  rewrite NilZero.usu.
  - cbn [option_map]. now rewrite DecimalN.Unsigned.of_to.
  - destruct n as [| p]; [discriminate |].
    apply DecimalPos.Unsigned.to_uint_nonnil.
Qed.

Lemma group_thousands_head (n : N) :
  exists (c : ascii) (rest : string),
    group_thousands (digits_of_N n) = String c rest /\ c <> "-"%char.
Proof.
  assert (All : forallb (fun c => is_digit c || Ascii.eqb c ",")
                  (list_ascii_of_string (group_thousands (digits_of_N n))) = true).
  { unfold group_thousands. rewrite list_ascii_of_string_of_list_ascii.
    rewrite forallb_forall. intros c Hc. apply in_rev in Hc.
    pose proof (digits_of_N_digits n) as D. rewrite forallb_forall in D.
    assert (Gen : forall ds k, (forall x, In x ds -> is_digit x = true) ->
                   forall x, In x (commas_rev ds k) ->
                             is_digit x || Ascii.eqb x "," = true).
    { induction ds as [| d tl IH]; intros k Hd x Hx; [contradiction |].
      cbn [commas_rev] in Hx.
      assert (Dd : is_digit d = true) by (apply Hd; now left).
      assert (Ht : forall y, In y tl -> is_digit y = true)
        by (intros y Hy; apply Hd; now right).
      destruct (k =? 3)%nat; cbn [In] in Hx.
      - destruct Hx as [<- | [<- | Hx]]; [reflexivity | now rewrite Dd | eauto].
      - destruct Hx as [<- | Hx]; [now rewrite Dd | eauto]. }
    apply (Gen _ 0%nat) in Hc; [exact Hc |].
    intros x Hx. apply D. now apply in_rev. }
  destruct (group_thousands (digits_of_N n)) as [| c rest] eqn:G.
  - exfalso.
    pose proof (read_digits_group n) as R. rewrite G in R. discriminate.
  - exists c, rest. split; [reflexivity |]. intros ->.
    cbn in All. discriminate.
Qed.

Lemma remove_commas_append (a b : string) :
  remove_commas (a ++ b) = remove_commas a ++ remove_commas b.
Proof.
  unfold remove_commas.
  assert (L : forall x y, list_ascii_of_string (x ++ y)
                          = (list_ascii_of_string x ++ list_ascii_of_string y)%list).
  { induction x as [| c tl IH]; intros y; cbn; [reflexivity | now rewrite IH]. }
  assert (S' : forall x y, string_of_list_ascii (x ++ y)%list
                           = string_of_list_ascii x ++ string_of_list_ascii y).
  { induction x as [| c tl IH]; intros y; cbn; [reflexivity | now rewrite IH]. }
  now rewrite L, filter_app, S'.
Qed.

Lemma format_int_grouped_reads_back_aux (z : Z) :
  read_grouped_int (format_int_grouped z) = Some z.
Proof.
  unfold format_int_grouped.
  destruct (z <? 0)%Z eqn:Neg; cbn [sign_prefix append].
  - apply Z.ltb_lt in Neg. cbn [read_grouped_int].
    rewrite read_digits_group. cbn [option_map]. f_equal.
    rewrite N2Z.inj_abs_N. lia.
  - apply Z.ltb_ge in Neg.
    destruct (group_thousands_head (Z.abs_N z)) as [c [rest [G Hc]]].
    unfold read_grouped_int. rewrite G.
    assert (R : read_digits (String c rest) = Some z).
    { rewrite <- G, read_digits_group. f_equal. rewrite N2Z.inj_abs_N. lia. }
    rewrite <- R.
    destruct c as [[] [] [] [] [] [] [] []]; try reflexivity.
    contradiction Hc. reflexivity.
Qed.

(** X16. An integer printed with thousands separators reads back as the
    same integer, and dropping the separators leaves the sign and the
    decimal digits of its magnitude: the separators are the only thing the
    grouping adds. *)
Theorem format_int_grouped_reads_back (z : Z) :
  read_grouped_int (format_int_grouped z) = Some z
  /\ remove_commas (format_int_grouped z)
     = sign_prefix (z <? 0)%Z ++ digits_of_N (Z.abs_N z).
Proof.
  split; [apply format_int_grouped_reads_back_aux |].
  unfold format_int_grouped.
  rewrite remove_commas_append, remove_commas_group.
  destruct (z <? 0)%Z; reflexivity.
Qed.

(** ** Normalising the ticker *)

Lemma upper_char_idempotent (c : ascii) : upper_char (upper_char c) = upper_char c.
Proof. destruct c as [[] [] [] [] [] [] [] []]; reflexivity. Qed.

Lemma upper_char_space (c : ascii) : is_space (upper_char c) = is_space c.
Proof. destruct c as [[] [] [] [] [] [] [] []]; reflexivity. Qed.

Lemma upper_as_map (s : string) :
  upper s = string_of_list_ascii (map upper_char (list_ascii_of_string s)).
Proof. induction s as [| c tl IH]; cbn; [reflexivity | now rewrite IH]. Qed.

Lemma lstrip_as_list (s : string) :
  lstrip s = string_of_list_ascii (drop_spaces (list_ascii_of_string s)).
Proof.
  induction s as [| c tl IH]; [reflexivity |].
  cbn [lstrip list_ascii_of_string drop_spaces].
  destruct (is_space c); [exact IH |].
  cbn. now rewrite string_of_list_ascii_of_string.
Qed.

Lemma strip_as_list (s : string) :
  strip s
  = string_of_list_ascii
      (rev (drop_spaces (rev (drop_spaces (list_ascii_of_string s))))).
Proof.
  unfold strip, string_rev.
  now rewrite !lstrip_as_list, !list_ascii_of_string_of_list_ascii.
Qed.

Lemma drop_spaces_map_upper (l : list ascii) :
  drop_spaces (map upper_char l) = map upper_char (drop_spaces l).
Proof.
  induction l as [| c tl IH]; [reflexivity |].
  cbn [map drop_spaces]. rewrite upper_char_space.
  destruct (is_space c); [exact IH | reflexivity].
Qed.

Lemma drop_spaces_idempotent (l : list ascii) :
  drop_spaces (drop_spaces l) = drop_spaces l.
Proof.
  induction l as [| c tl IH]; [reflexivity |].
  cbn [drop_spaces]. destruct (is_space c) eqn:E; [exact IH |].
  cbn [drop_spaces]. now rewrite E.
Qed.

Lemma drop_spaces_snoc (l : list ascii) (c : ascii) :
  is_space c = false -> drop_spaces (l ++ [c]) = (drop_spaces l ++ [c])%list.
Proof.
  intros Hc. induction l as [| d tl IH]; cbn [app drop_spaces].
  - now rewrite Hc.
  - destruct (is_space d); [exact IH | reflexivity].
Qed.

(** Trimming both ends leaves nothing to trim at the front. *)
Lemma drop_spaces_after_trim (l : list ascii) :
  drop_spaces (rev (drop_spaces (rev (drop_spaces l))))
  = rev (drop_spaces (rev (drop_spaces l))).
Proof.
  destruct (drop_spaces l) as [| c tl] eqn:D; [reflexivity |].
  assert (Hc : is_space c = false).
  { clear -D. induction l as [| d l' IH]; [discriminate |].
    cbn [drop_spaces] in D. destruct (is_space d) eqn:E; [auto |].
    injection D as -> _. exact E. }
  cbn [rev]. rewrite drop_spaces_snoc by exact Hc.
  rewrite rev_app_distr. cbn [rev app drop_spaces]. now rewrite Hc.
Qed.

Lemma strip_idempotent (s : string) : strip (strip s) = strip s.
Proof.
  rewrite (strip_as_list (strip s)), (strip_as_list s).
  rewrite list_ascii_of_string_of_list_ascii.
  rewrite drop_spaces_after_trim, rev_involutive, drop_spaces_after_trim.
  reflexivity.
Qed.

Lemma strip_upper (s : string) : strip (upper s) = upper (strip s).
Proof.
  rewrite strip_as_list, (upper_as_map (strip s)), strip_as_list, upper_as_map.
  rewrite !list_ascii_of_string_of_list_ascii.
  now rewrite drop_spaces_map_upper, <- map_rev, drop_spaces_map_upper, <- map_rev.
Qed.

Lemma upper_idempotent (s : string) : upper (upper s) = upper s.
Proof.
  induction s as [| c tl IH]; cbn; [reflexivity |].
  now rewrite upper_char_idempotent, IH.
Qed.

(** X17. Normalising a ticker twice is the same as normalising it once, so
    Validation returns the same validity and the same errors for a ticker
    and for its trimmed, upper-cased form. *)
Theorem validation_ignores_case_and_padding (gw : Gateway) (t : string) :
  upper (strip (upper (strip t))) = upper (strip t)
  /\ is_valid (validate_ticker gw (initial_state (upper (strip t))))
     = is_valid (validate_ticker gw (initial_state t))
  /\ errors (validate_ticker gw (initial_state (upper (strip t))))
     = errors (validate_ticker gw (initial_state t)).
Proof.
  assert (N : upper (strip (upper (strip t))) = upper (strip t)).
  { now rewrite strip_upper, strip_idempotent, upper_idempotent. }
  split; [exact N |].
  unfold validate_ticker. cbn [ticker initial_state]. rewrite N.
  destruct (negb (str_truthy (upper (strip t)))); [split; reflexivity |].
  destruct (gw_history_1d gw (upper (strip t))) as [n | e]; [| split; reflexivity].
  destruct (if (0 <? n)%nat then true else _); split; reflexivity.
Qed.

(** ** A market capitalisation too large for a float *)

Lemma round_binary64_overflow (n d : Z) :
  (0 < n)%Z -> (0 < d)%Z -> Qpow2 1024 <= n # Z.to_pos d ->
  round_binary64 n d = None.
Proof.
  intros Hn Hd Hbig. unfold round_binary64.
  destruct (log2_ratio_spec Hn Hd) as [Hlo Hup].
  set (e := log2_ratio n d) in *. set (x := n # Z.to_pos d) in *.
  assert (He : (1024 <= e)%Z).
  { destruct (Z_lt_le_dec e 1024) as [L | G]; [exfalso | exact G].
    assert (Qpow2 (e + 1) <= Qpow2 1024) by (apply Qpow2_mono; lia). lra. }
  replace (Z.max e (-1022)) with e by lia.
  pose proof (Qpow2_pos (e - 52)) as HP.
  assert (Split : Qpow2 e == Qpow2 52 * Qpow2 (e - 52)).
  { rewrite <- Qpow2_add. now replace (52 + (e - 52))%Z with e by lia. }
  assert (Hq : inject_Z (2 ^ 52) <= x / Qpow2 (e - 52)).
  { apply Qle_shift_div_l; [exact HP |].
    rewrite <- (Qpow2_nonneg_exp (e := 52)) by lia. lra. }
  apply round_half_even_at_least in Hq.
  set (m := round_half_even (x / Qpow2 (e - 52))) in *.
  replace (Qle_bool (Qpow2 1024) (inject_Z m * Qpow2 (e - 52))) with true;
    [reflexivity |].
  symmetry. apply Qle_bool_iff.
  assert (Hm : inject_Z (2 ^ 52) <= inject_Z m) by (now rewrite <- Zle_Qle).
  rewrite <- (Qpow2_nonneg_exp (e := 52)) in Hm by lia.
  assert (Qpow2 1024 <= Qpow2 e) by (apply Qpow2_mono; lia).
  assert (Qpow2 52 * Qpow2 (e - 52) <= inject_Z m * Qpow2 (e - 52)).
  { apply Qmult_le_compat_r; lra. }
  lra.
Qed.

(** X18. A market capitalisation of [2^1024] trillion or more cannot be
    printed: the quotient by the trillion threshold is too large for a
    float, so the formatter, and with it the Recommendation stage on the
    valid branch, raises OverflowError instead of returning a report. *)
Theorem huge_market_cap_raises (now : string) (state : StockAgentState)
  (info : StockInfo) (mc : Z) :
  is_invalid state = false ->
  stock_info state = Some info ->
  market_cap info = Some mc ->
  (2 ^ 1024 * 1000000000000 <= mc)%Z ->
  _format_market_cap (Some mc) (currency info)
  = Raise "OverflowError: integer division result too large for a float"
  /\ generate_recommendation now state
     = Raise "OverflowError: integer division result too large for a float".
Proof.
  intros Hvalid Hinfo Hcap Hbig.
  assert (P1024 : (0 < 2 ^ 1024)%Z) by (apply Z.pow_pos_nonneg; lia).
  assert (F : _format_market_cap (Some mc) (currency info)
              = Raise "OverflowError: integer division result too large for a float").
  { unfold _format_market_cap, caps. cbn [format_with_caps].
    replace (mc >=? 1000000000000)%Z with true
      by (symmetry; rewrite Z.geb_leb; apply Z.leb_le; lia).
    unfold int_truediv.
    replace (1000000000000 =? 0)%Z with false by reflexivity.
    replace (mc =? 0)%Z with false by (symmetry; apply Z.eqb_neq; lia).
    rewrite (Z.abs_eq mc) by lia.
    change (Z.abs 1000000000000) with 1000000000000%Z.
    rewrite round_binary64_overflow; [reflexivity | lia | lia |].
    rewrite Qpow2_nonneg_exp by lia.
    unfold Qle. cbn [Qnum Qden inject_Z]. rewrite Z2Pos.id by lia. lia. }
  split; [exact F |].
  unfold generate_recommendation.
  change (is_invalid (_ensure_errors state)) with (is_invalid state).
  rewrite Hvalid. unfold report_lines, info_get.
  change (stock_info (_ensure_errors state)) with (stock_info state).
  rewrite Hinfo, Hcap, F. reflexivity.
Qed.

(** ** A steadily rising history *)








(** ** The lines of the report *)

Lemma decide_one_reason (cp s10 s20 rv : option Q) :
  exists reason : string, snd (decide cp s10 s20 rv) = [reason].
Proof.
  destruct cp as [p |], s10 as [s |], s20 as [l |], rv as [r |];
    cbn [decide]; try (eexists; reflexivity).
  destruct (buy_condition p s l r); [eexists; reflexivity |].
  destruct (sell_condition p s l r); eexists; reflexivity.
Qed.

(** X20. On the valid branch the report ends, after its first 22 lines (23
    when the trend carries a note), with the decision, then exactly one
    reason (the rule always gives one, so the guard on an empty reason list
    never fails), then, only when errors were accumulated, an empty line
    and one warning line with all of them joined by a semicolon and a
    space. *)
Theorem report_ends_with_decision_reason_errors (now cap : string)
  (state : StockAgentState) :
  exists reason : string,
    snd (recommendation state) = [reason]
    /\ skipn (22 + (if str_truthy (match trend state with
                                  | Some t => notes t
                                  | None => ""
                                  end) then 1 else 0))
             (render_lines now state cap)
       = List.app
           ["• decision: " ++ decision_label (fst (recommendation state));
            "• reason: " ++ reason]
           match errors_of state with
           | [] => []
           | es => [""; "wraning: " ++ join "; " es]
           end.
Proof.
  unfold render_lines, recommendation.
  destruct (decide_one_reason (effective_price state) (tech_get sma_short state)
              (tech_get sma_long state) (tech_get rsi_value state)) as [reason R].
  destruct (decide _ _ _ _) as [d rs]. cbn [fst snd] in *. subst rs.
  exists reason. split; [reflexivity |].
  destruct (str_truthy _); destruct (errors_of state); reflexivity.
Qed.

(** ** Printing amounts *)

Lemma remove_commas_digits (n : N) : remove_commas (digits_of_N n) = digits_of_N n.
Proof.
  unfold remove_commas. rewrite filter_all.
  - apply string_of_list_ascii_of_string.
  - eapply forallb_impl; [apply digit_not_comma | apply digits_of_N_digits].
Qed.

(** X21. The amounts printed by [_format_currency]: a missing value prints
    as N/A; an integer prints after the currency code with thousands
    separators and reads back as the same integer; a float prints after the
    currency code with the digits of its two-decimal form, the separators
    being the only difference. *)
Theorem format_currency_amounts (currency : string) :
  _format_currency None currency = "N/A"
  /\ (forall z : Z,
        exists body : string,
          _format_currency (Some (PyInt z)) currency = currency ++ " " ++ body
          /\ read_grouped_int body = Some z)
  /\ (forall q : Q,
        exists body : string,
          _format_currency (Some (PyFloat q)) currency = currency ++ " " ++ body
          /\ remove_commas body = format_float_2f false q).
Proof.
  split; [reflexivity |]. split.
  - intros z. exists (format_int_grouped z).
    split; [reflexivity | apply format_int_grouped_reads_back_aux].
  - intros q. exists (format_float_2f true q). split; [reflexivity |].
    unfold format_float_2f, two_digits.
    rewrite !remove_commas_append, remove_commas_group, !remove_commas_digits.
    destruct (Qnum q <? 0)%Z; reflexivity.
Qed.

(** ** The properties on sample inputs *)

Lemma strictly_rising_step (xs : list Q) (k : nat) :
  strictly_rising xs = true -> (S k < length xs)%nat ->
  nth k xs 0 < nth (S k) xs 0.
Proof.
  revert k. induction xs as [| x [| y tl] IH]; intros k R Hk;
    try (cbn in Hk; lia).
  cbn [strictly_rising] in R. apply andb_true_iff in R. destruct R as [Rxy Rt].
  destruct k as [| k].
  - cbn [nth]. now apply Qlt_bool_iff.
  - change (nth (S k) (x :: y :: tl) 0) with (nth k (y :: tl) 0).
    change (nth (S (S k)) (x :: y :: tl) 0) with (nth (S k) (y :: tl) 0).
    apply IH; [exact Rt | cbn [length] in *; lia].
Qed.


Lemma invoke_errors_append_only_witness :
  exists added : list string,
    added_errors (initial_state "acme") empty_history_final added
    /\ (length added <= 2)%nat.
Proof.
  apply (@invoke_errors_append_only empty_history_gateway).
  vm_compute. reflexivity.
Defined.

Lemma fetch_stock_data_without_rows_witness :
  exists (fetched : StockAgentState) (msg : string),
    fetch_stock_data empty_history_gateway (initial_state "acme") = Ok fetched
    /\ errors_of fetched = [msg]
    /\ stock_info fetched = None
    /\ historical_data fetched = None.
Proof.
  destruct (@fetch_stock_data_without_rows empty_history_gateway
              (initial_state "acme") "acme" eq_refl (or_introl eq_refl))
    as [fetched [msg [E [Er [Hs [Hh _]]]]]].
  exists fetched, msg. repeat split; assumption.
Defined.

Lemma fetch_stock_data_snapshot_witness :
  exists (fetched : StockAgentState) (info : StockInfo),
    fetch_stock_data sample_gateway (initial_state "ACME") = Ok fetched
    /\ stock_info fetched = Some info
    /\ symbol info = "ACME"
    /\ current_price info = Some 25.51
    /\ errors_of fetched = [].
Proof.
  destruct (@fetch_stock_data_snapshot sample_gateway (initial_state "ACME")
              "ACME" (flat_bar "2024-01-02" 10)
              (map (flat_bar "2024-01-02")
                   [11; 12; 11; 13; 14; 13; 15; 16; 15; 17;
                    18; 17; 19; 20; 19; 21; 22; 21; 23; 24; 25])
              eq_refl eq_refl)
    as [fetched [info [E [Hs [_ [He [Hsym [Hp _]]]]]]]].
  exists fetched, info. repeat split; try assumption.
  apply Hp. reflexivity.
Defined.

Lemma calculate_technical_indicators_latest_witness :
  exists tech : IndicatorSet,
    technical_indicators (calculate_technical_indicators ascending_state)
    = Some tech
    /\ last_close tech = Some 29
    /\ prev_close tech = Some 28.
Proof.
  destruct (@calculate_technical_indicators_latest ascending_state
              {| rows := map (flat_bar "2024-01-02") ascending_prices;
                 col_SMA_SHORT := None; col_SMA_LONG := None; col_RSI := None |}
              eq_refl ltac:(discriminate))
    as [tech [df [E [_ [_ [_ [_ [_ [_ [Hl [Hp _]]]]]]]]]]].
  exists tech. repeat split; assumption.
Defined.

Lemma rsi_undefined_without_decline_witness :
  last (rsi (of_prices ascending_prices) config.RSI_PERIOD) None = None.
Proof.
  apply (@rsi_undefined_without_decline ascending_prices config.RSI_PERIOD).
  - unfold config.RSI_PERIOD. lia.
  - cbn. lia.
  - intros k _ Hk. apply Qlt_le_weak.
    apply (@strictly_rising_step ascending_prices k eq_refl Hk).
Defined.

Lemma trend_direction_labels_witness :
  exists t : TrendAssessment,
    trend (analyze_market_trend (sample_state (Some 25) (Some 25) (Some 24)))
    = Some t
    /\ short_term t = "BULLISH ↗"
    /\ price_vs_sma t = "Above both moving averages".
Proof.
  destruct (@trend_direction_labels (sample_state (Some 25) (Some 25) (Some 24))
              25 21.1 17.75 eq_refl eq_refl eq_refl)
    as [t [E [Hb [_ [_ [_ [Ha _]]]]]]].
  assert (B : short_term t = "BULLISH ↗") by (apply Hb; split; reflexivity).
  exists t. repeat split; auto.
Defined.

Lemma too_little_history_means_hold_witness :
  recommendation
    (analyze_market_trend (calculate_technical_indicators short_history_state))
  = (HOLD, [reason_insufficient_data]).
Proof.
  apply too_little_history_means_hold; [reflexivity |].
  intros hist E. injection E as <-. cbn. unfold config.SMA_LONG. lia.
Defined.

Lemma sample_gateway_caps : provider_caps_below sample_gateway (2 ^ 1000).
Proof.
  split.
  - intros t fi m E1 E2. cbn in E1. injection E1 as <-.
    cbn in E2. injection E2 as <-. reflexivity.
  - intros t ci m E1 E2. cbn in E1. injection E1 as <-. discriminate.
Defined.

Lemma report_always_produced_witness :
  exists (final : StockAgentState) (r : string),
    invoke sample_gateway (initial_state "ACME") = Ok final
    /\ report final = Some r
    /\ run_agent sample_gateway "ACME" = Ok r.
Proof. exact (@report_always_produced sample_gateway "ACME" sample_gateway_caps). Defined.

Lemma huge_market_cap_raises_witness :
  generate_recommendation "2024-01-02 10:00:00" huge_cap_state
  = Raise "OverflowError: integer division result too large for a float".
Proof.
  destruct (@huge_market_cap_raises "2024-01-02 10:00:00" huge_cap_state
              huge_cap_info (2 ^ 1024 * 1000000000000)%Z
              eq_refl eq_refl eq_refl (Z.le_refl _))
    as [_ G].
  exact G.
Defined.


(** A state on which the rule says BUY, with the labels that go with it. *)
Example buy_comes_with_bullish_labels :
  fst (recommendation (sample_state (Some 25) (Some 25) (Some 24))) = BUY
  /\ option_map short_term
       (trend (analyze_market_trend (sample_state (Some 25) (Some 25) (Some 24))))
     = Some "BULLISH ↗".
Proof. split; reflexivity. Qed.

(** * The indicators in binary64 arithmetic *)

(** ** Rounding to binary64 *)

Lemma round_half_even_integer (q : Q) (k : Z) :
  q == inject_Z k -> round_half_even q = k.
Proof.
  intros H.
  assert (L : (k <= round_half_even q)%Z)
    by (apply round_half_even_at_least; rewrite H; apply Qle_refl).
  assert (U : (round_half_even q <= k)%Z)
    by (apply round_half_even_at_most; rewrite H; apply Qle_refl).
  lia.
Qed.

Lemma Qpow2_split (s t : Z) :
  (s <= t)%Z -> Qpow2 t == inject_Z (2 ^ (t - s)) * Qpow2 s.
Proof.
  intros H. rewrite <- (Qpow2_nonneg_exp (e := t - s)) by lia.
  rewrite <- Qpow2_add. now replace (t - s + s)%Z with t by lia.
Qed.

Lemma log2_ratio_mono (n d n' d' : Z) :
  (0 < n)%Z -> (0 < d)%Z -> (0 < n')%Z -> (0 < d')%Z ->
  n # Z.to_pos d <= n' # Z.to_pos d' ->
  (log2_ratio n d <= log2_ratio n' d')%Z.
Proof.
  intros Hn Hd Hn' Hd' Hle.
  destruct (log2_ratio_spec Hn Hd) as [Lo _].
  destruct (log2_ratio_spec Hn' Hd') as [_ Up].
  destruct (Z_le_gt_dec (log2_ratio n d) (log2_ratio n' d')) as [L | G];
    [exact L | exfalso].
  assert (Qpow2 (log2_ratio n' d' + 1) <= Qpow2 (log2_ratio n d))
    by (apply Qpow2_mono; lia).
  lra.
Qed.

Lemma round_binary64_below_overflow (n d : Z) (v : Q) :
  round_binary64 n d = Some v -> v < Qpow2 1024.
Proof.
  unfold round_binary64.
  destruct (Qle_bool (Qpow2 1024) _) eqn:O; [discriminate |].
  intros H. injection H as <-.
  apply Qnot_le_lt. intros C. apply Qle_bool_iff in C. congruence.
Qed.

(** Rounding is monotone against a value that is itself a float: what lies
    below it rounds to at most it, what lies above rounds to at least it. *)
Lemma round_binary64_upper (n d n' d' : Z) (v' : Q) :
  (0 < n)%Z -> (0 < d)%Z -> (0 < n')%Z -> (0 < d')%Z ->
  n # Z.to_pos d <= n' # Z.to_pos d' ->
  round_binary64 n' d' = Some v' -> v' == n' # Z.to_pos d' ->
  exists v : Q, round_binary64 n d = Some v /\ v <= v'.
Proof.
  intros Hn Hd Hn' Hd' Hle R' E'.
  pose proof (log2_ratio_mono Hn Hd Hn' Hd' Hle) as He.
  pose proof (round_binary64_below_overflow _ _ R') as Fin'.
  destruct (round_binary64_spec Hn' Hd' R') as [m' [_ [V' _]]].
  unfold round_binary64.
  set (e := log2_ratio n d) in *. set (e' := log2_ratio n' d') in *.
  set (s := (Z.max e (-1022) - 52)%Z).
  set (s' := (Z.max e' (-1022) - 52)%Z) in *.
  set (x := n # Z.to_pos d) in *. set (y := n' # Z.to_pos d') in *.
  assert (Hs : (s <= s')%Z) by (subst s s'; lia).
  pose proof (Qpow2_pos s) as HP.
  set (K := (m' * 2 ^ (s' - s))%Z).
  assert (Ey : y == inject_Z K * Qpow2 s).
  { rewrite <- E', V'. rewrite (Qpow2_split Hs). unfold K.
    rewrite inject_Z_mult. ring. }
  assert (Hq : x / Qpow2 s <= inject_Z K).
  { apply Qle_shift_div_r; [exact HP |]. rewrite <- Ey. exact Hle. }
  apply round_half_even_at_most in Hq.
  set (m := round_half_even (x / Qpow2 s)) in *.
  assert (Hv : inject_Z m * Qpow2 s <= v').
  { rewrite E', Ey. apply Qmult_le_compat_r; [| lra].
    now rewrite <- Zle_Qle. }
  destruct (Qle_bool (Qpow2 1024) (inject_Z m * Qpow2 s)) eqn:O.
  - exfalso. apply Qle_bool_iff in O. lra.
  - eexists. split; [reflexivity | exact Hv].
Qed.

Lemma round_binary64_lower (n d n' d' : Z) (v v' : Q) :
  (0 < n)%Z -> (0 < d)%Z -> (0 < n')%Z -> (0 < d')%Z ->
  n' # Z.to_pos d' <= n # Z.to_pos d ->
  round_binary64 n' d' = Some v' -> v' == n' # Z.to_pos d' ->
  round_binary64 n d = Some v -> v' <= v.
Proof.
  intros Hn Hd Hn' Hd' Hle R' E' R.
  pose proof (log2_ratio_mono Hn' Hd' Hn Hd Hle) as He.
  destruct (round_binary64_spec Hn' Hd' R') as [m' [_ [V' _]]].
  destruct (round_binary64_spec Hn Hd R) as [m [_ [V _]]].
  destruct (log2_ratio_spec Hn Hd) as [Lo _].
  destruct (log2_ratio_spec Hn' Hd') as [_ Up'].
  assert (M : m = round_half_even ((n # Z.to_pos d)
                / Qpow2 (Z.max (log2_ratio n d) (-1022) - 52))).
  { unfold round_binary64 in R.
    destruct (Qle_bool _ _); [discriminate |]. injection R as R.
    rewrite V in R.
    pose proof (Qpow2_pos (Z.max (log2_ratio n d) (-1022) - 52)) as HP.
    assert (inject_Z (round_half_even ((n # Z.to_pos d)
                / Qpow2 (Z.max (log2_ratio n d) (-1022) - 52))) == inject_Z m).
    { apply (Qmult_inj_r _ _ (Qpow2 (Z.max (log2_ratio n d) (-1022) - 52)));
        [lra |]. rewrite R. reflexivity. }
    symmetry. now apply inject_Z_injective. }
  set (e := log2_ratio n d) in *. set (e' := log2_ratio n' d') in *.
  set (s := (Z.max e (-1022) - 52)%Z) in *.
  set (s' := (Z.max e' (-1022) - 52)%Z) in *.
  set (x := n # Z.to_pos d) in *. set (y := n' # Z.to_pos d') in *.
  pose proof (Qpow2_pos s) as HP.
  destruct (Z.eq_dec s s') as [Same | Diff].
  - assert (Hq : inject_Z m' <= x / Qpow2 s).
    { apply Qle_shift_div_l; [exact HP |].
      rewrite Same, <- V', E'. exact Hle. }
    apply round_half_even_at_least in Hq. rewrite <- M in Hq.
    rewrite V, V', <- Same. apply Qmult_le_compat_r; [| lra].
    now rewrite <- Zle_Qle.
  - assert (Hee : (e' < e)%Z /\ (-1022 < e)%Z) by (subst s s'; lia).
    assert (Es : s = (e - 52)%Z) by (subst s; lia).
    assert (Hq : inject_Z (2 ^ 52) <= x / Qpow2 s).
    { apply Qle_shift_div_l; [exact HP |].
      rewrite <- (Qpow2_nonneg_exp (e := 52)) by lia.
      rewrite <- Qpow2_add, Es. now replace (52 + (e - 52))%Z with e by lia. }
    apply round_half_even_at_least in Hq. rewrite <- M in Hq.
    assert (Hv : Qpow2 e <= v).
    { rewrite V. replace e with (52 + s)%Z at 1 by lia. rewrite Qpow2_add.
      apply Qmult_le_compat_r; [| lra].
      rewrite Qpow2_nonneg_exp by lia. now rewrite <- Zle_Qle. }
    assert (Qpow2 (e' + 1) <= Qpow2 e) by (apply Qpow2_mono; lia).
    rewrite E'. lra.
Qed.

(** ** Rounding a rational to a binary64 value *)

Lemma Qnum_zero (q : Q) : q == 0 -> Qnum q = 0%Z.
Proof. unfold Qeq. cbn. lia. Qed.

Lemma Qnum_pos (q : Q) : 0 < q -> exists n : positive, Qnum q = Zpos n.
Proof.
  unfold Qlt. cbn. intros H. destruct (Qnum q) as [| n | n]; try lia. eauto.
Qed.

Lemma Qnum_neg (q : Q) : q < 0 -> exists n : positive, Qnum q = Zneg n.
Proof.
  unfold Qlt. cbn. intros H. destruct (Qnum q) as [| n | n]; try lia. eauto.
Qed.

Lemma f64_round_zero (q : Q) : q == 0 -> f64_round q = Fin 0.
Proof. intros H. unfold f64_round. now rewrite (Qnum_zero H). Qed.

Lemma f64_round_pos (q : Q) :
  0 < q ->
  exists n : positive,
    Qnum q = Zpos n
    /\ f64_round q
       = match round_binary64 (Zpos n) (Zpos (Qden q)) with
         | Some v => Fin v
         | None => Inf false
         end.
Proof.
  intros H. destruct (Qnum_pos H) as [n E]. exists n. split; [exact E |].
  unfold f64_round. now rewrite E.
Qed.

Lemma Qmake_num_den (q : Q) (n : positive) :
  Qnum q = Zpos n -> Zpos n # Z.to_pos (Zpos (Qden q)) == q.
Proof. intros E. destruct q as [a d]. cbn in *. subst a. reflexivity. Qed.

(** What lies between 0 and a float rounds to a finite value between 0 and
    that float. *)
Lemma f64_round_upper (x y : Q) :
  0 <= x -> x <= y -> is_binary64 y ->
  exists v : Q, f64_round x = Fin v /\ 0 <= v /\ v <= y.
Proof.
  intros Hx Hxy [vy [Ry Ey]].
  destruct (Qlt_le_dec 0 x) as [Pos | Zero].
  - destruct (f64_round_pos Pos) as [n [En Rx]].
    assert (Py : 0 < y) by lra.
    destruct (f64_round_pos Py) as [n' [En' Ry']].
    rewrite Ry' in Ry.
    destruct (round_binary64 (Z.pos n') (Z.pos (Qden y))) as [v' |] eqn:R';
      [| discriminate].
    injection Ry as ->.
    destruct (@round_binary64_upper (Z.pos n) (Z.pos (Qden x))
                (Z.pos n') (Z.pos (Qden y)) vy) as [v [Rv Hv]];
      try lia; try exact R'.
    + rewrite (Qmake_num_den _ En), (Qmake_num_den _ En'). exact Hxy.
    + rewrite (Qmake_num_den _ En'). exact Ey.
    + rewrite Rx, Rv. exists v. split; [reflexivity |]. split; [| lra].
      destruct (@round_binary64_spec (Z.pos n) (Z.pos (Qden x)) v) as [m [Hm [V _]]];
        try lia; try exact Rv.
      rewrite V. apply Qmult_le_0_compat.
      * change 0 with (inject_Z 0). rewrite <- Zle_Qle. lia.
      * apply Qlt_le_weak, Qpow2_pos.
  - rewrite f64_round_zero by lra. exists 0. split; [reflexivity |]. lra.
Qed.

(** What lies above a positive float rounds to at least that float, or
    overflows. *)
Lemma f64_round_lower (x y : Q) :
  0 < y -> y <= x -> is_binary64 y ->
  f64_round x = Inf false
  \/ exists v : Q, f64_round x = Fin v /\ y <= v.
Proof.
  intros Py Hyx [vy [Ry Ey]].
  assert (Px : 0 < x) by lra.
  destruct (f64_round_pos Px) as [n [En Rx]].
  destruct (f64_round_pos Py) as [n' [En' Ry']].
  rewrite Ry' in Ry.
  destruct (round_binary64 (Z.pos n') (Z.pos (Qden y))) as [v' |] eqn:R';
    [| discriminate].
  injection Ry as ->.
  rewrite Rx.
  destruct (round_binary64 (Z.pos n) (Z.pos (Qden x))) as [v |] eqn:Rv;
    [right | left; reflexivity].
  exists v. split; [reflexivity |].
  rewrite <- Ey.
  apply (@round_binary64_lower (Z.pos n) (Z.pos (Qden x))
           (Z.pos n') (Z.pos (Qden y)) v vy); try lia; try assumption.
  - rewrite (Qmake_num_den _ En), (Qmake_num_den _ En'). exact Hyx.
  - rewrite (Qmake_num_den _ En'). exact Ey.
Qed.

(** A non-negative rational rounds to a non-negative value or overflows. *)
Lemma f64_round_nonneg (x : Q) :
  0 <= x ->
  f64_round x = Inf false \/ exists v : Q, f64_round x = Fin v /\ 0 <= v.
Proof.
  intros Hx. destruct (Qlt_le_dec 0 x) as [Pos | Zero].
  - destruct (f64_round_pos Pos) as [n [En Rx]]. rewrite Rx.
    destruct (round_binary64 (Z.pos n) (Z.pos (Qden x))) as [v |] eqn:Rv;
      [right | left; reflexivity].
    exists v. split; [reflexivity |].
    destruct (@round_binary64_spec (Z.pos n) (Z.pos (Qden x)) v) as [m [Hm [V _]]];
      try lia; try exact Rv.
    rewrite V. apply Qmult_le_0_compat.
    + change 0 with (inject_Z 0). rewrite <- Zle_Qle. lia.
    + apply Qlt_le_weak, Qpow2_pos.
  - right. rewrite f64_round_zero by lra. exists 0. split; [reflexivity | lra].
Qed.

(** Rounding the opposite gives the opposite. *)
Lemma f64_round_opp (x : Q) (a : Q) :
  f64_is (f64_round x) a -> f64_is (f64_round (- x)) (- a).
Proof.
  intros [v [R E]]. unfold f64_round in *. destruct x as [n d].
  cbn [Qnum Qden Qopp] in *.
  destruct n as [| p | p]; cbn [Z.opp].
  - injection R as <-. exists 0. split; [reflexivity |]. rewrite <- E. reflexivity.
  - destruct (round_binary64 (Z.pos p) (Z.pos d)) as [u |]; [| discriminate].
    injection R as <-. exists (- u). split; [reflexivity |]. now rewrite E.
  - destruct (round_binary64 (Z.pos p) (Z.pos d)) as [u |]; [| discriminate].
    injection R as <-. exists u. split; [reflexivity |]. rewrite <- E. ring.
Qed.

(** A rational equal to a float rounds to it. *)
Lemma f64_round_exact (x y : Q) :
  x == y -> is_binary64 y -> f64_is (f64_round x) y.
Proof.
  assert (Nonneg : forall a b : Q, 0 <= b -> a == b -> is_binary64 b ->
                                   f64_is (f64_round a) b).
  { intros a b Hb E B. destruct (Qlt_le_dec 0 b) as [Pos | Zero].
    - destruct (@f64_round_upper a b) as [v [R [_ U]]]; try lra; try exact B.
      destruct (@f64_round_lower a b Pos) as [O | [v' [R' L]]];
        try lra; try exact B; [congruence |].
      exists v. split; [exact R |]. rewrite R in R'. injection R' as <-. lra.
    - assert (a == 0) by lra. rewrite f64_round_zero by assumption.
      exists 0. split; [reflexivity | lra]. }
  intros E B. destruct (Qlt_le_dec y 0) as [Neg | Pos]; [| now apply Nonneg].
  assert (B' : is_binary64 (- y)).
  { destruct B as [v [R Ev]].
    destruct (@f64_round_opp y y) as [u [Ru Eu]]; [exists v; auto |].
    exists u. auto. }
  destruct (@f64_round_opp (- x) (- y)) as [u [Ru Eu]].
  { apply Nonneg; [lra | now rewrite E | exact B']. }
  exists u. split.
  - rewrite <- Ru. f_equal. destruct x as [n d]. unfold Qopp. cbn.
    now rewrite Z.opp_involutive.
  - rewrite Eu. ring.
Qed.

(** Integers up to [2^53] in magnitude are floats. *)
Lemma is_binary64_integer (z : Z) :
  (Z.abs z <= 2 ^ 53)%Z -> is_binary64 (inject_Z z).
Proof.
  assert (Pos : forall p : positive, (Z.pos p <= 2 ^ 53)%Z ->
                 exists v : Q, round_binary64 (Z.pos p) 1 = Some v
                               /\ v == inject_Z (Z.pos p)).
  { intros p Hp. unfold round_binary64.
    destruct (@log2_ratio_spec (Z.pos p) 1) as [Lo Up]; try lia.
    change (Z.pos p # Z.to_pos 1) with (inject_Z (Z.pos p)) in *.
    set (e := log2_ratio (Z.pos p) 1) in *.
    assert (He : (0 <= e <= 53)%Z).
    { split.
      - destruct (Z_le_gt_dec 0 e) as [P | N]; [exact P | exfalso].
        assert (Qpow2 (e + 1) <= Qpow2 0) by (apply Qpow2_mono; lia).
        change (Qpow2 0) with (inject_Z 1) in H.
        assert (inject_Z 1 <= inject_Z (Z.pos p)) by (rewrite <- Zle_Qle; lia).
        lra.
      - destruct (Z_le_gt_dec e 53) as [P | N]; [exact P | exfalso].
        assert (Qpow2 54 <= Qpow2 e) by (apply Qpow2_mono; lia).
        rewrite (Qpow2_nonneg_exp (e := 54)) in H by lia.
        assert (inject_Z (2 ^ 54) <= inject_Z (Z.pos p)) by lra.
        rewrite <- Zle_Qle in H0.
        assert (2 ^ 53 < 2 ^ 54)%Z by reflexivity. lia. }
    replace (Z.max e (-1022)) with e by lia.
    set (s := (e - 52)%Z).
    pose proof (Qpow2_pos s) as HP.
    assert (K : exists k : Z, inject_Z (Z.pos p) == inject_Z k * Qpow2 s).
    { destruct (Z_le_gt_dec s 0) as [Low | High].
      - exists (Z.pos p * 2 ^ (- s))%Z. rewrite inject_Z_mult.
        rewrite <- (Qpow2_nonneg_exp (e := - s)) by lia.
        rewrite <- Qmult_assoc, <- Qpow2_add.
        replace (- s + s)%Z with 0%Z by lia. change (Qpow2 0) with 1. ring.
      - assert (e = 53%Z) by (subst s; lia). subst e. rewrite H in *.
        rewrite (Qpow2_nonneg_exp (e := 53)) in Lo by lia.
        rewrite <- Zle_Qle in Lo.
        assert (Z.pos p = 2 ^ 53)%Z by lia.
        exists (2 ^ 52)%Z. subst s. rewrite H, H0. reflexivity. }
    destruct K as [k Hk].
    assert (M : round_half_even (inject_Z (Z.pos p) / Qpow2 s) = k).
    { apply round_half_even_integer. rewrite Hk. field. lra. }
    rewrite M.
    assert (V : inject_Z k * Qpow2 s == inject_Z (Z.pos p)) by (now rewrite Hk).
    destruct (Qle_bool (Qpow2 1024) (inject_Z k * Qpow2 s)) eqn:O.
    - exfalso. apply Qle_bool_iff in O. rewrite V in O.
      rewrite (Qpow2_nonneg_exp (e := 1024)) in O by lia.
      rewrite <- Zle_Qle in O.
      assert (2 ^ 53 < 2 ^ 1024)%Z by reflexivity. lia.
    - eexists. split; [reflexivity | exact V]. }
  intros Hz. unfold is_binary64, f64_round.
  destruct z as [| p | p]; cbn [inject_Z Qnum Qden].
  - exists 0. split; reflexivity.
  - destruct (Pos p) as [v [R E]]; [lia |]. rewrite R. exists v. auto.
  - destruct (Pos p) as [v [R E]]; [lia |]. rewrite R. exists (- v).
    split; [reflexivity |]. rewrite E. reflexivity.
Qed.

Lemma f64_is_integer (q : Q) (z : Z) :
  q == inject_Z z -> (Z.abs z <= 2 ^ 53)%Z -> f64_is (f64_round q) (inject_Z z).
Proof. intros E B. apply f64_round_exact; [exact E | now apply is_binary64_integer]. Qed.

(** Sums and differences of integers are exact as long as the result stays
    within [2^53]. *)
Lemma f64_add_integers (a b : f64) (za zb : Z) :
  f64_is a (inject_Z za) -> f64_is b (inject_Z zb) ->
  (Z.abs (za + zb) <= 2 ^ 53)%Z ->
  f64_is (f64_add a b) (inject_Z (za + zb)).
Proof.
  intros [u [-> Eu]] [v [-> Ev]] B. cbn [f64_add].
  apply f64_is_integer; [| exact B].
  rewrite Eu, Ev, inject_Z_plus. reflexivity.
Qed.

Lemma f64_neg_integer (a : f64) (z : Z) :
  f64_is a (inject_Z z) -> f64_is (f64_neg a) (inject_Z (- z)).
Proof.
  intros [u [-> Eu]]. exists (- u). split; [reflexivity |].
  rewrite Eu, inject_Z_opp. reflexivity.
Qed.

Lemma f64_sub_integers (a b : f64) (za zb : Z) :
  f64_is a (inject_Z za) -> f64_is b (inject_Z zb) ->
  (Z.abs (za - zb) <= 2 ^ 53)%Z ->
  f64_is (f64_sub a b) (inject_Z (za - zb)).
Proof.
  intros A B H. unfold f64_sub.
  replace (za - zb)%Z with (za + - zb)%Z by lia.
  apply f64_add_integers; [exact A | now apply f64_neg_integer |].
  now replace (za + - zb)%Z with (za - zb)%Z by lia.
Qed.

(** In the normal range the relative error of rounding is at most
    [2^-53]. *)
Lemma round_binary64_relative (n d : Z) (v : Q) :
  (0 < n)%Z -> (0 < d)%Z -> Qpow2 (-1022) <= n # Z.to_pos d ->
  round_binary64 n d = Some v ->
  Qabs (v - (n # Z.to_pos d)) <= (n # Z.to_pos d) * Qpow2 (-53).
Proof.
  intros Hn Hd Hnormal R.
  destruct (round_binary64_spec Hn Hd R) as [m [_ [_ Hnear]]].
  destruct (log2_ratio_spec Hn Hd) as [Hlo _].
  pose proof (@round_binary64_exponent_at_least n d (-1022) Hn Hd Hnormal) as He.
  rewrite Z.max_l in Hnear by lia.
  eapply Qle_trans; [exact Hnear |].
  replace (log2_ratio n d - 53)%Z with (log2_ratio n d + -53)%Z by lia.
  rewrite Qpow2_add.
  apply Qmult_le_compat_r; [exact Hlo |]. apply Qlt_le_weak, Qpow2_pos.
Qed.

(** ** The oscillator formula in binary64 *)

Lemma f64_round_fin_upper (x y v : Q) :
  0 <= x -> x <= y -> is_binary64 y -> f64_round x = Fin v -> v <= y.
Proof.
  intros Hx Hxy B R. destruct (f64_round_upper Hx Hxy B) as [u [Ru [_ U]]].
  rewrite R in Ru. injection Ru as <-. exact U.
Qed.

Lemma f64_round_fin_lower (x y v : Q) :
  0 < y -> y <= x -> is_binary64 y -> f64_round x = Fin v -> y <= v.
Proof.
  intros Hy Hyx B R. destruct (f64_round_lower Hy Hyx B) as [O | [u [Ru L]]];
    [congruence |].
  rewrite R in Ru. injection Ru as <-. exact L.
Qed.

Lemma f64_round_fin_nonneg (x v : Q) : 0 <= x -> f64_round x = Fin v -> 0 <= v.
Proof.
  intros Hx R. destruct (f64_round_nonneg Hx) as [O | [u [Ru L]]]; [congruence |].
  rewrite R in Ru. injection Ru as <-. exact L.
Qed.

Lemma f64_round_nonneg_cases (x : Q) :
  0 <= x -> f64_round x = Inf false \/ exists v : Q, f64_round x = Fin v.
Proof.
  intros Hx. destruct (f64_round_nonneg Hx) as [O | [u [Ru _]]]; eauto.
Qed.

Lemma f64_round_fin_zero (x v : Q) : x == 0 -> f64_round x = Fin v -> v = 0.
Proof. intros E R. rewrite (f64_round_zero E) in R. now injection R. Qed.

Lemma is_binary64_1 : is_binary64 1.
Proof. apply (@is_binary64_integer 1). discriminate. Qed.

Lemma is_binary64_2 : is_binary64 2.
Proof. apply (@is_binary64_integer 2). discriminate. Qed.

Lemma is_binary64_50 : is_binary64 50.
Proof. apply (@is_binary64_integer 50). discriminate. Qed.

Lemma is_binary64_100 : is_binary64 100.
Proof. apply (@is_binary64_integer 100). discriminate. Qed.

(** [100 - b] for a float [b] between 0 and 100. *)
Lemma hundred_minus (b : Q) :
  0 <= b -> b <= 100 ->
  exists v : Q,
    f64_sub (Fin 100) (Fin b) = Fin v /\ 0 <= v /\ v <= 100
    /\ (b <= 50 -> 50 <= v) /\ (50 <= b -> v <= 50) /\ (b == 100 -> v = 0)
    /\ (b == 0 -> v == 100).
Proof.
  intros Lo Hi. unfold f64_sub. cbn [f64_neg f64_add].
  assert (R0 : 0 <= 100 + - b) by lra.
  destruct (@f64_round_upper (100 + - b) 100) as [v [R [V0 V100]]];
    try lra; [exact is_binary64_100 |].
  exists v. split; [exact R |]. split; [exact V0 |]. split; [exact V100 |].
  assert (P50 : 0 < 50) by reflexivity.
  assert (P100 : 0 < 100) by reflexivity.
  split; [| split; [| split]]; intros H.
  - assert (S : 50 <= 100 + - b) by lra.
    exact (@f64_round_fin_lower (100 + - b) 50 v P50 S is_binary64_50 R).
  - assert (S : 100 + - b <= 50) by lra.
    exact (@f64_round_fin_upper (100 + - b) 50 v R0 S is_binary64_50 R).
  - assert (S : 100 + - b == 0) by lra.
    exact (@f64_round_fin_zero (100 + - b) v S R).
  - assert (S : 100 <= 100 + - b) by lra.
    pose proof (@f64_round_fin_lower (100 + - b) 100 v P100 S is_binary64_100 R).
    lra.
Qed.

Lemma f64_div_fin (x y : Q) :
  ~ y == 0 -> f64_div (Fin x) (Fin y) = f64_round (x / y).
Proof.
  intros H. cbn [f64_div].
  replace (Qeq_bool y 0) with false; [reflexivity |].
  symmetry. apply not_true_is_false. intros E. now apply Qeq_bool_iff in E.
Qed.

(** [100 / a] for a float [a] of at least 1. *)
Lemma hundred_over (a : Q) :
  1 <= a ->
  exists b : Q,
    f64_div (Fin 100) (Fin a) = Fin b /\ 0 <= b /\ b <= 100
    /\ (2 <= a -> b <= 50) /\ (a <= 2 -> 50 <= b) /\ (a == 1 -> b == 100).
Proof.
  intros Ha. rewrite f64_div_fin by lra.
  assert (Q0 : 0 <= 100 / a) by (apply Qle_shift_div_l; lra).
  assert (Q100 : 100 / a <= 100) by (apply Qle_shift_div_r; lra).
  destruct (@f64_round_upper (100 / a) 100) as [b [R [B0 B100]]];
    try assumption; [exact is_binary64_100 |].
  exists b. split; [exact R |]. split; [exact B0 |]. split; [exact B100 |].
  assert (P50 : 0 < 50) by reflexivity.
  assert (P100 : 0 < 100) by reflexivity.
  split; [| split]; intros H.
  - assert (S : 100 / a <= 50) by (apply Qle_shift_div_r; lra).
    exact (@f64_round_fin_upper (100 / a) 50 b Q0 S is_binary64_50 R).
  - assert (S : 50 <= 100 / a) by (apply Qle_shift_div_l; lra).
    exact (@f64_round_fin_lower (100 / a) 50 b P50 S is_binary64_50 R).
  - assert (S : 100 <= 100 / a).
    { apply Qle_shift_div_l; [lra |]. rewrite H. lra. }
    pose proof (@f64_round_fin_lower (100 / a) 100 b P100 S is_binary64_100 R).
    lra.
Qed.

(** One row of the oscillator on a non-negative average gain and a
    positive average loss. *)
Lemma rsi_row_binary64_bounds (g l : Q) :
  0 <= g -> 0 < l ->
  exists v : Q,
    rsi_row_binary64 (Fin g) (Fin l) = Fin v
    /\ 0 <= v /\ v <= 100
    /\ (l <= g -> 50 <= v) /\ (g <= l -> v <= 50) /\ (g == 0 -> v == 0).
Proof.
  intros Hg Hl. unfold rsi_row_binary64, replace_zero_nan_binary64.
  replace (Qeq_bool l 0) with false
    by (symmetry; apply not_true_is_false; intros E; apply Qeq_bool_iff in E; lra).
  cbv zeta. rewrite f64_div_fin by lra.
  assert (Hq : 0 <= g / l) by (apply Qle_shift_div_l; lra).
  assert (Small : g <= l -> g / l <= 1) by (intros; apply Qle_shift_div_r; lra).
  assert (Large : l <= g -> 1 <= g / l) by (intros; apply Qle_shift_div_l; lra).
  assert (Zero : g == 0 -> g / l == 0) by (intros E; rewrite E; field; lra).
  (* when the ratio or [1 + ratio] overflows, [100 / inf] is 0 *)
  assert (Top : (g <= l -> exists r, f64_round (g / l) = Fin r /\ r <= 1)
                /\ (g == 0 -> f64_round (g / l) = Fin 0)).
  { split.
    - intros H. destruct (@f64_round_upper (g / l) 1) as [r [R [_ U]]];
        auto; [exact is_binary64_1 | eauto].
    - intros H. now apply f64_round_zero, Zero. }
  destruct Top as [TopSmall TopZero].
  assert (Saturated :
            (g <= l -> False) -> (g == 0 -> False) ->
            exists v : Q,
              f64_sub (Fin 100) (Fin 0) = Fin v /\ 0 <= v /\ v <= 100
              /\ (l <= g -> 50 <= v) /\ (g <= l -> v <= 50) /\ (g == 0 -> v == 0)).
  { intros NS NZ. destruct (@hundred_minus 0) as [v [R [V0 [V100 [V50 [_ [_ Vt]]]]]]];
      try lra.
    exists v. split; [exact R |]. split; [exact V0 |]. split; [exact V100 |].
    split; [intros _; apply V50; lra |].
    split; [intros H; exfalso; auto | intros H; exfalso; auto]. }
  destruct (f64_round_nonneg_cases Hq) as [O | [r R]].
  - (* the ratio overflows *)
    rewrite O. cbn [f64_add f64_div]. apply Saturated.
    + intros H. destruct (TopSmall H) as [r [R _]]. congruence.
    + intros H. rewrite (TopZero H) in O. discriminate.
  - rewrite R. cbn [f64_add].
    pose proof (f64_round_fin_nonneg Hq R) as R0.
    assert (Hs : 0 <= 1 + r) by lra.
    destruct (f64_round_nonneg_cases Hs) as [O | [a A]].
    + rewrite O. cbn [f64_div]. apply Saturated.
      * intros H. destruct (TopSmall H) as [r' [R' U]].
        rewrite R in R'. injection R' as <-.
        destruct (@f64_round_upper (1 + r) 2) as [a [A _]];
          try lra; [exact is_binary64_2 | congruence].
      * intros H. rewrite (TopZero H) in R. injection R as <-.
        rewrite f64_round_zero in O; [discriminate |].
        destruct (@f64_round_upper (1 + 0) 1) as [a [A _]];
          try lra; [exact is_binary64_1 |].
        exfalso. congruence.
    + rewrite A.
      assert (A1 : 1 <= a).
      { assert (S : 1 <= 1 + r) by lra.
        exact (@f64_round_fin_lower (1 + r) 1 a eq_refl S is_binary64_1 A). }
      destruct (hundred_over A1) as [b [B [B0 [B100 [Bsmall [Blarge Bone]]]]]].
      rewrite B.
      destruct (hundred_minus B0 B100) as [v [V [V0 [V100 [Vhigh [Vlow [Vzero _]]]]]]].
      exists v. split; [exact V |]. split; [exact V0 |]. split; [exact V100 |].
      assert (P1 : 0 < 1) by reflexivity.
      assert (P2 : 0 < 2) by reflexivity.
      split; [| split]; intros H.
      * apply Vhigh, Bsmall.
        pose proof (@f64_round_fin_lower (g / l) 1 r P1 (Large H) is_binary64_1 R)
          as R1.
        assert (S2 : 2 <= 1 + r) by lra.
        exact (@f64_round_fin_lower (1 + r) 2 a P2 S2 is_binary64_2 A).
      * apply Vlow, Blarge.
        pose proof (@f64_round_fin_upper (g / l) 1 r Hq (Small H) is_binary64_1 R)
          as R1.
        assert (S2 : 1 + r <= 2) by lra.
        exact (@f64_round_fin_upper (1 + r) 2 a Hs S2 is_binary64_2 A).
      * rewrite (TopZero H) in R. injection R as <-.
        assert (S1 : 1 + 0 <= 1) by lra.
        pose proof (@f64_round_fin_upper (1 + 0) 1 a Hs S1 is_binary64_1 A) as A2.
        assert (E1 : a == 1) by lra.
        rewrite (Vzero (Bone E1)). reflexivity.
Qed.

Lemma bfill_binary64_source (xs : list f64) (i : nat) (x : f64) :
  nth_error (bfill_binary64 xs) i = Some x -> x <> NaN ->
  exists j : nat, (i <= j)%nat /\ nth_error xs j = Some x.
Proof.
  revert i. induction xs as [| y tl IH]; intros i H Hx.
  - destruct i; discriminate.
  - cbn [bfill_binary64] in H.
    assert (Later : forall k, nth_error (bfill_binary64 tl) k = Some x ->
                              exists j, (S k <= j)%nat /\ nth_error (y :: tl) j = Some x).
    { intros k Hk. destruct (IH k Hk Hx) as [j [Hj E]].
      exists (S j). split; [lia | exact E]. }
    destruct i as [| k].
    + destruct y as [q | s |].
      * exists 0%nat. split; [lia | exact H].
      * exists 0%nat. split; [lia | exact H].
      * cbn [nth_error] in H.
        destruct (bfill_binary64 tl) as [| z tl'] eqn:B; cbn [hd] in H.
        -- injection H as <-. contradiction.
        -- destruct (Later 0%nat) as [j [Hj E]]; [exact H |].
           exists j. split; [lia | exact E].
    + assert (Hk : nth_error (bfill_binary64 tl) k = Some x)
        by (destruct y; exact H).
      destruct (Later k Hk) as [j [Hj E]]. exists j. split; [lia | exact E].
Qed.

(** X9. Rounding never takes the oscillator across the middle: computed in
    binary64 from a non-negative average gain and a positive average loss,
    it is at least 50 when the average gain is at least the average loss, at
    most 50 when it is at most the average loss (hence exactly 50 when they
    are equal), and 0 when the average gain is 0. *)
Theorem rsi_row_binary64_middle (g l : Q) :
  0 <= g -> 0 < l ->
  exists v : Q,
    rsi_row_binary64 (Fin g) (Fin l) = Fin v
    /\ (l <= g -> 50 <= v)
    /\ (g <= l -> v <= 50)
    /\ (g == l -> v == 50)
    /\ (g == 0 -> v == 0).
Proof.
  intros Hg Hl.
  destruct (rsi_row_binary64_bounds Hg Hl) as [v [R [_ [_ [High [Low Zero]]]]]].
  exists v. split; [exact R |]. split; [exact High |]. split; [exact Low |].
  split; [| exact Zero].
  intros E. assert (50 <= v) by (apply High; lra).
  assert (v <= 50) by (apply Low; lra). lra.
Qed.

Lemma rsi_row_binary64_middle_witness :
  exists v : Q, rsi_row_binary64 (Fin 3) (Fin 1) = Fin v /\ 50 <= v.
Proof.
  destruct (@rsi_row_binary64_middle 3 1) as [v [R [High _]]];
    [discriminate | reflexivity |].
  exists v. split; [exact R | apply High; discriminate].
Defined.

(** ** The rolling mean of pandas *)

Lemma roll_mean_length (sb : Q -> bool) (values : series) (w minp : nat) :
  length (roll_mean sb values w minp) = length values.
Proof. unfold roll_mean. now rewrite length_map, length_seq. Qed.

Lemma roll_mean_nth (sb : Q -> bool) (values : series) (w minp i : nat) :
  (i < length values)%nat ->
  nth_error (roll_mean sb values w minp) i
  = Some (calc_mean minp (state_after sb values w i)).
Proof.
  intros H. unfold roll_mean. rewrite nth_error_map, nth_error_seq.
  apply Nat.ltb_lt in H. now rewrite H.
Qed.

(** The turns of the loop, case by case. *)
Lemma roll_step_first (sb : Q -> bool) (values : series) (w : nat) (st : mean_state) :
  (1 <= w)%nat ->
  roll_step sb values w 0 st
  = add_mean sb (nth 0 values None) (setup_state (nth 0 values None)).
Proof.
  intros Hw. unfold roll_step. cbn [Nat.eqb orb].
  replace (1 - w)%nat with 0%nat by lia. reflexivity.
Qed.

Lemma roll_step_single (sb : Q -> bool) (values : series) (i : nat) (st : mean_state) :
  roll_step sb values 1 i st
  = add_mean sb (nth i values None) (setup_state (nth i values None)).
Proof.
  unfold roll_step.
  replace (S i - 1)%nat with i by lia.
  rewrite Nat.leb_refl, orb_true_r.
  replace (S i - i)%nat with 1%nat by lia. reflexivity.
Qed.

Lemma roll_step_grow (sb : Q -> bool) (values : series) (w i : nat) (st : mean_state) :
  (2 <= w)%nat -> (1 <= i)%nat -> (i < w)%nat ->
  roll_step sb values w i st = add_mean sb (nth i values None) st.
Proof.
  intros Hw Hi Hlt. unfold roll_step.
  replace (S i - w)%nat with 0%nat by lia.
  replace (i =? 0)%nat with false by (symmetry; apply Nat.eqb_neq; lia).
  replace (i <=? 0)%nat with false by (symmetry; apply Nat.leb_gt; lia).
  cbn [orb]. replace (i - w)%nat with 0%nat by lia.
  replace (S i - i)%nat with 1%nat by lia. reflexivity.
Qed.

Lemma roll_step_slide (sb : Q -> bool) (values : series) (w i : nat) (st : mean_state) :
  (2 <= w)%nat -> (w <= i)%nat ->
  roll_step sb values w i st
  = add_mean sb (nth i values None) (remove_mean sb (nth (i - w) values None) st).
Proof.
  intros Hw Hi. unfold roll_step.
  replace (i =? 0)%nat with false by (symmetry; apply Nat.eqb_neq; lia).
  replace (i <=? S i - w)%nat with false by (symmetry; apply Nat.leb_gt; lia).
  cbn [orb]. replace (S i - w - (i - w))%nat with 1%nat by lia.
  replace (S i - i)%nat with 1%nat by lia. reflexivity.
Qed.

(** Over a series of numbers the window of row [i] holds [min (i+1) w]
    observations. *)
Lemma nobs_state_after (sb : Q -> bool) (xs : list Q) (w i : nat) :
  (1 <= w)%nat -> (i < length xs)%nat ->
  nobs (state_after sb (of_prices xs) w i) = Nat.min (S i) w.
Proof.
  intros Hw. destruct (Nat.eq_dec w 1) as [-> | Hne].
  - intros Hi. destruct i as [| k]; cbn [state_after];
      rewrite roll_step_single, (@nth_of_prices xs _ 0) by lia;
      cbn [add_mean setup_state nobs]; lia.
  - induction i as [| k IH]; intros Hi; cbn [state_after].
    + rewrite roll_step_first, (@nth_of_prices xs _ 0) by lia.
      cbn [add_mean setup_state nobs]. lia.
    + destruct (le_lt_dec w (S k)) as [Slide | Grow].
      * rewrite roll_step_slide by lia.
        rewrite !(@nth_of_prices xs _ 0) by lia.
        cbn [add_mean remove_mean nobs]. rewrite IH by lia. lia.
      * rewrite roll_step_grow by lia.
        rewrite (@nth_of_prices xs _ 0) by lia.
        cbn [add_mean nobs]. rewrite IH by lia. lia.
Qed.

Lemma sma_binary64_before_window (xs : list Q) (w i : nat) :
  (1 <= w)%nat -> (i < length xs)%nat -> (i < w - 1)%nat ->
  nth_error (sma_binary64 (of_prices xs) w) i = Some NaN.
Proof.
  intros Hw Hi Hlt. unfold sma_binary64.
  rewrite roll_mean_nth by (unfold of_prices; now rewrite length_map).
  unfold calc_mean. rewrite nobs_state_after by assumption.
  replace (w <=? Nat.min (S i) w)%nat with false; [reflexivity |].
  symmetry. apply Nat.leb_gt. lia.
Qed.

(** ** The rolling mean on integers: exact sums *)

Lemma zsum_from_snoc (zs : list Z) (s n : nat) :
  zsum_from zs s (S n) = (zsum_from zs s n + nth (s + n) zs 0)%Z.
Proof.
  revert s. induction n as [| n IH]; intros s.
  - cbn [zsum_from]. replace (s + 0)%nat with s by lia. lia.
  - change (zsum_from zs s (S (S n)))
      with (nth s zs 0 + zsum_from zs (S s) (S n))%Z.
    rewrite IH. cbn [zsum_from].
    replace (S s + n)%nat with (s + S n)%nat by lia. lia.
Qed.

Lemma negatives_from_snoc (zs : list Z) (s n : nat) :
  negatives_from zs s (S n)
  = (negatives_from zs s n + if (nth (s + n) zs 0 <? 0)%Z then 1 else 0)%nat.
Proof.
  revert s. induction n as [| n IH]; intros s.
  - cbn [negatives_from]. replace (s + 0)%nat with s by lia.
    destruct (nth s zs 0 <? 0)%Z; lia.
  - change (negatives_from zs s (S (S n)))
      with ((if (nth s zs 0 <? 0)%Z then 1 else 0)
            + negatives_from zs (S s) (S n))%nat.
    rewrite IH. cbn [negatives_from].
    replace (S s + n)%nat with (s + S n)%nat by lia.
    destruct (nth s zs 0 <? 0)%Z, (nth (s + S n) zs 0 <? 0)%Z; lia.
Qed.

Lemma zsum_from_bound (zs : list Z) (s n : nat) (B : Z) :
  (forall j : nat, (Z.abs (nth j zs 0) <= B)%Z) ->
  (Z.abs (zsum_from zs s n) <= Z.of_nat n * B)%Z.
Proof.
  intros H. revert s. induction n as [| n IH]; intros s.
  - cbn. lia.
  - cbn [zsum_from]. specialize (IH (S s)). specialize (H s). lia.
Qed.

Lemma negatives_from_le (zs : list Z) (s n : nat) :
  (negatives_from zs s n <= n)%nat.
Proof.
  revert s. induction n as [| n IH]; intros s; cbn [negatives_from]; [lia |].
  specialize (IH (S s)). destruct (nth s zs 0 <? 0)%Z; lia.
Qed.

Lemma zsum_from_no_negative (zs : list Z) (s n : nat) :
  negatives_from zs s n = 0%nat -> (0 <= zsum_from zs s n)%Z.
Proof.
  revert s. induction n as [| n IH]; intros s; cbn [negatives_from zsum_from];
    [lia |].
  destruct (nth s zs 0 <? 0)%Z eqn:E; [lia |].
  apply Z.ltb_ge in E. intros H. specialize (IH (S s) H). lia.
Qed.

Lemma zsum_from_all_negative (zs : list Z) (s n : nat) :
  negatives_from zs s n = n -> (zsum_from zs s n <= 0)%Z.
Proof.
  revert s. induction n as [| n IH]; intros s; cbn [negatives_from zsum_from];
    [lia |].
  pose proof (negatives_from_le zs (S s) n).
  destruct (nth s zs 0 <? 0)%Z eqn:E; [| lia].
  apply Z.ltb_lt in E. intros H'. specialize (IH (S s) ltac:(lia)). lia.
Qed.

Lemma zsum_from_constant (zs : list Z) (s n : nat) (c : Z) :
  (forall j : nat, (s <= j < s + n)%nat -> nth j zs 0%Z = c) ->
  zsum_from zs s n = (Z.of_nat n * c)%Z.
Proof.
  revert s. induction n as [| n IH]; intros s H; cbn [zsum_from]; [lia |].
  rewrite (H s) by lia. rewrite IH by (intros j Hj; apply H; lia). lia.
Qed.

Lemma sum_from_inject (zs : list Z) (s n : nat) :
  sum_from (map inject_Z zs) s n == inject_Z (zsum_from zs s n).
Proof.
  revert s. induction n as [| n IH]; intros s; cbn [sum_from zsum_from].
  - reflexivity.
  - rewrite IH, inject_Z_plus.
    change 0 with (inject_Z 0). rewrite map_nth. reflexivity.
Qed.

(** One addition and one removal on exact sums. *)
Lemma add_mean_integers (st : mean_state) (z S : Z) :
  f64_is (sum_x st) (inject_Z S) ->
  f64_is (compensation_add st) 0 ->
  (Z.abs z <= 2 ^ 53)%Z -> (Z.abs (S + z) <= 2 ^ 53)%Z ->
  f64_is (sum_x (add_mean signbit (Some (inject_Z z)) st)) (inject_Z (S + z))
  /\ f64_is (compensation_add (add_mean signbit (Some (inject_Z z)) st)) 0.
Proof.
  intros Hs Hc Bz Bs. cbn [add_mean sum_x compensation_add].
  assert (Y : f64_is (f64_sub (Fin (inject_Z z)) (compensation_add st)) (inject_Z z)).
  { replace z with (z - 0)%Z at 2 by lia.
    apply f64_sub_integers; [exists (inject_Z z); split; reflexivity | exact Hc | lia]. }
  assert (T : f64_is (f64_add (sum_x st)
                              (f64_sub (Fin (inject_Z z)) (compensation_add st)))
                     (inject_Z (S + z)))
    by (now apply f64_add_integers).
  split; [exact T |].
  change 0 with (inject_Z 0).
  replace 0%Z with (S + z - S - z)%Z by lia.
  apply f64_sub_integers; [| exact Y | lia].
  apply f64_sub_integers; [exact T | exact Hs | lia].
Qed.

Lemma remove_mean_integers (st : mean_state) (z S : Z) :
  f64_is (sum_x st) (inject_Z S) ->
  f64_is (compensation_remove st) 0 ->
  (Z.abs z <= 2 ^ 53)%Z -> (Z.abs (S - z) <= 2 ^ 53)%Z ->
  f64_is (sum_x (remove_mean signbit (Some (inject_Z z)) st)) (inject_Z (S - z))
  /\ f64_is (compensation_remove (remove_mean signbit (Some (inject_Z z)) st)) 0.
Proof.
  intros Hs Hc Bz Bs. cbn [remove_mean sum_x compensation_remove].
  assert (Y : f64_is (f64_sub (f64_neg (Fin (inject_Z z))) (compensation_remove st))
                     (inject_Z (- z))).
  { replace (- z)%Z with (- z - 0)%Z by lia.
    apply f64_sub_integers; [| exact Hc | lia].
    apply f64_neg_integer. exists (inject_Z z). split; reflexivity. }
  assert (T : f64_is (f64_add (sum_x st)
                              (f64_sub (f64_neg (Fin (inject_Z z)))
                                       (compensation_remove st)))
                     (inject_Z (S - z))).
  { replace (S - z)%Z with (S + - z)%Z by lia.
    apply f64_add_integers; [exact Hs | exact Y | lia]. }
  split; [exact T |].
  change 0 with (inject_Z 0).
  replace 0%Z with (S - z - S - - z)%Z by lia.
  apply f64_sub_integers; [| exact Y | lia].
  apply f64_sub_integers; [exact T | exact Hs | lia].
Qed.

Lemma signbit_integer (z : Z) : signbit (inject_Z z) = (z <? 0)%Z.
Proof.
  unfold signbit. destruct (z <? 0)%Z eqn:E.
  - apply Z.ltb_lt in E. apply Qlt_bool_iff.
    change 0 with (inject_Z 0). now rewrite <- Zlt_Qlt.
  - apply Z.ltb_ge in E. apply not_true_is_false. intros H.
    apply Qlt_bool_iff in H. change 0 with (inject_Z 0) in H.
    rewrite <- Zlt_Qlt in H. lia.
Qed.

Lemma same_as_previous (z z' : Z) (prev : f64) :
  f64_is prev (inject_Z z) ->
  f64_eqb (Fin (inject_Z z')) prev = (z' =? z)%Z.
Proof.
  intros [p [-> E]]. cbn [f64_eqb]. destruct (z' =? z)%Z eqn:C.
  - apply Z.eqb_eq in C. subst z'. apply Qeq_bool_iff. now rewrite E.
  - apply Z.eqb_neq in C. apply not_true_is_false. intros H.
    apply Qeq_bool_iff in H. rewrite E in H.
    destruct (inject_Z_injective z' z) as [F _]. apply C, F, H.
Qed.

Lemma nth_integer_prices (zs : list Z) (j : nat) :
  (j < length zs)%nat ->
  nth j (of_prices (map inject_Z zs)) None = Some (inject_Z (nth j zs 0%Z)).
Proof.
  intros H. rewrite (@nth_of_prices (map inject_Z zs) j 0)
    by (now rewrite length_map).
  f_equal. change 0 with (inject_Z 0). apply map_nth.
Qed.

(** The run of equal values after one more row. *)
Lemma run_after_add (zs : list Z) (i run : nat) :
  (1 <= run)%nat ->
  (forall j : nat, (j <= i)%nat -> (i - j < run)%nat ->
                   nth j zs 0%Z = nth i zs 0%Z) ->
  let run' := if (nth (S i) zs 0 =? nth i zs 0)%Z then S run else 1%nat in
  (1 <= run')%nat
  /\ forall j : nat, (j <= S i)%nat -> (S i - j < run')%nat ->
                     nth j zs 0%Z = nth (S i) zs 0%Z.
Proof.
  intros Hrun Hsame. cbv zeta.
  destruct (nth (S i) zs 0 =? nth i zs 0)%Z eqn:E.
  - apply Z.eqb_eq in E. split; [lia |]. intros j Hj Hlt.
    destruct (Nat.eq_dec j (S i)) as [-> | Hne]; [reflexivity |].
    rewrite E. apply Hsame; lia.
  - split; [lia |]. intros j Hj Hlt.
    replace j with (S i) by lia. reflexivity.
Qed.

Lemma zsum_from_head (zs : list Z) (s n : nat) :
  (1 <= n)%nat ->
  zsum_from zs s n = (nth s zs 0 + zsum_from zs (S s) (n - 1))%Z.
Proof.
  intros H. destruct n as [| m]; [lia |].
  cbn [zsum_from]. now replace (S m - 1)%nat with m by lia.
Qed.

Lemma zsum_from_last (zs : list Z) (s n : nat) :
  (1 <= n)%nat ->
  zsum_from zs s n = (zsum_from zs s (n - 1) + nth (s + (n - 1)) zs 0)%Z.
Proof.
  intros H. destruct n as [| m]; [lia |].
  rewrite zsum_from_snoc. now replace (S m - 1)%nat with m by lia.
Qed.

Lemma negatives_from_head (zs : list Z) (s n : nat) :
  (1 <= n)%nat ->
  negatives_from zs s n
  = ((if (nth s zs 0 <? 0)%Z then 1 else 0)
     + negatives_from zs (S s) (n - 1))%nat.
Proof.
  intros H. destruct n as [| m]; [lia |].
  cbn [negatives_from]. now replace (S m - 1)%nat with m by lia.
Qed.

Lemma negatives_from_last (zs : list Z) (s n : nat) :
  (1 <= n)%nat ->
  negatives_from zs s n
  = (negatives_from zs s (n - 1)
     + if (nth (s + (n - 1)) zs 0 <? 0)%Z then 1 else 0)%nat.
Proof.
  intros H. destruct n as [| m]; [lia |].
  rewrite negatives_from_snoc. now replace (S m - 1)%nat with m by lia.
Qed.

(** While every window sum is an integer of at most [2^53] in magnitude,
    the loop carries the exact sum and no compensation. *)
Lemma state_after_exact (zs : list Z) (w i : nat) (B : Z) :
  (2 <= w)%nat -> (i < length zs)%nat ->
  (forall j : nat, (Z.abs (nth j zs 0) <= B)%Z) ->
  (Z.of_nat w * B <= 2 ^ 53)%Z ->
  exact_state zs w i (state_after signbit (of_prices (map inject_Z zs)) w i).
Proof.
  intros Hw Hi Hb Hcap.
  assert (B0 : (0 <= B)%Z) by (specialize (Hb 0%nat); lia).
  assert (Each : forall j : nat, (Z.abs (nth j zs 0) <= 2 ^ 53)%Z).
  { intros j. specialize (Hb j). nia. }
  assert (Sums : forall s n : nat, (n <= w)%nat ->
                                   (Z.abs (zsum_from zs s n) <= 2 ^ 53)%Z).
  { intros s n Hn. pose proof (zsum_from_bound zs s n Hb). nia. }
  induction i as [| k IH]; cbn [state_after].
  - rewrite roll_step_first, nth_integer_prices by lia.
    destruct (@add_mean_integers (setup_state (Some (inject_Z (nth 0 zs 0%Z))))
                (nth 0 zs 0%Z) 0%Z) as [Sum Comp].
    { exists 0. split; reflexivity. }
    { exists 0. split; reflexivity. }
    { apply Each. }
    { cbn [Z.add]. apply Each. }
    unfold exact_state.
    replace (1 - w)%nat with 0%nat by lia.
    replace (Nat.min 1 w) with 1%nat by lia.
    cbn [zsum_from negatives_from].
    split; [reflexivity |]. split.
    { cbn [add_mean neg_ct setup_state]. rewrite signbit_integer.
      destruct (nth 0 zs 0 <? 0)%Z; reflexivity. }
    split; [now rewrite Z.add_0_r; rewrite Z.add_0_l in Sum |].
    split; [exact Comp |].
    split; [exists 0; split; reflexivity |].
    split; [eexists; split; reflexivity |].
    assert (Run : num_consecutive_same_value
                    (add_mean signbit (Some (inject_Z (nth 0 zs 0%Z)))
                              (setup_state (Some (inject_Z (nth 0 zs 0%Z)))))
                  = 1%nat).
    { cbn [add_mean setup_state num_consecutive_same_value prev_value f64_eqb].
      replace (Qeq_bool (inject_Z (nth 0 zs 0%Z)) (inject_Z (nth 0 zs 0%Z)))
        with true by (symmetry; apply Qeq_bool_iff; reflexivity).
      reflexivity. }
    rewrite Run. split; [lia |]. intros j Hj _. now replace j with 0%nat by lia.
  - specialize (IH ltac:(lia)).
    destruct IH as [Hn [Hneg [Hsum [Hca [Hcr [Hprev [Hrun Hsame]]]]]]].
    set (st := state_after signbit (of_prices (map inject_Z zs)) w k) in *.
    pose proof (@run_after_add zs k (num_consecutive_same_value st) Hrun Hsame)
      as Run.
    cbv zeta in Run.
    destruct (le_lt_dec w (S k)) as [Slide | Grow].
    + rewrite roll_step_slide, !nth_integer_prices by lia.
      replace (Nat.min (S k) w) with w in * by lia.
      set (old := nth (S k - w) zs 0%Z).
      set (new := nth (S k) zs 0%Z).
      assert (Old : zsum_from zs (S k - w) w
                    = (old + zsum_from zs (S (S k - w)) (w - 1))%Z).
      { apply zsum_from_head. lia. }
      assert (OldNeg : negatives_from zs (S k - w) w
                       = ((if (old <? 0)%Z then 1 else 0)
                          + negatives_from zs (S (S k - w)) (w - 1))%nat).
      { apply negatives_from_head. lia. }
      assert (New : zsum_from zs (S (S k) - w) w
                    = (zsum_from zs (S (S k - w)) (w - 1) + new)%Z).
      { rewrite zsum_from_last by lia.
        replace (S (S k) - w)%nat with (S (S k - w)) by lia.
        replace (S (S k - w) + (w - 1))%nat with (S k) by lia. reflexivity. }
      assert (NewNeg : negatives_from zs (S (S k) - w) w
                       = (negatives_from zs (S (S k - w)) (w - 1)
                          + if (new <? 0)%Z then 1 else 0)%nat).
      { rewrite negatives_from_last by lia.
        replace (S (S k) - w)%nat with (S (S k - w)) by lia.
        replace (S (S k - w) + (w - 1))%nat with (S k) by lia. reflexivity. }
      destruct (@remove_mean_integers st old (zsum_from zs (S k - w) w))
        as [Sum1 Comp1]; try assumption.
      { apply Each. }
      { rewrite Old. replace (old + _ - old)%Z
          with (zsum_from zs (S (S k - w)) (w - 1)) by lia.
        apply Sums. lia. }
      set (st1 := remove_mean signbit (Some (inject_Z old)) st) in *.
      destruct (@add_mean_integers st1 new (zsum_from zs (S k - w) w - old))
        as [Sum2 Comp2].
      { exact Sum1. }
      { exact Hca. }
      { apply Each. }
      { rewrite Old. replace (old + _ - old + new)%Z
          with (zsum_from zs (S (S k) - w) w) by (rewrite New; lia).
        apply Sums. lia. }
      unfold exact_state.
      replace (Nat.min (S (S k)) w) with w by lia.
      split.
      { cbn [add_mean nobs]. unfold st1. cbn [remove_mean nobs]. lia. }
      split.
      { cbn [add_mean neg_ct]. unfold st1. cbn [remove_mean neg_ct].
        rewrite !signbit_integer, Hneg, NewNeg, OldNeg.
        destruct (old <? 0)%Z, (new <? 0)%Z; lia. }
      split.
      { replace (zsum_from zs (S (S k) - w) w)
          with (zsum_from zs (S k - w) w - old + new)%Z by (rewrite New, Old; lia).
        exact Sum2. }
      split; [exact Comp2 |].
      split; [exact Comp1 |].
      split; [eexists; split; reflexivity |].
      assert (R : num_consecutive_same_value (add_mean signbit (Some (inject_Z new)) st1)
                  = if (new =? nth k zs 0)%Z
                    then S (num_consecutive_same_value st) else 1%nat).
      { cbn [add_mean num_consecutive_same_value]. unfold st1.
        cbn [remove_mean prev_value num_consecutive_same_value].
        now rewrite (same_as_previous new Hprev). }
      rewrite R. exact Run.
    + rewrite roll_step_grow, nth_integer_prices by lia.
      replace (Nat.min (S k) w) with (S k) in * by lia.
      replace (S k - w)%nat with 0%nat in * by lia.
      set (new := nth (S k) zs 0%Z).
      destruct (@add_mean_integers st new (zsum_from zs 0 (S k)))
        as [Sum2 Comp2]; try assumption.
      { apply Each. }
      { replace (zsum_from zs 0 (S k) + new)%Z with (zsum_from zs 0 (S (S k)))
          by (rewrite (zsum_from_snoc zs 0 (S k)); reflexivity).
        apply Sums. lia. }
      unfold exact_state.
      replace (Nat.min (S (S k)) w) with (S (S k)) by lia.
      replace (S (S k) - w)%nat with 0%nat by lia.
      split; [cbn [add_mean nobs]; lia |].
      split.
      { cbn [add_mean neg_ct]. rewrite signbit_integer, Hneg.
        rewrite (negatives_from_snoc zs 0 (S k)). cbn [Nat.add]. fold new.
        destruct (new <? 0)%Z; lia. }
      split.
      { rewrite (zsum_from_snoc zs 0 (S k)). exact Sum2. }
      split; [exact Comp2 |].
      split; [exact Hcr |].
      split; [eexists; split; reflexivity |].
      assert (R : num_consecutive_same_value (add_mean signbit (Some (inject_Z new)) st)
                  = if (new =? nth k zs 0)%Z
                    then S (num_consecutive_same_value st) else 1%nat).
      { cbn [add_mean num_consecutive_same_value].
        now rewrite (same_as_previous new Hprev). }
      rewrite R. exact Run.
Qed.

(** ** Rounding depends on the value only *)

(** At a tie the even neighbour is returned. *)
Lemma round_half_even_tie_even (q : Q) :
  Qabs (inject_Z (round_half_even q) - q) == 1 # 2 ->
  Z.even (round_half_even q) = true.
Proof.
  unfold round_half_even. destruct q as [n d]. cbn [Qnum Qden].
  pose proof (Z.div_mod n (Z.pos d) ltac:(lia)) as D.
  pose proof (Z.mod_pos_bound n (Z.pos d) ltac:(lia)) as B.
  set (fl := (n / Z.pos d)%Z) in *. set (r := (n mod Z.pos d)%Z) in *.
  clearbody fl r.
  assert (Dist : forall z : Z,
             Qabs (inject_Z z - (n # d)) == 1 # 2 ->
             (2 * (z * Z.pos d - n) = Z.pos d \/ 2 * (n - z * Z.pos d) = Z.pos d)%Z).
  { intros z H.
    assert (E : inject_Z z - (n # d) == (z * Z.pos d - n # d)).
    { unfold Qeq, Qminus, Qplus, Qopp, inject_Z. cbn. lia. }
    rewrite E in H. unfold Qabs, Qeq in H. cbn in H.
    destruct (Z_le_gt_dec 0 (z * Z.pos d - n)) as [P | N].
    - rewrite Z.abs_eq in H by exact P. left. lia.
    - rewrite Z.abs_neq in H by lia. right. lia. }
  destruct (2 * r ?= Z.pos d)%Z eqn:C.
  - intros _. destruct (Z.even fl) eqn:E; [exact E |].
    rewrite Z.even_add, E. reflexivity.
  - change (2 * r < Z.pos d)%Z in C. intros H. apply Dist in H. exfalso. nia.
  - apply Z.compare_gt_iff in C. intros H. apply Dist in H. exfalso. nia.
Qed.

Lemma round_half_even_proper (p q : Q) :
  p == q -> round_half_even p = round_half_even q.
Proof.
  intros E.
  destruct (round_half_even_near p) as [Lp Up].
  destruct (round_half_even_near q) as [Lq Uq].
  pose proof (@round_half_even_tie_even p) as Tp.
  pose proof (@round_half_even_tie_even q) as Tq.
  remember (round_half_even p) as a eqn:Ha.
  remember (round_half_even q) as b eqn:Hb.
  clear Ha Hb. rewrite E in Lp, Up, Tp.
  assert (Close : (a - b <= 1 /\ b - a <= 1)%Z).
  { split.
    - assert (inject_Z (a - b) <= inject_Z 1).
      { unfold Z.sub. rewrite inject_Z_plus, inject_Z_opp.
        change (inject_Z 1) with 1. lra. }
      now rewrite <- Zle_Qle in H.
    - assert (inject_Z (b - a) <= inject_Z 1).
      { unfold Z.sub. rewrite inject_Z_plus, inject_Z_opp.
        change (inject_Z 1) with 1. lra. }
      now rewrite <- Zle_Qle in H. }
  destruct (Z.eq_dec a b) as [Same | Diff]; [exact Same | exfalso].
  assert (Step : inject_Z b == inject_Z a + 1 \/ inject_Z a == inject_Z b + 1).
  { destruct (Z_lt_le_dec a b) as [Lt | Ge].
    - left. replace b with (a + 1)%Z by lia. rewrite inject_Z_plus. reflexivity.
    - right. replace a with (b + 1)%Z by lia. rewrite inject_Z_plus. reflexivity. }
  assert (Parity : Z.even a = negb (Z.even b)).
  { destruct (Z_lt_le_dec a b) as [Lt | Ge].
    - replace b with (a + 1)%Z by lia. rewrite Z.even_add.
      destruct (Z.even a); reflexivity.
    - replace a with (b + 1)%Z by lia. rewrite Z.even_add.
      destruct (Z.even b); reflexivity. }
  assert (Ta : Qabs (inject_Z a - q) == 1 # 2).
  { destruct Step as [S | S].
    - assert (H : inject_Z a - q == - (1 # 2)) by lra. rewrite H. reflexivity.
    - assert (H : inject_Z a - q == 1 # 2) by lra. rewrite H. reflexivity. }
  assert (Tb : Qabs (inject_Z b - q) == 1 # 2).
  { destruct Step as [S | S].
    - assert (H : inject_Z b - q == 1 # 2) by lra. rewrite H. reflexivity.
    - assert (H : inject_Z b - q == - (1 # 2)) by lra. rewrite H. reflexivity. }
  rewrite (Tp Ta), (Tq Tb) in Parity. discriminate.
Qed.

Lemma log2_ratio_proper (n d n' d' : Z) :
  (0 < n)%Z -> (0 < d)%Z -> (0 < n')%Z -> (0 < d')%Z ->
  n # Z.to_pos d == n' # Z.to_pos d' ->
  log2_ratio n d = log2_ratio n' d'.
Proof.
  intros Hn Hd Hn' Hd' E.
  assert (log2_ratio n d <= log2_ratio n' d')%Z
    by (apply log2_ratio_mono; try assumption; rewrite E; apply Qle_refl).
  assert (log2_ratio n' d' <= log2_ratio n d)%Z
    by (apply log2_ratio_mono; try assumption; rewrite E; apply Qle_refl).
  lia.
Qed.

Lemma round_binary64_proper (n d n' d' : Z) :
  (0 < n)%Z -> (0 < d)%Z -> (0 < n')%Z -> (0 < d')%Z ->
  n # Z.to_pos d == n' # Z.to_pos d' ->
  round_binary64 n d = round_binary64 n' d'.
Proof.
  intros Hn Hd Hn' Hd' E. unfold round_binary64.
  rewrite (log2_ratio_proper Hn Hd Hn' Hd' E).
  set (s := (Z.max (log2_ratio n' d') (-1022) - 52)%Z).
  assert (M : round_half_even ((n # Z.to_pos d) / Qpow2 s)
              = round_half_even ((n' # Z.to_pos d') / Qpow2 s)).
  { apply round_half_even_proper. now rewrite E. }
  now rewrite M.
Qed.

Lemma f64_round_proper (p q : Q) : p == q -> f64_round p = f64_round q.
Proof.
  intros E. unfold f64_round.
  destruct p as [a d], q as [b d']. cbn [Qnum Qden].
  assert (Cross : (a * Z.pos d' = b * Z.pos d)%Z) by exact E.
  destruct a as [| a | a], b as [| b | b]; try lia; try reflexivity.
  - rewrite (@round_binary64_proper (Z.pos a) (Z.pos d) (Z.pos b) (Z.pos d'));
      try lia; [reflexivity | exact E].
  - rewrite (@round_binary64_proper (Z.pos a) (Z.pos d) (Z.pos b) (Z.pos d'));
      try lia; [reflexivity |].
    unfold Qeq. cbn. lia.
Qed.

(** A rational of magnitude at most [2^53] rounds to a finite value of its
    sign. *)
Lemma f64_round_bounded (q : Q) :
  Qabs q <= inject_Z (2 ^ 53) ->
  exists v : Q,
    f64_round q = Fin v /\ (0 <= q -> 0 <= v) /\ (q <= 0 -> v <= 0).
Proof.
  intros H.
  assert (Top : is_binary64 (inject_Z (2 ^ 53)))
    by (apply is_binary64_integer; reflexivity).
  destruct (Qlt_le_dec q 0) as [Neg | Pos].
  - assert (Hq : Qabs q == - q) by (apply Qabs_neg; lra).
    destruct (@f64_round_upper (- q) (inject_Z (2 ^ 53))) as [u [R [U0 _]]];
      try lra; [exact Top |].
    destruct (@f64_round_opp (- q) u) as [v [Rv Ev]]; [exists u; split; auto; reflexivity |].
    assert (Back : - - q = q).
    { destruct q as [n d]. unfold Qopp. cbn. now rewrite Z.opp_involutive. }
    rewrite Back in Rv. exists v. split; [exact Rv |].
    split; intros; lra.
  - assert (Hq : Qabs q == q) by (apply Qabs_pos; exact Pos).
    destruct (@f64_round_upper q (inject_Z (2 ^ 53))) as [v [R [V0 _]]];
      try lra; [exact Top |].
    exists v. split; [exact R |]. split; intros; [exact V0 |].
    assert (q == 0) by lra.
    rewrite (f64_round_zero H1) in R. injection R as <-. lra.
Qed.

(** ** The moving average of integers *)

Lemma mean_of_integers (zs : list Z) (w i : nat) :
  (1 <= w)%nat ->
  mean_ending_at (map inject_Z zs) w i
  == inject_Z (zsum_from zs (S i - w) w) / inject_Z (Z.of_nat w).
Proof.
  intros Hw. unfold mean_ending_at.
  replace (i + 1 - w)%nat with (S i - w)%nat by lia.
  now rewrite sum_from_inject.
Qed.

Lemma positive_count_not_zero (w : nat) :
  (1 <= w)%nat -> ~ inject_Z (Z.of_nat w) == 0.
Proof.
  intros Hw H. change 0 with (inject_Z 0) in H.
  destruct (inject_Z_injective (Z.of_nat w) 0) as [F _]. apply F in H. lia.
Qed.

Lemma integer_quotient_bounds (S : Z) (w : nat) (u : Q) :
  (1 <= w)%nat -> u == inject_Z S -> (Z.abs S <= 2 ^ 53)%Z ->
  Qabs (u / inject_Z (Z.of_nat w)) <= inject_Z (2 ^ 53)
  /\ ((0 <= S)%Z -> 0 <= u / inject_Z (Z.of_nat w))
  /\ ((S <= 0)%Z -> u / inject_Z (Z.of_nat w) <= 0).
Proof.
  intros Hw E B.
  assert (Pw : 0 < inject_Z (Z.of_nat w)).
  { change 0 with (inject_Z 0). rewrite <- Zlt_Qlt. lia. }
  assert (W1 : 1 <= inject_Z (Z.of_nat w)).
  { change 1 with (inject_Z 1). rewrite <- Zle_Qle. lia. }
  assert (Up : inject_Z S <= inject_Z (2 ^ 53)) by (rewrite <- Zle_Qle; lia).
  assert (Lo : - inject_Z (2 ^ 53) <= inject_Z S).
  { rewrite <- inject_Z_opp, <- Zle_Qle. lia. }
  assert (P53 : 0 < inject_Z (2 ^ 53)) by reflexivity.
  split; [| split].
  - apply Qabs_Qle_condition. split.
    + apply Qle_shift_div_l; [exact Pw |]. rewrite E. nra.
    + apply Qle_shift_div_r; [exact Pw |]. rewrite E. nra.
  - intros H. apply Qle_shift_div_l; [exact Pw |]. rewrite E, Qmult_0_l.
    change 0 with (inject_Z 0). now rewrite <- Zle_Qle.
  - intros H. apply Qle_shift_div_r; [exact Pw |]. rewrite E, Qmult_0_l.
    change 0 with (inject_Z 0). now rewrite <- Zle_Qle.
Qed.

(** On integers whose window sums stay within [2^53] the moving average is
    the arithmetic mean of the window, rounded once. *)
Lemma sma_binary64_integers (zs : list Z) (w i : nat) (B : Z) :
  (1 <= w)%nat ->
  (forall z : Z, In z zs -> (Z.abs z <= B)%Z) ->
  (Z.of_nat w * B <= 2 ^ 53)%Z ->
  (w - 1 <= i)%nat -> (i < length zs)%nat ->
  exists v u : Q,
    f64_round (mean_ending_at (map inject_Z zs) w i) = Fin v
    /\ nth_error (sma_binary64 (of_prices (map inject_Z zs)) w) i = Some (Fin u)
    /\ u == v.
Proof.
  intros Hw Hin Hcap Hi Hlen.
  assert (Hb : forall j : nat, (Z.abs (nth j zs 0) <= B)%Z).
  { assert (B0 : (0 <= B)%Z).
    { specialize (Hin (nth i zs 0%Z) (nth_In zs 0%Z Hlen)). lia. }
    intros j. destruct (le_lt_dec (length zs) j) as [Out | In'].
    - rewrite nth_overflow by exact Out. cbn. exact B0.
    - apply Hin, nth_In, In'. }
  assert (Each : forall j : nat, (Z.abs (nth j zs 0) <= 2 ^ 53)%Z).
  { intros j. specialize (Hb j). nia. }
  unfold sma_binary64.
  rewrite roll_mean_nth
    by (unfold of_prices; now rewrite !length_map).
  destruct (Nat.eq_dec w 1) as [-> | Hne].
  - (* a window of one row: the row itself *)
    assert (St : state_after signbit (of_prices (map inject_Z zs)) 1 i
                 = add_mean signbit (Some (inject_Z (nth i zs 0%Z)))
                            (setup_state (Some (inject_Z (nth i zs 0%Z))))).
    { destruct i as [| k]; cbn [state_after];
        now rewrite roll_step_single, nth_integer_prices by lia. }
    rewrite St. unfold calc_mean.
    cbn [add_mean setup_state nobs num_consecutive_same_value prev_value f64_eqb].
    replace (Qeq_bool (inject_Z (nth i zs 0%Z)) (inject_Z (nth i zs 0%Z)))
      with true by (symmetry; apply Qeq_bool_iff; reflexivity).
    cbn [Nat.leb Nat.ltb andb].
    destruct (@f64_round_exact (mean_ending_at (map inject_Z zs) 1 i)
                (inject_Z (nth i zs 0%Z))) as [v [R E]].
    + rewrite mean_of_integers by lia.
      replace (S i - 1)%nat with i by lia. cbn [zsum_from].
      rewrite Z.add_0_r. change (inject_Z (Z.of_nat 1)) with 1. field.
    + apply is_binary64_integer, Each.
    + exists v, (inject_Z (nth i zs 0%Z)).
      split; [exact R |]. split; [reflexivity |]. now rewrite E.
  - pose proof (@state_after_exact zs w i B ltac:(lia) Hlen Hb Hcap) as Inv.
    destruct Inv as [Hn [Hneg [Hsum [_ [_ [Hprev [Hrun Hsame]]]]]]].
    set (st := state_after signbit (of_prices (map inject_Z zs)) w i) in *.
    replace (Nat.min (S i) w) with w in * by lia.
    set (S := zsum_from zs (Datatypes.S i - w) w) in *.
    assert (BS : (Z.abs S <= 2 ^ 53)%Z).
    { pose proof (zsum_from_bound zs (Datatypes.S i - w) w Hb). subst S. nia. }
    pose proof (@mean_of_integers zs w i Hw) as Mean. fold S in Mean.
    unfold calc_mean. rewrite Hn.
    replace ((w <=? w)%nat && (0 <? w)%nat) with true
      by (symmetry; apply andb_true_iff; split;
          [apply Nat.leb_refl | apply Nat.ltb_lt; lia]).
    destruct (w <=? num_consecutive_same_value st)%nat eqn:Run.
    + (* the window holds one value *)
      apply Nat.leb_le in Run.
      assert (Const : S = (Z.of_nat w * nth i zs 0)%Z).
      { subst S. apply zsum_from_constant. intros j Hj. apply Hsame; lia. }
      destruct Hprev as [p [Ep Eq]].
      destruct (@f64_round_exact (mean_ending_at (map inject_Z zs) w i)
                  (inject_Z (nth i zs 0%Z))) as [v [R E]].
      * rewrite Mean, Const, inject_Z_mult. field.
        now apply positive_count_not_zero.
      * apply is_binary64_integer, Each.
      * exists v, p. split; [exact R |]. split; [now rewrite Ep |].
        now rewrite E.
    + destruct Hsum as [u0 [Eu Es]]. rewrite Eu.
      rewrite f64_div_fin by (now apply positive_count_not_zero).
      destruct (@integer_quotient_bounds S w u0 Hw Es BS) as [Bq [Pq Nq]].
      destruct (@f64_round_bounded (u0 / inject_Z (Z.of_nat w)) Bq) as [v [R [V0 V1]]].
      rewrite R. cbn [f64_ltb].
      assert (C1 : (neg_ct st =? 0)%nat && Qlt_bool v 0 = false).
      { destruct (neg_ct st =? 0)%nat eqn:Z0; [| reflexivity].
        apply Nat.eqb_eq in Z0. rewrite Hneg in Z0.
        apply zsum_from_no_negative in Z0. fold S in Z0.
        cbn [andb]. apply not_true_is_false. intros H.
        apply Qlt_bool_iff in H. specialize (V0 (Pq Z0)). lra. }
      assert (C2 : (neg_ct st =? w)%nat && Qlt_bool 0 v = false).
      { destruct (neg_ct st =? w)%nat eqn:Zw; [| reflexivity].
        apply Nat.eqb_eq in Zw. rewrite Hneg in Zw.
        apply zsum_from_all_negative in Zw. fold S in Zw.
        cbn [andb]. apply not_true_is_false. intros H.
        apply Qlt_bool_iff in H. specialize (V1 (Nq Zw)). lra. }
      rewrite C1, C2.
      exists v, v. split; [| split; [reflexivity | reflexivity]].
      rewrite <- R. apply f64_round_proper. rewrite Mean, Es. reflexivity.
Qed.

Lemma f64_round_relative (q v : Q) :
  f64_round q = Fin v -> Qpow2 (-1022) <= Qabs q ->
  Qabs (v - q) <= Qabs q * Qpow2 (-53).
Proof.
  intros R Hn. pose proof (Qpow2_pos (-1022)) as P.
  destruct (Qlt_le_dec 0 q) as [Pos | NonPos].
  - destruct (f64_round_pos Pos) as [n [En Rn]]. rewrite Rn in R.
    destruct (round_binary64 (Z.pos n) (Z.pos (Qden q))) as [u |] eqn:Ru;
      [| discriminate].
    injection R as ->.
    pose proof (Qmake_num_den q En) as Eq.
    rewrite (Qabs_pos q) in * by lra.
    rewrite <- Eq.
    apply round_binary64_relative; try lia; [| exact Ru].
    now rewrite Eq.
  - destruct (Qlt_le_dec q 0) as [Neg | Zero].
    + destruct (Qnum_neg Neg) as [n En].
      unfold f64_round in R. rewrite En in R.
      destruct (round_binary64 (Z.pos n) (Z.pos (Qden q))) as [u |] eqn:Ru;
        [| discriminate].
      injection R as <-.
      assert (Eq : Z.pos n # Z.to_pos (Z.pos (Qden q)) == - q).
      { destruct q as [a d]. cbn in *. subst a. reflexivity. }
      rewrite (Qabs_neg q) in * by lra.
      setoid_replace (- u - q) with (- (u - - q)) by ring.
      rewrite Qabs_opp, <- Eq.
      apply round_binary64_relative; try lia; [| exact Ru].
      now rewrite Eq.
    + exfalso. assert (E : q == 0) by lra. rewrite E in Hn.
      change (Qabs 0) with 0 in Hn. lra.
Qed.

(** C2, as the source has it.  For a series of numbers and a window
    [w >= 1], [sma] keeps the length of the series and is null at every
    position before [w-1], hence everywhere when the series is shorter than
    [w].  From position [w-1] on the value comes from a running sum in
    binary64: on integers whose window sums stay within [2^53] it is the
    arithmetic mean of the [w] values ending there, rounded to the nearest
    binary64, so within a relative error of [2^-53] of the mean and equal to
    it when the mean is itself a binary64 value. *)
Theorem C2_moving_average (xs : list Q) (w : nat) :
  (1 <= w)%nat ->
  length (sma_binary64 (of_prices xs) w) = length xs
  /\ (forall i : nat, (i < length xs)%nat -> (i < w - 1)%nat ->
        nth_error (sma_binary64 (of_prices xs) w) i = Some NaN)
  /\ ((length xs < w)%nat ->
      forall i : nat, (i < length xs)%nat ->
        nth_error (sma_binary64 (of_prices xs) w) i = Some NaN)
  /\ (forall (zs : list Z) (B : Z),
        xs = map inject_Z zs ->
        (forall z : Z, In z zs -> (Z.abs z <= B)%Z) ->
        (Z.of_nat w * B <= 2 ^ 53)%Z ->
        forall i : nat, (w - 1 <= i)%nat -> (i < length xs)%nat ->
          exists v u : Q,
            f64_round (mean_ending_at xs w i) = Fin v
            /\ nth_error (sma_binary64 (of_prices xs) w) i = Some (Fin u)
            /\ u == v
            /\ Qabs (u - mean_ending_at xs w i)
               <= Qabs (mean_ending_at xs w i) * Qpow2 (-53)
            /\ (is_binary64 (mean_ending_at xs w i) ->
                u == mean_ending_at xs w i)).
Proof.
  intros Hw.
  split.
  { unfold sma_binary64. rewrite roll_mean_length. unfold of_prices.
    apply length_map. }
  split; [intros i Hi Hlt; now apply sma_binary64_before_window |].
  split; [intros Hshort i Hi; apply sma_binary64_before_window; lia |].
  intros zs B -> Hin Hcap i Hi Hlen. rewrite length_map in Hlen.
  destruct (@sma_binary64_integers zs w i B Hw Hin Hcap Hi Hlen)
    as [v [u [R [N E]]]].
  exists v, u. split; [exact R |]. split; [exact N |]. split; [exact E |].
  split.
  - rewrite E.
    set (m := mean_ending_at (map inject_Z zs) w i) in *.
    destruct (Qeq_dec m 0) as [Z0 | NZ].
    + rewrite (f64_round_zero Z0) in R. injection R as <-.
      rewrite Z0. change (Qabs 0) with 0. rewrite Qmult_0_l.
      change (0 - 0) with 0. change (Qabs 0) with 0. lra.
    + apply f64_round_relative; [exact R |].
      pose proof (@mean_of_integers zs w i Hw) as Mean. fold m in Mean.
      set (S := zsum_from zs (Datatypes.S i - w) w) in *.
      assert (SN : S <> 0%Z).
      { intros H. apply NZ. rewrite Mean, H. field.
        now apply positive_count_not_zero. }
      assert (B1 : (1 <= B)%Z).
      { destruct (Z_lt_le_dec B 1) as [Small | Big]; [exfalso | exact Big].
        apply SN. subst S.
        rewrite (@zsum_from_constant zs (Datatypes.S i - w) w 0); [lia |].
        intros j Hj.
        destruct (le_lt_dec (length zs) j) as [Out | In'].
        - now apply nth_overflow.
        - specialize (Hin (nth j zs 0%Z) (nth_In zs 0%Z In')). lia. }
      assert (Wb : (Z.of_nat w <= 2 ^ 53)%Z) by nia.
      assert (Pw : 0 < inject_Z (Z.of_nat w)).
      { change 0 with (inject_Z 0). rewrite <- Zlt_Qlt. lia. }
      assert (Low : 1 / inject_Z (2 ^ 53) <= Qabs m).
      { rewrite Mean.
        assert (A1 : 1 <= Qabs (inject_Z S)).
        { rewrite <- (Qabs_Zabs S) || idtac.
          change 1 with (inject_Z 1).
          destruct (Z_lt_le_dec S 0) as [Neg | Pos].
          - rewrite Qabs_neg by (change 0 with (inject_Z 0); rewrite <- Zle_Qle; lia).
            rewrite <- inject_Z_opp, <- Zle_Qle. lia.
          - rewrite Qabs_pos by (change 0 with (inject_Z 0); rewrite <- Zle_Qle; lia).
            rewrite <- Zle_Qle. lia. }
        unfold Qdiv. rewrite Qabs_Qmult.
        assert (A2 : / inject_Z (2 ^ 53) <= Qabs (/ inject_Z (Z.of_nat w))).
        { rewrite Qabs_pos by (apply Qlt_le_weak, Qinv_lt_0_compat; exact Pw).
          assert (W53 : inject_Z (Z.of_nat w) <= inject_Z (2 ^ 53))
            by (now rewrite <- Zle_Qle).
          apply Qle_shift_inv_l; [exact Pw |].
          setoid_replace (/ inject_Z (2 ^ 53) * inject_Z (Z.of_nat w))
            with (inject_Z (Z.of_nat w) / inject_Z (2 ^ 53)) by (field; discriminate).
          apply Qle_shift_div_r; [reflexivity | lra]. }
        assert (A3 : 0 < / inject_Z (2 ^ 53)) by reflexivity.
        setoid_replace (1 * / inject_Z (2 ^ 53)) with (/ inject_Z (2 ^ 53)) by ring.
        nra. }
      eapply Qle_trans; [| exact Low]. vm_compute. discriminate.
  - intros [v' [R' E']]. rewrite R in R'. injection R' as <-.
    now rewrite E, E'.
Qed.

Lemma C2_moving_average_witness :
  length (sma_binary64 (of_prices [1; 2; 3; 4; 6]) 2) = 5%nat
  /\ nth_error (sma_binary64 (of_prices [1; 2; 3; 4; 6]) 2) 0 = Some NaN
  /\ exists u : Q,
       nth_error (sma_binary64 (of_prices [1; 2; 3; 4; 6]) 2) 4 = Some (Fin u)
       /\ u == 5.
Proof.
  destruct (@C2_moving_average [1; 2; 3; 4; 6] 2%nat (le_S _ _ (le_n 1)))
    as [L [Early [_ Exact]]].
  split; [exact L |].
  split; [apply Early; cbn; lia |].
  destruct (Exact [1; 2; 3; 4; 6]%Z 6%Z eq_refl) with (i := 4%nat)
    as [v [u [R [N [E _]]]]].
  - intros z Hz. cbn in Hz.
    destruct Hz as [<- | [<- | [<- | [<- | [<- | []]]]]]; discriminate.
  - discriminate.
  - cbn. lia.
  - cbn. lia.
  - exists u. split; [exact N |]. rewrite E.
    vm_compute in R. injection R as <-. reflexivity.
Defined.

(** C2, as stated, fails: twenty closes alternating between the binary64
    values of 10.01 and 10.02 have the same arithmetic mean over the last
    ten rows and over all twenty, yet the function returns the binary64
    value above it for the window of ten (10.015) and the one below it for
    the window of twenty (10.014999999999999); neither is the mean. *)
Lemma C2_mean_is_rounded :
  is_binary64 close_10_01 /\ is_binary64 close_10_02
  /\ mean_ending_at alternating_closes 10 19
     == mean_ending_at alternating_closes 20 19
  /\ exists a b : Q,
       nth_error (sma_binary64 (of_prices alternating_closes) 10) 19
       = Some (Fin a)
       /\ nth_error (sma_binary64 (of_prices alternating_closes) 20) 19
          = Some (Fin b)
       /\ a == 704742972939305 # 70368744177664
       /\ b == 5637943783514439 # 562949953421312
       /\ b < mean_ending_at alternating_closes 20 19
       /\ mean_ending_at alternating_closes 10 19 < a.
Proof.
  split; [eexists; split; [vm_compute; reflexivity | reflexivity] |].
  split; [eexists; split; [vm_compute; reflexivity | reflexivity] |].
  split; [vm_compute; reflexivity |].
  do 2 eexists.
  split; [vm_compute; reflexivity |].
  split; [vm_compute; reflexivity |].
  repeat split; vm_compute; reflexivity.
Qed.

(** ** The rolling mean of gains and losses *)

(** One addition and one removal on exact sums, for an entry that is equal
    to an integer. *)
Lemma add_mean_exact (sb : Q -> bool) (st : mean_state) (v : Q) (z S : Z) :
  v == inject_Z z ->
  f64_is (sum_x st) (inject_Z S) ->
  f64_is (compensation_add st) 0 ->
  (Z.abs z <= 2 ^ 53)%Z -> (Z.abs (S + z) <= 2 ^ 53)%Z ->
  f64_is (sum_x (add_mean sb (Some v) st)) (inject_Z (S + z))
  /\ f64_is (compensation_add (add_mean sb (Some v) st)) 0.
Proof.
  intros Hv Hs Hc Bz Bs. cbn [add_mean sum_x compensation_add].
  assert (Y : f64_is (f64_sub (Fin v) (compensation_add st)) (inject_Z z)).
  { replace (inject_Z z) with (inject_Z (z - 0)) by (f_equal; lia).
    apply f64_sub_integers; [exists v; split; [reflexivity | exact Hv] | exact Hc | lia]. }
  assert (T : f64_is (f64_add (sum_x st) (f64_sub (Fin v) (compensation_add st)))
                     (inject_Z (S + z)))
    by (now apply f64_add_integers).
  split; [exact T |].
  change 0 with (inject_Z 0).
  replace 0%Z with (S + z - S - z)%Z by lia.
  apply f64_sub_integers; [| exact Y | lia].
  apply f64_sub_integers; [exact T | exact Hs | lia].
Qed.

Lemma remove_mean_exact (sb : Q -> bool) (st : mean_state) (v : Q) (z S : Z) :
  v == inject_Z z ->
  f64_is (sum_x st) (inject_Z S) ->
  f64_is (compensation_remove st) 0 ->
  (Z.abs z <= 2 ^ 53)%Z -> (Z.abs (S - z) <= 2 ^ 53)%Z ->
  f64_is (sum_x (remove_mean sb (Some v) st)) (inject_Z (S - z))
  /\ f64_is (compensation_remove (remove_mean sb (Some v) st)) 0.
Proof.
  intros Hv Hs Hc Bz Bs. cbn [remove_mean sum_x compensation_remove].
  assert (Y : f64_is (f64_sub (f64_neg (Fin v)) (compensation_remove st))
                     (inject_Z (- z))).
  { replace (- z)%Z with (- z - 0)%Z by lia.
    apply f64_sub_integers; [| exact Hc | lia].
    apply f64_neg_integer. exists v. split; [reflexivity | exact Hv]. }
  assert (T : f64_is (f64_add (sum_x st)
                              (f64_sub (f64_neg (Fin v)) (compensation_remove st)))
                     (inject_Z (S - z))).
  { replace (S - z)%Z with (S + - z)%Z by lia.
    apply f64_add_integers; [exact Hs | exact Y | lia]. }
  split; [exact T |].
  change 0 with (inject_Z 0).
  replace 0%Z with (S - z - S - - z)%Z by lia.
  apply f64_sub_integers; [| exact Y | lia].
  apply f64_sub_integers; [exact T | exact Hs | lia].
Qed.

Lemma stands_for_nonneg (v : Q) (z : Z) :
  stands_for (Some v) z -> (0 <= z)%Z -> 0 <= v.
Proof.
  cbn [stands_for]. intros E H. rewrite E.
  change 0 with (inject_Z 0). now rewrite <- Zle_Qle.
Qed.

(** The state before the first addition of a window. *)
Lemma setup_state_exact (o : option Q) (z : Z) :
  stands_for o z -> (0 <= z)%Z ->
  f64_is (sum_x (setup_state o)) (inject_Z 0)
  /\ f64_is (compensation_add (setup_state o)) 0
  /\ f64_is (compensation_remove (setup_state o)) 0
  /\ nan_or_nonneg (prev_value (setup_state o)).
Proof.
  intros Ho Hz. cbn [setup_state sum_x compensation_add compensation_remove prev_value].
  repeat split; try (exists 0; split; reflexivity).
  destruct o as [v |]; [right | left; reflexivity].
  exists v. split; [reflexivity | exact (stands_for_nonneg Ho Hz)].
Qed.

(** Adding and removing the entry of one row. *)
Lemma add_row_exact (sb : Q -> bool) (st : mean_state) (o : option Q) (z S : Z) :
  stands_for o z -> (0 <= z)%Z ->
  f64_is (sum_x st) (inject_Z S) ->
  f64_is (compensation_add st) 0 ->
  f64_is (compensation_remove st) 0 ->
  nan_or_nonneg (prev_value st) ->
  (Z.abs z <= 2 ^ 53)%Z -> (Z.abs (S + z) <= 2 ^ 53)%Z ->
  f64_is (sum_x (add_mean sb o st)) (inject_Z (S + z))
  /\ f64_is (compensation_add (add_mean sb o st)) 0
  /\ f64_is (compensation_remove (add_mean sb o st)) 0
  /\ nan_or_nonneg (prev_value (add_mean sb o st)).
Proof.
  intros Ho Hz Hs Hca Hcr Hp Bz Bs. destruct o as [v |].
  - destruct (@add_mean_exact sb st v z S Ho Hs Hca Bz Bs) as [Sum Comp].
    split; [exact Sum |]. split; [exact Comp |]. split; [exact Hcr |].
    right. exists v. split; [reflexivity | exact (stands_for_nonneg Ho Hz)].
  - cbn [stands_for] in Ho. subst z. cbn [add_mean]. rewrite Z.add_0_r.
    repeat split; assumption.
Qed.

Lemma remove_row_exact (sb : Q -> bool) (st : mean_state) (o : option Q) (z S : Z) :
  stands_for o z ->
  f64_is (sum_x st) (inject_Z S) ->
  f64_is (compensation_add st) 0 ->
  f64_is (compensation_remove st) 0 ->
  nan_or_nonneg (prev_value st) ->
  (Z.abs z <= 2 ^ 53)%Z -> (Z.abs (S - z) <= 2 ^ 53)%Z ->
  f64_is (sum_x (remove_mean sb o st)) (inject_Z (S - z))
  /\ f64_is (compensation_add (remove_mean sb o st)) 0
  /\ f64_is (compensation_remove (remove_mean sb o st)) 0
  /\ nan_or_nonneg (prev_value (remove_mean sb o st)).
Proof.
  intros Ho Hs Hca Hcr Hp Bz Bs. destruct o as [v |].
  - destruct (@remove_mean_exact sb st v z S Ho Hs Hcr Bz Bs) as [Sum Comp].
    split; [exact Sum |]. split; [exact Hca |]. split; [exact Comp |]. exact Hp.
  - cbn [stands_for] in Ho. subst z. cbn [remove_mean]. rewrite Z.sub_0_r.
    repeat split; assumption.
Qed.

(** While the entries stand for non-negative integers whose window sums
    stay within [2^53], the loop carries the exact sum of the window,
    whatever the sign bits of the entries. *)
Lemma state_after_exact_sum (sb : Q -> bool) (values : series) (zs : list Z)
  (w i : nat) (C : Z) :
  (1 <= w)%nat ->
  (forall j : nat, stands_for (nth j values None) (nth j zs 0%Z)) ->
  (forall j : nat, (0 <= nth j zs 0 <= C)%Z) ->
  (Z.of_nat w * C <= 2 ^ 53)%Z ->
  exact_sum_state zs w i (state_after sb values w i).
Proof.
  intros Hw Hv Hb Hcap.
  assert (Each : forall j : nat, (Z.abs (nth j zs 0) <= 2 ^ 53)%Z).
  { intros j. specialize (Hb j). nia. }
  assert (Abs : forall j : nat, (Z.abs (nth j zs 0) <= C)%Z).
  { intros j. specialize (Hb j). lia. }
  assert (Sums : forall s n : nat, (n <= w)%nat ->
                                   (Z.abs (zsum_from zs s n) <= 2 ^ 53)%Z).
  { intros s n Hn. pose proof (zsum_from_bound zs s n Abs).
    specialize (Hb 0%nat). nia. }
  assert (Fresh : forall j : nat,
             exact_sum_state zs 1 j
               (add_mean sb (nth j values None) (setup_state (nth j values None)))).
  { intros j.
    destruct (@setup_state_exact (nth j values None) (nth j zs 0%Z))
      as [S0 [A0 [R0 P0]]]; [apply Hv | apply Hb |].
    destruct (@add_row_exact sb (setup_state (nth j values None))
                (nth j values None) (nth j zs 0%Z) 0%Z)
      as [S1 [A1 [R1 P1]]]; try assumption;
      [apply Hv | apply Hb | apply Each | cbn [Z.add]; apply Each |].
    unfold exact_sum_state.
    replace (S j - 1)%nat with j by lia.
    replace (Nat.min (S j) 1) with 1%nat by lia.
    cbn [zsum_from]. rewrite Z.add_0_r. rewrite Z.add_0_l in S1.
    repeat split; assumption. }
  destruct (Nat.eq_dec w 1) as [-> | Hne].
  - destruct i as [| k]; cbn [state_after]; rewrite roll_step_single; apply Fresh.
  - induction i as [| k IH]; cbn [state_after].
    + rewrite roll_step_first by lia.
      specialize (Fresh 0%nat). unfold exact_sum_state in *.
      replace (1 - w)%nat with 0%nat by lia.
      replace (Nat.min 1 w) with 1%nat by lia.
      replace (1 - 1)%nat with 0%nat in Fresh by lia.
      replace (Nat.min 1 1) with 1%nat in Fresh by lia.
      exact Fresh.
    + destruct IH as [Hsum [Hca [Hcr Hprev]]].
      set (st := state_after sb values w k) in *.
      destruct (le_lt_dec w (S k)) as [Slide | Grow].
      * rewrite roll_step_slide by lia.
        replace (Nat.min (S k) w) with w in * by lia.
        set (old := nth (S k - w) zs 0%Z).
        set (new := nth (S k) zs 0%Z).
        assert (Old : zsum_from zs (S k - w) w
                      = (old + zsum_from zs (S (S k - w)) (w - 1))%Z).
        { apply zsum_from_head. lia. }
        assert (New : zsum_from zs (S (S k) - w) w
                      = (zsum_from zs (S (S k - w)) (w - 1) + new)%Z).
        { rewrite zsum_from_last by lia.
          replace (S (S k) - w)%nat with (S (S k - w)) by lia.
          replace (S (S k - w) + (w - 1))%nat with (S k) by lia. reflexivity. }
        destruct (@remove_row_exact sb st (nth (S k - w) values None) old
                    (zsum_from zs (S k - w) w))
          as [S1 [A1 [R1 P1]]]; try assumption.
        { apply Hv. }
        { apply Each. }
        { rewrite Old. replace (old + _ - old)%Z
            with (zsum_from zs (S (S k - w)) (w - 1)) by lia.
          apply Sums. lia. }
        destruct (@add_row_exact sb (remove_mean sb (nth (S k - w) values None) st)
                    (nth (S k) values None) new
                    (zsum_from zs (S k - w) w - old))
          as [S2 [A2 [R2 P2]]]; try assumption.
        { apply Hv. }
        { apply Hb. }
        { apply Each. }
        { rewrite Old. replace (old + _ - old + new)%Z
            with (zsum_from zs (S (S k) - w) w) by (rewrite New; lia).
          apply Sums. lia. }
        unfold exact_sum_state.
        replace (Nat.min (S (S k)) w) with w by lia.
        split; [| repeat split; assumption].
        replace (zsum_from zs (S (S k) - w) w)
          with (zsum_from zs (S k - w) w - old + new)%Z by (rewrite New, Old; lia).
        exact S2.
      * rewrite roll_step_grow by lia.
        replace (Nat.min (S k) w) with (S k) in * by lia.
        replace (S k - w)%nat with 0%nat in * by lia.
        set (new := nth (S k) zs 0%Z).
        destruct (@add_row_exact sb st (nth (S k) values None) new
                    (zsum_from zs 0 (S k)))
          as [S2 [A2 [R2 P2]]]; try assumption.
        { apply Hv. }
        { apply Hb. }
        { apply Each. }
        { replace (zsum_from zs 0 (S k) + new)%Z with (zsum_from zs 0 (S (S k)))
            by (rewrite (zsum_from_snoc zs 0 (S k)); reflexivity).
          apply Sums. lia. }
        unfold exact_sum_state.
        replace (Nat.min (S (S k)) w) with (S (S k)) by lia.
        replace (S (S k) - w)%nat with 0%nat by lia.
        split; [| repeat split; assumption].
        rewrite (zsum_from_snoc zs 0 (S k)). exact S2.
Qed.

Lemma zsum_from_nonneg (zs : list Z) (s n : nat) :
  (forall j : nat, (0 <= nth j zs 0)%Z) -> (0 <= zsum_from zs s n)%Z.
Proof.
  intros H. revert s. induction n as [| n IH]; intros s; cbn [zsum_from]; [lia |].
  specialize (H s). specialize (IH (S s)). lia.
Qed.

(** The mean of an exact non-negative sum is undefined or non-negative. *)
Lemma calc_mean_nonneg (zs : list Z) (w i minp : nat) (C : Z) (st : mean_state) :
  (forall j : nat, (0 <= nth j zs 0 <= C)%Z) ->
  (Z.of_nat w * C <= 2 ^ 53)%Z ->
  exact_sum_state zs w i st ->
  nan_or_nonneg (calc_mean minp st).
Proof.
  intros Hb Hcap [[u [Eu Es]] [_ [_ Hprev]]].
  unfold calc_mean.
  destruct ((minp <=? nobs st)%nat && (0 <? nobs st)%nat) eqn:G;
    [| left; reflexivity].
  apply andb_true_iff in G. destruct G as [_ G]. apply Nat.ltb_lt in G.
  destruct (nobs st <=? num_consecutive_same_value st)%nat; [exact Hprev |].
  set (S := zsum_from zs (Datatypes.S i - w) (Nat.min (Datatypes.S i) w)) in *.
  assert (S0 : (0 <= S)%Z).
  { subst S. apply zsum_from_nonneg. intros j. apply Hb. }
  assert (BS : (Z.abs S <= 2 ^ 53)%Z).
  { assert (Abs : forall j : nat, (Z.abs (nth j zs 0) <= C)%Z).
    { intros j. specialize (Hb j). lia. }
    pose proof (zsum_from_bound zs (Datatypes.S i - w)
                                (Nat.min (Datatypes.S i) w) Abs) as Bd.
    fold S in Bd. specialize (Hb 0%nat). nia. }
  rewrite Eu. rewrite f64_div_fin by (apply positive_count_not_zero; lia).
  destruct (@integer_quotient_bounds S (nobs st) u ltac:(lia) Es BS) as [Bq [Pq _]].
  destruct (@f64_round_bounded (u / inject_Z (Z.of_nat (nobs st))) Bq)
    as [v [R [V0 _]]].
  rewrite R. specialize (V0 (Pq S0)).
  destruct ((neg_ct st =? 0)%nat && f64_ltb (Fin v) (Fin 0));
    [right; exists 0; split; [reflexivity | lra] |].
  destruct ((neg_ct st =? nobs st)%nat && f64_ltb (Fin 0) (Fin v));
    [right; exists 0; split; [reflexivity | lra] |].
  right. exists v. split; [reflexivity | exact V0].
Qed.

(** ** Gains and losses of integer closes *)

Lemma diff_binary64_length (xs : series) :
  length (diff_binary64 xs) = length xs.
Proof.
  destruct xs as [| x tl]; [reflexivity |].
  cbn [diff_binary64 length]. rewrite length_map, length_combine.
  cbn [length]. lia.
Qed.

Lemma rsi_avg_gain_binary64_length (close : series) (period : nat) :
  length (rsi_avg_gain_binary64 close period) = length close.
Proof.
  unfold rsi_avg_gain_binary64, prep_values, rsi_gains_binary64.
  now rewrite roll_mean_length, !length_map, diff_binary64_length.
Qed.

Lemma rsi_avg_loss_binary64_length (close : series) (period : nat) :
  length (rsi_avg_loss_binary64 close period) = length close.
Proof.
  unfold rsi_avg_loss_binary64, prep_values, rsi_losses_binary64.
  now rewrite roll_mean_length, !length_map, diff_binary64_length.
Qed.

Lemma stands_for_nth (values : series) (zs : list Z) (j : nat) :
  Forall2 stands_for values zs ->
  stands_for (nth j values None) (nth j zs 0%Z).
Proof.
  intros H. revert j. induction H as [| o z values zs Ho _ IH]; intros j.
  - destruct j; reflexivity.
  - destruct j as [| j]; [exact Ho | apply IH].
Qed.

(** The differences of integer closes are exact. *)
Lemma diff_pairs_exact (tl zs : list Z) (B : Z) :
  (forall z : Z, In z tl -> (Z.abs z <= B)%Z) ->
  (forall z : Z, In z zs -> (Z.abs z <= B)%Z) ->
  (2 * B <= 2 ^ 53)%Z ->
  Forall2 (fun (x : f64) (d : Z) => f64_is x (inject_Z d) /\ (Z.abs d <= 2 * B)%Z)
    (map (fun cp : option Q * option Q =>
            match cp with
            | (Some cur, Some prev) => f64_sub (Fin cur) (Fin prev)
            | _ => NaN
            end)
         (combine (of_prices (map inject_Z tl)) (of_prices (map inject_Z zs))))
    (map (fun cp : Z * Z => (fst cp - snd cp)%Z) (combine tl zs)).
Proof.
  intros Ht Hz Hcap. revert zs Hz.
  induction tl as [| a tl IH]; intros [| b zs] Hz; cbn [of_prices map combine];
    try constructor.
  - cbn [fst snd].
    assert (Ba : (Z.abs a <= B)%Z) by (apply Ht; now left).
    assert (Bb : (Z.abs b <= B)%Z) by (apply Hz; now left).
    split; [| lia].
    apply f64_sub_integers; [| | lia]; eexists; split; reflexivity.
  - apply IH.
    + intros z Hin. apply Ht. now right.
    + intros z Hin. apply Hz. now right.
Qed.

Lemma f64_is_nonneg (q : Q) (d : Z) :
  q == inject_Z d -> Qle_bool 0 q = (0 <=? d)%Z.
Proof.
  intros E. destruct (0 <=? d)%Z eqn:C.
  - apply Z.leb_le in C. apply Qle_bool_iff. rewrite E.
    change 0 with (inject_Z 0). now rewrite <- Zle_Qle.
  - apply Z.leb_gt in C. apply not_true_is_false. intros H.
    apply Qle_bool_iff in H. rewrite E in H. change 0 with (inject_Z 0) in H.
    rewrite <- Zle_Qle in H. lia.
Qed.

Lemma f64_is_nonpos (q : Q) (d : Z) :
  q == inject_Z d -> Qle_bool q 0 = (d <=? 0)%Z.
Proof.
  intros E. destruct (d <=? 0)%Z eqn:C.
  - apply Z.leb_le in C. apply Qle_bool_iff. rewrite E.
    change 0 with (inject_Z 0). now rewrite <- Zle_Qle.
  - apply Z.leb_gt in C. apply not_true_is_false. intros H.
    apply Qle_bool_iff in H. rewrite E in H. change 0 with (inject_Z 0) in H.
    rewrite <- Zle_Qle in H. lia.
Qed.

(** The gain and the loss of one exact difference. *)
Lemma gain_entry_exact (x : f64) (d : Z) :
  f64_is x (inject_Z d) ->
  stands_for (nth 0 (prep_values [clip_lower_binary64 x]) None) (Z.max 0 d).
Proof.
  intros [q [-> E]]. cbn [clip_lower_binary64]. rewrite (f64_is_nonneg E).
  destruct (0 <=? d)%Z eqn:C; cbn [prep_values map nth stands_for].
  - apply Z.leb_le in C. now rewrite Z.max_r by lia.
  - apply Z.leb_gt in C. now rewrite Z.max_l by lia.
Qed.

Lemma loss_entry_exact (x : f64) (d : Z) :
  f64_is x (inject_Z d) ->
  stands_for (nth 0 (prep_values [f64_neg (clip_upper_binary64 x)]) None)
             (Z.max 0 (- d)).
Proof.
  intros [q [-> E]]. cbn [clip_upper_binary64]. rewrite (f64_is_nonpos E).
  destruct (d <=? 0)%Z eqn:C; cbn [f64_neg prep_values map nth stands_for].
  - apply Z.leb_le in C. rewrite Z.max_r by lia.
    now rewrite E, inject_Z_opp.
  - apply Z.leb_gt in C. now rewrite Z.max_l by lia.
Qed.

Lemma gains_of_exact (deltas : list f64) (ds : list Z) (C : Z) :
  Forall2 (fun (x : f64) (d : Z) => f64_is x (inject_Z d) /\ (Z.abs d <= C)%Z)
          deltas ds ->
  Forall2 stands_for (prep_values (map clip_lower_binary64 deltas))
          (map (Z.max 0) ds)
  /\ Forall2 stands_for
       (prep_values (map (fun x => f64_neg (clip_upper_binary64 x)) deltas))
       (map (fun d => Z.max 0 (- d)) ds)
  /\ Forall (fun d => (Z.abs d <= C)%Z) ds.
Proof.
  induction 1 as [| x d deltas ds [Hx Hd] _ [IHg [IHl IHb]]].
  - repeat split; constructor.
  - split; [| split].
    + constructor; [exact (gain_entry_exact Hx) | exact IHg].
    + constructor; [exact (loss_entry_exact Hx) | exact IHl].
    + constructor; assumption.
Qed.

Lemma nth_within (ds : list Z) (C : Z) (f : Z -> Z) (j : nat) :
  Forall (fun d => (Z.abs d <= C)%Z) ds -> (0 <= C)%Z ->
  f 0%Z = 0%Z ->
  (forall d : Z, (Z.abs d <= C)%Z -> (0 <= f d <= C)%Z) ->
  (0 <= nth j (map f ds) 0 <= C)%Z.
Proof.
  intros H HC F0 Hf.
  assert (E : nth j (map f ds) 0%Z = f (nth j ds 0%Z)).
  { transitivity (nth j (map f ds) (f 0%Z)); [now rewrite F0 | apply map_nth]. }
  rewrite E. apply Hf.
  destruct (le_lt_dec (length ds) j) as [Out | In'].
  - rewrite nth_overflow by exact Out. cbn. lia.
  - rewrite Forall_forall in H. apply H, nth_In, In'.
Qed.

(** Gains and losses of integer closes stand for the positive and negative
    parts of the integer differences, all between 0 and [2 B]. *)
Lemma gains_losses_of_integers (zs : list Z) (B : Z) :
  (forall z : Z, In z zs -> (Z.abs z <= B)%Z) ->
  (0 <= B)%Z -> (2 * B <= 2 ^ 53)%Z ->
  let close := of_prices (map inject_Z zs) in
  (forall j : nat,
      stands_for (nth j (prep_values (rsi_gains_binary64 close)) None)
                 (nth j (zgains zs) 0%Z))
  /\ (forall j : nat,
        stands_for (nth j (prep_values (rsi_losses_binary64 close)) None)
                   (nth j (zlosses zs) 0%Z))
  /\ (forall j : nat, (0 <= nth j (zgains zs) 0 <= 2 * B)%Z)
  /\ (forall j : nat, (0 <= nth j (zlosses zs) 0 <= 2 * B)%Z).
Proof.
  intros Hin B0 Hcap close. subst close.
  unfold rsi_gains_binary64, rsi_losses_binary64, zgains, zlosses.
  destruct zs as [| z0 tl].
  - cbn [of_prices map diff_binary64 zdiff prep_values].
    split; [| split; [| split]]; intros [| k]; cbn [nth stands_for];
      try reflexivity; lia.
  - cbn [of_prices map diff_binary64 zdiff].
    assert (Htl : forall z : Z, In z tl -> (Z.abs z <= B)%Z)
      by (intros z Hz; apply Hin; now right).
    pose proof (@diff_pairs_exact tl (z0 :: tl) B Htl Hin Hcap) as D.
    cbn [of_prices map] in D.
    apply gains_of_exact in D. destruct D as [G [L Bd]].
    assert (G' : Forall2 stands_for
                   (prep_values (map clip_lower_binary64
                      (NaN :: map (fun cp : option Q * option Q =>
                                     match cp with
                                     | (Some cur, Some prev) =>
                                         f64_sub (Fin cur) (Fin prev)
                                     | _ => NaN
                                     end)
                                  (combine (map (@Some Q) (map inject_Z tl))
                                           (Some (inject_Z z0)
                                            :: map (@Some Q) (map inject_Z tl))))))
                   (map (Z.max 0)
                        (0%Z :: map (fun cp : Z * Z => (fst cp - snd cp)%Z)
                                    (combine tl (z0 :: tl))))).
    { cbn [map prep_values clip_lower_binary64]. constructor; [reflexivity | exact G]. }
    assert (L' : Forall2 stands_for
                   (prep_values (map (fun x => f64_neg (clip_upper_binary64 x))
                      (NaN :: map (fun cp : option Q * option Q =>
                                     match cp with
                                     | (Some cur, Some prev) =>
                                         f64_sub (Fin cur) (Fin prev)
                                     | _ => NaN
                                     end)
                                  (combine (map (@Some Q) (map inject_Z tl))
                                           (Some (inject_Z z0)
                                            :: map (@Some Q) (map inject_Z tl))))))
                   (map (fun d => Z.max 0 (- d))
                        (0%Z :: map (fun cp : Z * Z => (fst cp - snd cp)%Z)
                                    (combine tl (z0 :: tl))))).
    { cbn [map prep_values clip_upper_binary64 f64_neg].
      constructor; [reflexivity | exact L]. }
    assert (Bd' : Forall (fun d => (Z.abs d <= 2 * B)%Z)
                         (0%Z :: map (fun cp : Z * Z => (fst cp - snd cp)%Z)
                                     (combine tl (z0 :: tl)))).
    { constructor; [change (Z.abs 0) with 0%Z; lia | exact Bd]. }
    split; [intros j; exact (stands_for_nth j G') |].
    split; [intros j; exact (stands_for_nth j L') |].
    split; intros j.
    + refine (@nth_within _ (2 * B) (Z.max 0) j Bd' _ eq_refl _);
        [lia | intros d Hd; lia].
    + refine (@nth_within _ (2 * B) (fun d => Z.max 0 (- d)) j Bd' _ eq_refl _);
        [lia | intros d Hd; lia].
Qed.

(** On integer closes both averages are undefined or non-negative. *)
Lemma rsi_averages_of_integers (zs : list Z) (B : Z) (period i : nat) :
  (1 <= period)%nat ->
  (forall z : Z, In z zs -> (Z.abs z <= B)%Z) ->
  (2 * Z.of_nat period * B <= 2 ^ 53)%Z ->
  (i < length zs)%nat ->
  exists g l : f64,
    nth_error (rsi_avg_gain_binary64 (of_prices (map inject_Z zs)) period) i
    = Some g
    /\ nth_error (rsi_avg_loss_binary64 (of_prices (map inject_Z zs)) period) i
       = Some l
    /\ nan_or_nonneg g /\ nan_or_nonneg l.
Proof.
  intros Hp Hin Hcap Hi.
  assert (B0 : (0 <= B)%Z).
  { specialize (Hin (nth i zs 0%Z) (nth_In zs 0%Z Hi)). lia. }
  assert (Hcap2 : (2 * B <= 2 ^ 53)%Z) by nia.
  assert (HcapW : (Z.of_nat period * (2 * B) <= 2 ^ 53)%Z) by lia.
  destruct (@gains_losses_of_integers zs B Hin B0 Hcap2) as [G [L [BG BL]]].
  assert (Len : length (of_prices (map inject_Z zs)) = length zs)
    by (unfold of_prices; now rewrite !length_map).
  do 2 eexists.
  split.
  { unfold rsi_avg_gain_binary64. apply roll_mean_nth.
    unfold prep_values, rsi_gains_binary64.
    now rewrite !length_map, diff_binary64_length, Len. }
  split.
  { unfold rsi_avg_loss_binary64. apply roll_mean_nth.
    unfold prep_values, rsi_losses_binary64.
    now rewrite !length_map, diff_binary64_length, Len. }
  split.
  - eapply calc_mean_nonneg; [exact BG | exact HcapW |].
    apply (@state_after_exact_sum signbit _ (zgains zs) period i (2 * B));
      assumption.
  - eapply calc_mean_nonneg; [exact BL | exact HcapW |].
    apply (@state_after_exact_sum signbit_negated _ (zlosses zs) period i (2 * B));
      assumption.
Qed.

(** ** Rows of the oscillator without a value *)

(** A row whose average loss is 0, or undefined, has no value. *)
Lemma rsi_row_binary64_zero_loss (g l : f64) :
  f64_is l 0 -> rsi_row_binary64 g l = NaN.
Proof.
  intros [b [-> E]]. unfold rsi_row_binary64, replace_zero_nan_binary64.
  apply Qeq_bool_iff in E. rewrite E. cbv zeta.
  destruct g; reflexivity.
Qed.

Lemma rsi_row_binary64_nan_loss (g : f64) : rsi_row_binary64 g NaN = NaN.
Proof. destruct g; reflexivity. Qed.

Lemma rsi_row_binary64_nan_gain (l : f64) : rsi_row_binary64 NaN l = NaN.
Proof.
  unfold rsi_row_binary64.
  destruct (replace_zero_nan_binary64 l); reflexivity.
Qed.

(** ** The average gain is never negative *)

Lemma signbit_nonneg (v : Q) : 0 <= v -> signbit v = false.
Proof.
  intros H. unfold signbit. apply not_true_is_false. intros L.
  apply Qlt_bool_iff in L. lra.
Qed.

Lemma setup_state_unsigned (o : option Q) :
  entry_nonneg o -> unsigned_state (setup_state o).
Proof.
  intros H. split; [reflexivity |]. cbn [setup_state prev_value].
  destruct o as [v |]; [right; exists v; split; [reflexivity | exact H]
                       | left; reflexivity].
Qed.

Lemma add_mean_unsigned (o : option Q) (st : mean_state) :
  entry_nonneg o -> unsigned_state st -> unsigned_state (add_mean signbit o st).
Proof.
  intros H [N P]. destruct o as [v |]; [| split; assumption].
  cbn [entry_nonneg] in H. split.
  - cbn [add_mean neg_ct]. now rewrite (signbit_nonneg H).
  - right. exists v. split; [reflexivity | exact H].
Qed.

Lemma remove_mean_unsigned (o : option Q) (st : mean_state) :
  entry_nonneg o -> unsigned_state st -> unsigned_state (remove_mean signbit o st).
Proof.
  intros H [N P]. destruct o as [v |]; [| split; assumption].
  cbn [entry_nonneg] in H. split.
  - cbn [remove_mean neg_ct]. now rewrite (signbit_nonneg H).
  - exact P.
Qed.

Lemma fold_unsigned (f : option Q -> mean_state -> mean_state) (values : series)
  (rows : list nat) (st : mean_state) :
  (forall (o : option Q) (s : mean_state),
      entry_nonneg o -> unsigned_state s -> unsigned_state (f o s)) ->
  (forall j : nat, entry_nonneg (nth j values None)) ->
  unsigned_state st ->
  unsigned_state (fold_left (fun acc j => f (nth j values None) acc) rows st).
Proof.
  intros Hf Hv. revert st. induction rows as [| j rows IH]; intros st H.
  - exact H.
  - cbn [fold_left]. apply IH. apply Hf; [apply Hv | exact H].
Qed.

Lemma roll_step_unsigned (values : series) (w i : nat) (st : mean_state) :
  (forall j : nat, entry_nonneg (nth j values None)) ->
  unsigned_state st ->
  unsigned_state (roll_step signbit values w i st).
Proof.
  intros Hv H. unfold roll_step.
  destruct ((i =? 0)%nat || (i <=? S i - w)%nat).
  - apply (@fold_unsigned (add_mean signbit)); [apply add_mean_unsigned | exact Hv |].
    apply setup_state_unsigned, Hv.
  - apply (@fold_unsigned (add_mean signbit)); [apply add_mean_unsigned | exact Hv |].
    apply (@fold_unsigned (remove_mean signbit));
      [apply remove_mean_unsigned | exact Hv | exact H].
Qed.

Lemma state_after_unsigned (values : series) (w i : nat) :
  (forall j : nat, entry_nonneg (nth j values None)) ->
  unsigned_state (state_after signbit values w i).
Proof.
  intros Hv. induction i as [| k IH]; cbn [state_after].
  - apply roll_step_unsigned; [exact Hv |].
    split; [reflexivity | left; reflexivity].
  - apply roll_step_unsigned; assumption.
Qed.

(** With no sign bit counted a negative mean is replaced by 0. *)
Lemma calc_mean_unsigned (minp : nat) (st : mean_state) :
  unsigned_state st -> f64_not_negative (calc_mean minp st).
Proof.
  intros [N P]. unfold calc_mean.
  destruct ((minp <=? nobs st)%nat && (0 <? nobs st)%nat) eqn:G;
    [| left; reflexivity].
  apply andb_true_iff in G. destruct G as [_ G]. apply Nat.ltb_lt in G.
  destruct (nobs st <=? num_consecutive_same_value st)%nat.
  { destruct P as [-> | [p [-> Hp]]]; [left; reflexivity |].
    right. right. exists p. split; [reflexivity | exact Hp]. }
  rewrite N.
  replace (0 =? nobs st)%nat with false by (symmetry; apply Nat.eqb_neq; lia).
  cbn [Nat.eqb andb].
  destruct (f64_div (sum_x st) (Fin (inject_Z (Z.of_nat (nobs st)))))
    as [v | [|] |] eqn:R; cbn [f64_ltb].
  - destruct (Qlt_bool v 0) eqn:L.
    + right. right. exists 0. split; [reflexivity | lra].
    + right. right. exists v. split; [reflexivity |].
      apply Qnot_lt_le. intros H. apply Qlt_bool_iff in H. congruence.
  - right. right. exists 0. split; [reflexivity | lra].
  - right. left. reflexivity.
  - left. reflexivity.
Qed.

Lemma clip_lower_entry_nonneg (x : f64) :
  entry_nonneg (match clip_lower_binary64 x with
                | Fin q => Some q
                | _ => None
                end).
Proof.
  destruct x as [q | [|] |]; cbn [clip_lower_binary64]; try exact I.
  - destruct (Qle_bool 0 q) eqn:C; cbn [entry_nonneg].
    + now apply Qle_bool_iff.
    + apply Qle_refl.
  - apply Qle_refl.
Qed.

Lemma gains_entries_nonneg (deltas : list f64) (j : nat) :
  entry_nonneg (nth j (prep_values (map clip_lower_binary64 deltas)) None).
Proof.
  revert j. induction deltas as [| x tl IH]; intros [| j];
    cbn [map prep_values nth]; try exact I.
  - apply clip_lower_entry_nonneg.
  - apply IH.
Qed.

(** The average gain of any series is undefined, a non-negative number or
    [+inf]. *)
Lemma rsi_avg_gain_not_negative (close : series) (period i : nat) (g : f64) :
  nth_error (rsi_avg_gain_binary64 close period) i = Some g ->
  f64_not_negative g.
Proof.
  intros H. unfold rsi_avg_gain_binary64 in H.
  assert (Hi : (i < length (prep_values (rsi_gains_binary64 close)))%nat).
  { assert (Hn : nth_error (roll_mean signbit (prep_values (rsi_gains_binary64 close))
                                      period period) i <> None) by congruence.
    apply nth_error_Some in Hn. now rewrite roll_mean_length in Hn. }
  rewrite roll_mean_nth in H by exact Hi. injection H as <-.
  apply calc_mean_unsigned, state_after_unsigned.
  intros j. unfold rsi_gains_binary64. apply gains_entries_nonneg.
Qed.

(** One row of the oscillator when the average gain or the average loss
    is infinite. *)
Lemma rsi_row_binary64_infinite_gain (b : Q) :
  0 < b ->
  exists v : Q, rsi_row_binary64 (Inf false) (Fin b) = Fin v /\ v == 100.
Proof.
  intros Hb. unfold rsi_row_binary64, replace_zero_nan_binary64.
  replace (Qeq_bool b 0) with false
    by (symmetry; apply not_true_is_false; intros E; apply Qeq_bool_iff in E; lra).
  cbv zeta. cbn [f64_div].
  replace (Qlt_bool b 0) with false
    by (symmetry; apply not_true_is_false; intros E; apply Qlt_bool_iff in E; lra).
  cbn [xorb f64_add f64_div].
  destruct (@hundred_minus 0) as [v [R [_ [_ [_ [_ [_ T]]]]]]]; try lra.
  exists v. split; [exact R | apply T; reflexivity].
Qed.

Lemma rsi_row_binary64_infinite_loss (a : Q) :
  exists v : Q, rsi_row_binary64 (Fin a) (Inf false) = Fin v /\ v == 0.
Proof.
  unfold rsi_row_binary64, replace_zero_nan_binary64. cbv zeta.
  change (f64_div (Fin a) (Inf false)) with (Fin 0).
  change (f64_add (Fin 1) (Fin 0)) with (f64_round (1 + 0)).
  destruct (@f64_round_exact (1 + 0) 1) as [one [R1 E1]];
    [reflexivity | exact is_binary64_1 |].
  rewrite R1.
  assert (A1 : 1 <= one) by lra.
  destruct (hundred_over A1) as [h [H [H0 [H100 [_ [_ Hone]]]]]].
  rewrite H.
  destruct (hundred_minus H0 H100) as [v [V [_ [_ [_ [_ [Vz _]]]]]]].
  exists v. split; [exact V |]. rewrite (Vz (Hone E1)). reflexivity.
Qed.

(** One row of the oscillator on an average gain that is not negative and a
    positive average loss: undefined or within [0, 100]. *)
Lemma rsi_row_binary64_range (g l : f64) :
  f64_not_negative g -> f64_positive l ->
  rsi_row_binary64 g l = NaN
  \/ exists v : Q, rsi_row_binary64 g l = Fin v /\ 0 <= v /\ v <= 100.
Proof.
  intros [-> | [-> | [a [-> Ha]]]] [-> | [b [-> Hb]]].
  - left. apply rsi_row_binary64_nan_gain.
  - left. apply rsi_row_binary64_nan_gain.
  - left. reflexivity.
  - right. destruct (rsi_row_binary64_infinite_gain Hb) as [v [R E]].
    exists v. split; [exact R |]. rewrite E. split; discriminate.
  - right. destruct (rsi_row_binary64_infinite_loss a) as [v [R E]].
    exists v. split; [exact R |]. rewrite E. split; discriminate.
  - right. destruct (rsi_row_binary64_bounds Ha Hb) as [v [R [V0 [V100 _]]]].
    exists v. split; [exact R |]. split; assumption.
Qed.

(** ** The range of the oscillator in binary64 *)

Lemma rsi_vals_binary64_nth (close : series) (period j : nat) (x : f64) :
  nth_error (rsi_vals_binary64 close period) j = Some x ->
  exists g l : f64,
    nth_error (rsi_avg_gain_binary64 close period) j = Some g
    /\ nth_error (rsi_avg_loss_binary64 close period) j = Some l
    /\ x = rsi_row_binary64 g l.
Proof.
  unfold rsi_vals_binary64.
  generalize (rsi_avg_gain_binary64 close period) as gains.
  generalize (rsi_avg_loss_binary64 close period) as losses.
  intros losses gains. revert losses j.
  induction gains as [| g tl IH]; intros [| l al] [| k] H;
    cbn in H; try discriminate.
  - injection H as <-. exists g, l. repeat split.
  - apply IH in H. exact H.
Qed.

Lemma rsi_vals_binary64_length (close : series) (period : nat) :
  length (rsi_vals_binary64 close period) = length close.
Proof.
  unfold rsi_vals_binary64.
  rewrite length_map, length_combine, rsi_avg_gain_binary64_length,
    rsi_avg_loss_binary64_length.
  apply Nat.min_id.
Qed.

(** C4, as the source has it.  Every defined value of the oscillator is
    the value computed on its own row or a later one, from the average gain
    of that row, which is never negative, and its average loss, which is not
    0.  Whenever that average loss is positive the value lies between 0 and
    100, both included: it is 0 when the average gain is 0, and it rounds to
    100 when the loss is tiny next to the gain.  On integer closes whose
    differences add up exactly over a window the average loss is never
    negative, so every defined value lies in that range.  On a row whose
    average loss is exactly 0 the value computed before back-fill is
    undefined, not infinite. *)
Theorem C4_oscillator_range (close : series) (period : nat) :
  (forall (i : nat) (x : f64),
      nth_error (rsi_binary64 close period) i = Some x -> x <> NaN ->
      exists (j : nat) (g l : f64),
        (i <= j)%nat
        /\ nth_error (rsi_avg_gain_binary64 close period) j = Some g
        /\ nth_error (rsi_avg_loss_binary64 close period) j = Some l
        /\ ~ f64_is l 0
        /\ x = rsi_row_binary64 g l
        /\ f64_not_negative g
        /\ (f64_positive l ->
            exists v : Q, x = Fin v /\ 0 <= v /\ v <= 100))
  /\ (forall (i : nat) (g l : f64),
        nth_error (rsi_avg_gain_binary64 close period) i = Some g ->
        nth_error (rsi_avg_loss_binary64 close period) i = Some l ->
        f64_is l 0 ->
        nth_error (rsi_vals_binary64 close period) i = Some NaN)
  /\ (forall (zs : list Z) (B : Z),
        close = of_prices (map inject_Z zs) ->
        (1 <= period)%nat ->
        (forall z : Z, In z zs -> (Z.abs z <= B)%Z) ->
        (2 * Z.of_nat period * B <= 2 ^ 53)%Z ->
        forall (i : nat) (x : f64),
          nth_error (rsi_binary64 close period) i = Some x -> x <> NaN ->
          exists v : Q, x = Fin v /\ 0 <= v /\ v <= 100)
  /\ (forall l : Q, 0 < l ->
        exists v : Q, rsi_row_binary64 (Fin 0) (Fin l) = Fin v /\ v == 0)
  /\ (exists v : Q,
        rsi_row_binary64 (Fin 1) (Fin (Qpow2 (-60))) = Fin v /\ v == 100).
Proof.
  assert (Source : forall (i : nat) (x : f64),
             nth_error (rsi_binary64 close period) i = Some x -> x <> NaN ->
             exists (j : nat) (g l : f64),
               (i <= j)%nat
               /\ nth_error (rsi_avg_gain_binary64 close period) j = Some g
               /\ nth_error (rsi_avg_loss_binary64 close period) j = Some l
               /\ x = rsi_row_binary64 g l).
  { intros i x H Hx. unfold rsi_binary64 in H.
    destruct (bfill_binary64_source _ _ H Hx) as [j [Hij Hj]].
    destruct (rsi_vals_binary64_nth _ _ _ Hj) as [g [l [Hg [Hl E]]]].
    exists j, g, l. repeat split; assumption. }
  split; [| split; [| split; [| split]]].
  - intros i x H Hx.
    destruct (Source i x H Hx) as [j [g [l [Hij [Hg [Hl E]]]]]].
    exists j, g, l. repeat (split; [assumption |]).
    split; [intros Z; apply Hx; rewrite E; now apply rsi_row_binary64_zero_loss |].
    split; [exact E |].
    pose proof (rsi_avg_gain_not_negative _ _ _ Hg) as G.
    split; [exact G |].
    intros L. destruct (rsi_row_binary64_range G L) as [N | [v [R Range]]].
    + exfalso. apply Hx. now rewrite E.
    + exists v. split; [congruence | exact Range].
  - intros i g l Hg Hl Z. unfold rsi_vals_binary64.
    rewrite nth_error_map, (combine_nth_error _ _ _ Hg Hl).
    cbn [option_map fst snd]. f_equal. now apply rsi_row_binary64_zero_loss.
  - intros zs B -> Hp Hin Hcap i x H Hx.
    destruct (Source i x H Hx) as [j [g [l [Hij [Hg [Hl E]]]]]].
    assert (Hj : (j < length zs)%nat).
    { assert (Hg' : nth_error (rsi_avg_gain_binary64
                                 (of_prices (map inject_Z zs)) period) j <> None)
        by congruence.
      apply nth_error_Some in Hg'. rename Hg' into Hlt.
      rewrite rsi_avg_gain_binary64_length in Hlt.
      unfold of_prices in Hlt. now rewrite !length_map in Hlt. }
    destruct (@rsi_averages_of_integers zs B period j Hp Hin Hcap Hj)
      as [g' [l' [Hg' [Hl' [G L]]]]].
    rewrite Hg in Hg'. injection Hg' as <-.
    rewrite Hl in Hl'. injection Hl' as <-.
    destruct G as [-> | [a [-> Ha]]];
      [exfalso; apply Hx; rewrite E; apply rsi_row_binary64_nan_gain |].
    destruct L as [-> | [b [-> Hb]]];
      [exfalso; apply Hx; rewrite E; apply rsi_row_binary64_nan_loss |].
    destruct (Qlt_le_dec 0 b) as [Pos | Neg].
    + destruct (rsi_row_binary64_bounds Ha Pos) as [v [R [V0 [V100 _]]]].
      exists v. split; [congruence |]. split; assumption.
    + exfalso. apply Hx. rewrite E. apply rsi_row_binary64_zero_loss.
      exists b. split; [reflexivity | lra].
  - intros l Hl. destruct (@rsi_row_binary64_bounds 0 l) as [v [R [_ [_ [_ [_ Z]]]]]];
      [lra | exact Hl |].
    exists v. split; [exact R | apply Z; reflexivity].
  - eexists. split; [vm_compute; reflexivity | reflexivity].
Qed.

(** C4, as stated, fails at both ends.  Over twenty falling closes
    (29 down to 10) the average gain is 0 and the oscillator is exactly 0;
    over a dip of one unit in the last place followed by thirteen rises of 1
    the oscillator is exactly 100. *)
Lemma C4_oscillator_reaches_ends :
  (exists v : Q,
      nth_error (rsi_binary64 (of_prices descending_prices) config.RSI_PERIOD) 19
      = Some (Fin v)
      /\ v == 0)
  /\ (exists v : Q,
        nth_error (rsi_binary64 (of_prices dip_then_rise) config.RSI_PERIOD) 14
        = Some (Fin v)
        /\ v == 100).
Proof.
  split; eexists; (split; [vm_compute; reflexivity | reflexivity]).
Qed.

(** ** The moving average stays within its window *)

Lemma zsum_from_between (zs : list Z) (s n : nat) (lo hi : Z) :
  (forall j : nat, (s <= j < s + n)%nat -> (lo <= nth j zs 0 <= hi)%Z) ->
  (Z.of_nat n * lo <= zsum_from zs s n <= Z.of_nat n * hi)%Z.
Proof.
  revert s. induction n as [| n IH]; intros s H; cbn [zsum_from]; [lia |].
  specialize (IH (S s) ltac:(intros j Hj; apply H; lia)).
  specialize (H s ltac:(lia)). lia.
Qed.

(** X15. On integer closes whose window sums are exact, a moving-average
    value lies between the smallest and the largest value of its window: if
    the [w] values ending at row [i] all lie within [[lo, hi]], with
    [0 < lo], the average at row [i] is defined and lies within
    [[lo, hi]]. *)
Theorem sma_binary64_within_window_bounds (zs : list Z) (w i : nat) (B lo hi : Z) :
  (1 <= w)%nat ->
  (forall z : Z, In z zs -> (Z.abs z <= B)%Z) ->
  (Z.of_nat w * B <= 2 ^ 53)%Z ->
  (w - 1 <= i)%nat -> (i < length zs)%nat ->
  (0 < lo)%Z -> (hi <= 2 ^ 53)%Z ->
  (forall j : nat, (S i - w <= j <= i)%nat -> (lo <= nth j zs 0 <= hi)%Z) ->
  exists u : Q,
    nth_error (sma_binary64 (of_prices (map inject_Z zs)) w) i = Some (Fin u)
    /\ inject_Z lo <= u /\ u <= inject_Z hi.
Proof.
  intros Hw Hin Hcap Hi Hlen Hlo Hhi Hwin.
  destruct (@sma_binary64_integers zs w i B Hw Hin Hcap Hi Hlen)
    as [v [u [R [N E]]]].
  exists u. split; [exact N |].
  pose proof (@mean_of_integers zs w i Hw) as Mean.
  set (S := zsum_from zs (Datatypes.S i - w) w) in *.
  assert (Bd : (Z.of_nat w * lo <= S <= Z.of_nat w * hi)%Z).
  { subst S. apply zsum_from_between. intros j Hj. apply Hwin. lia. }
  assert (Pw : 0 < inject_Z (Z.of_nat w)).
  { change 0 with (inject_Z 0). rewrite <- Zlt_Qlt. lia. }
  assert (Lo : inject_Z lo <= mean_ending_at (map inject_Z zs) w i).
  { rewrite Mean. apply Qle_shift_div_l; [exact Pw |].
    rewrite <- inject_Z_mult, <- Zle_Qle. lia. }
  assert (Hi' : mean_ending_at (map inject_Z zs) w i <= inject_Z hi).
  { rewrite Mean. apply Qle_shift_div_r; [exact Pw |].
    rewrite <- inject_Z_mult, <- Zle_Qle. lia. }
  assert (Plo : 0 < inject_Z lo).
  { change 0 with (inject_Z 0). now rewrite <- Zlt_Qlt. }
  assert (Blo : is_binary64 (inject_Z lo)).
  { apply is_binary64_integer.
    specialize (Hwin i ltac:(lia)). lia. }
  assert (Bhi : is_binary64 (inject_Z hi)).
  { apply is_binary64_integer.
    specialize (Hwin i ltac:(lia)). lia. }
  rewrite E. split.
  - exact (@f64_round_fin_lower _ _ v Plo Lo Blo R).
  - assert (P0 : 0 <= mean_ending_at (map inject_Z zs) w i) by lra.
    exact (@f64_round_fin_upper _ _ v P0 Hi' Bhi R).
Qed.

Lemma sma_binary64_within_window_bounds_witness :
  exists u : Q,
    nth_error (sma_binary64 (of_prices (map inject_Z [10; 11; 12; 11; 13]%Z)) 3) 4
    = Some (Fin u)
    /\ inject_Z 11 <= u /\ u <= inject_Z 13.
Proof.
  apply (@sma_binary64_within_window_bounds [10; 11; 12; 11; 13]%Z 3 4 13 11 13).
  - lia.
  - intros z Hz. cbn in Hz.
    destruct Hz as [<- | [<- | [<- | [<- | [<- | []]]]]]; discriminate.
  - discriminate.
  - cbn. lia.
  - cbn. lia.
  - lia.
  - discriminate.
  - intros j Hj.
    assert (C : j = 2%nat \/ j = 3%nat \/ j = 4%nat) by lia.
    destruct C as [-> | [-> | ->]]; cbn; lia.
Defined.
